(** * A verified model of the text-buffer and viewport engine of [edit.c]

    The development embeds the row store ([erow], [editorUpdateRow],
    [editorRowCxToRx], [editorRowInsertChar], [editorAppendRow]), the key
    decoder ([editorReadKey]), the viewport ([editorScroll]) and the key
    dispatch ([editorMoveCursor], [editorProcessKeypress]) of the editor,
    and proves the properties its specification states about them. It
    goes on with the file loader ([editorOpen]), the append buffer
    ([abAppend]), the drawing functions ([editorDrawRows],
    [editorDrawStatusBar], [editorDrawMessageBar]) up to the frame a
    refresh writes, and the window size query ([getWindowSize],
    [getCursorPosition]).

    Conventions of the embedding:
    - a C [int] is a [Z] and arithmetic is that of [Z]: the source never
      relies on wrap-around, signed overflow being undefined in C. The
      model and the source agree as long as every value the source
      forms is in the range of an [int]; the theorems assume this
      ([text_fits], [scroll_fits], [refresh_fits] and the like) wherever
      their other hypotheses do not imply it;
    - a [char] in memory is the [Z] in [0, 256) of its bit pattern;
      storing an [int] into a [char] keeps the value modulo 256, and a
      [char] converted to [int] is its value as a signed [char]
      ([char_value]);
    - a heap block is a list of cells; a cell is [None] while it is
      indeterminate (fresh from [malloc]/[realloc]); allocation itself
      never fails;
    - every function that can leave the defined behaviour of C (a read or
      write outside its block, a read of an indeterminate cell) returns
      [None] there;
    - terminal output is not part of the editor state, no operation
      reads it back: [editorRefreshScreen] is the state a refresh leaves,
      [editorRefreshScreen_frame] adds the bytes it writes.

    Layout: the model of the source, function by function; the
    vocabulary of the specification; then the lemmas and theorems. *)

From Stdlib Require Import ZArith List Lia Bool Ascii.
From Stdlib Require String.
From stdpp Require Import base tactics option list numbers.
Import ListNotations.
Import String.StringSyntax.
Delimit Scope string_scope with string.
Local Open Scope Z_scope.

(** ** Heap blocks *)

Module Mem.

Abbreviation cell := (option Z) (only parsing).
Abbreviation buf := (list (option Z)) (only parsing).

Definition len {A : Type} (l : list A) : Z := Z.of_nat (length l).

(** [b[i]] as an rvalue. *)
Definition load (b : buf) (i : Z) : option Z :=
  if i <? 0 then None else mjoin (b !! Z.to_nat i).

(** [b[i] = v]. *)
Definition store (b : buf) (i : Z) (v : Z) : option buf :=
  if (0 <=? i) && (i <? len b) then Some (<[Z.to_nat i := Some v]> b)
  else None.

(** [malloc(n)]: [n] indeterminate cells. *)
Definition malloc (n : Z) : buf := replicate (Z.to_nat n) None.

(** [realloc(b, n)]: the first [n] cells are kept, new ones are
    indeterminate. *)
Definition realloc (b : buf) (n : Z) : buf :=
  take (Z.to_nat n) b ++ replicate (Z.to_nat n - length b)%nat None.

(** [memmove(&b[dst], &b[src], n)] inside one block: the [n] cells from
    [src] are copied as if through a temporary. *)
Definition memmove (b : buf) (dst src n : Z) : option buf :=
  if (0 <=? n) && (0 <=? src) && (src + n <=? len b)
     && (0 <=? dst) && (dst + n <=? len b)
  then Some (take (Z.to_nat dst) b
             ++ take (Z.to_nat n) (drop (Z.to_nat src) b)
             ++ drop (Z.to_nat (dst + n)) b)
  else None.

(** [memcpy(b, s, n)] from a readable string [s] into the start of [b]. *)
Definition memcpy (b : buf) (s : list Z) (n : Z) : option buf :=
  if (0 <=? n) && (n <=? len s) && (n <=? len b)
  then Some ((Some <$> take (Z.to_nat n) s) ++ drop (Z.to_nat n) b)
  else None.

(** The value an [int] has once stored in a [char]. *)
Definition to_char (c : Z) : Z := c mod 256.

End Mem.
Import Mem.

(** ** Loops *)

(** [for (j = lo; j < hi; j++) body] where [body] leaves [j] and [hi]
    alone: [Z.to_nat (hi - lo)] rounds, none when [hi <= lo]. *)
Fixpoint for_loop {S : Type} (n : nat) (j : Z)
    (body : Z → S → option S) (s : S) : option S :=
  match n with
  | O => Some s
  | Datatypes.S n' => s' ← body j s; for_loop n' (j + 1) body s'
  end.

Definition for_range {S : Type} (lo hi : Z)
    (body : Z → S → option S) (s : S) : option S :=
  for_loop (Z.to_nat (hi - lo)) lo body s.

(** ** Defines *)

Definition EDIT_TAB_STOP : Z := 8.
Definition TAB : Z := 9.      (* '\t' *)
Definition SPACE : Z := 32.   (* ' ' *)
Definition NUL : Z := 0.      (* '\0' *)
Definition ESC : Z := 27.     (* '\x1b' *)

Definition CTRL_KEY (k : Z) : Z := Z.land k 31.

(** [enum editorKey] *)
Definition ARROW_LEFT : Z := 1000.
Definition ARROW_RIGHT : Z := 1001.
Definition ARROW_UP : Z := 1002.
Definition ARROW_DOWN : Z := 1003.
Definition DEL_KEY : Z := 1004.
Definition HOME_KEY : Z := 1005.
Definition END_KEY : Z := 1006.
Definition PAGE_UP : Z := 1007.
Definition PAGE_DOWN : Z := 1008.

(** ** Data *)

(** [typedef struct erow]. [chars] is the block of [size + 1] cells (the
    text and its terminating NUL); [render] is [[]] for the null pointer. *)
Record erow : Type := mk_erow {
  size : Z;
  rsize : Z;
  chars : buf;
  render : buf
}.

(** [struct editorConfig], without the file name, the status message and
    the saved terminal attributes, which no operation below reads. *)
Record editorConfig : Type := mk_editorConfig {
  cx : Z;
  cy : Z;
  rx : Z;
  rowoff : Z;
  coloff : Z;
  screenrows : Z;
  screencols : Z;
  numrows : Z;
  row : list erow
}.

Definition set_cx (E : editorConfig) (v : Z) : editorConfig :=
  mk_editorConfig v (cy E) (rx E) (rowoff E) (coloff E)
                  (screenrows E) (screencols E) (numrows E) (row E).
Definition set_cy (E : editorConfig) (v : Z) : editorConfig :=
  mk_editorConfig (cx E) v (rx E) (rowoff E) (coloff E)
                  (screenrows E) (screencols E) (numrows E) (row E).
Definition set_rx (E : editorConfig) (v : Z) : editorConfig :=
  mk_editorConfig (cx E) (cy E) v (rowoff E) (coloff E)
                  (screenrows E) (screencols E) (numrows E) (row E).
Definition set_rowoff (E : editorConfig) (v : Z) : editorConfig :=
  mk_editorConfig (cx E) (cy E) (rx E) v (coloff E)
                  (screenrows E) (screencols E) (numrows E) (row E).
Definition set_coloff (E : editorConfig) (v : Z) : editorConfig :=
  mk_editorConfig (cx E) (cy E) (rx E) (rowoff E) v
                  (screenrows E) (screencols E) (numrows E) (row E).
Definition set_numrows (E : editorConfig) (v : Z) : editorConfig :=
  mk_editorConfig (cx E) (cy E) (rx E) (rowoff E) (coloff E)
                  (screenrows E) (screencols E) v (row E).
Definition set_row (E : editorConfig) (v : list erow) : editorConfig :=
  mk_editorConfig (cx E) (cy E) (rx E) (rowoff E) (coloff E)
                  (screenrows E) (screencols E) (numrows E) v.

(** [E.row[i]] as an rvalue. *)
Definition row_at (E : editorConfig) (i : Z) : option erow :=
  if i <? 0 then None else row E !! Z.to_nat i.

(** ** Row operations *)

(** [editorRowCxToRx] *)
Definition editorRowCxToRx (r : erow) (cx : Z) : option Z :=
  for_range 0 cx
    (λ j rx,
       c ← load (chars r) j;
       let rx :=
         if c =? TAB
         then rx + ((EDIT_TAB_STOP - 1) - Z.rem rx EDIT_TAB_STOP)
         else rx in
       Some (rx + 1))
    0.

(** The inner loop of [editorUpdateRow],
    [while (idx % EDIT_TAB_STOP != 0) render[idx++] = ' ';]
    with a bound on the number of tests of the condition. *)
Fixpoint pad_to_stop (fuel : nat) (render : buf) (idx : Z)
    : option (buf * Z) :=
  match fuel with
  | O => None
  | Datatypes.S fuel' =>
      if negb (Z.rem idx EDIT_TAB_STOP =? 0)
      then render ← store render idx SPACE;
           pad_to_stop fuel' render (idx + 1)
      else Some (render, idx)
  end.

(** [editorUpdateRow] *)
Definition editorUpdateRow (r : erow) : option erow :=
  tabs ← for_range 0 (size r)
           (λ j tabs,
              c ← load (chars r) j;
              Some (if c =? TAB then tabs + 1 else tabs))
           0;
  let render := malloc (size r + tabs * (EDIT_TAB_STOP - 1) + 1) in
  '(render, idx) ← for_range 0 (size r)
           (λ j '(render, idx),
              c ← load (chars r) j;
              if c =? TAB
              then render ← store render idx SPACE;
                   pad_to_stop (Z.to_nat EDIT_TAB_STOP) render (idx + 1)
              else render ← store render idx c;
                   Some (render, idx + 1))
           (render, 0);
  render ← store render idx NUL;
  Some (mk_erow (size r) idx (chars r) render).

(** [editorAppendRow(s, len)] *)
Definition editorAppendRow (s : list Z) (len : Z) (E : editorConfig)
    : option editorConfig :=
  let rows := resize (Z.to_nat (numrows E + 1)) (mk_erow 0 0 [] []) (row E) in
  let at_ := numrows E in
  let chars := malloc (len + 1) in
  chars ← memcpy chars s len;
  chars ← store chars len NUL;
  r ← editorUpdateRow (mk_erow len 0 chars []);
  if (0 <=? at_) && (at_ <? Mem.len rows)
  then Some (set_numrows (set_row E (<[Z.to_nat at_ := r]> rows))
                         (numrows E + 1))
  else None.

(** [editorRowInsertChar] *)
Definition editorRowInsertChar (r : erow) (at_ : Z) (c : Z) : option erow :=
  let at_ := if (at_ <? 0) || (at_ >? size r) then size r else at_ in
  let chars := realloc (chars r) (size r + 2) in
  chars ← memmove chars (at_ + 1) at_ (size r - at_ + 1);
  let size := size r + 1 in
  chars ← store chars at_ (to_char c);
  editorUpdateRow (mk_erow size (rsize r) chars (render r)).

(** ** Editor operations *)

(** [editorInsertChar] *)
Definition editorInsertChar (c : Z) (E : editorConfig)
    : option editorConfig :=
  E ← (if cy E =? numrows E then editorAppendRow [NUL] 0 E else Some E);
  r ← row_at E (cy E);
  r ← editorRowInsertChar r (cx E) c;
  Some (set_cx (set_row E (<[Z.to_nat (cy E) := r]> (row E))) (cx E + 1)).

(** ** Terminal input *)

(** One call of [read(STDIN_FILENO, &c, 1)] in raw mode with [VMIN = 0],
    [VTIME = 1]: a byte, a timeout (return value 0), or an error (return
    value -1) with [errno] either [EAGAIN] or something else. The input of
    a session is the list of the results of its [read] calls; once the list
    is used up every further [read] times out. *)
Inductive read_result : Type :=
  | Got (c : Z)
  | Timeout
  | Eagain
  | Failed.

Definition input : Type := list read_result.

Definition read (inp : input) : read_result * input :=
  match inp with
  | [] => (Timeout, [])
  | r :: rest => (r, rest)
  end.

(** What a call of [editorReadKey] comes to: a key and the input left, the
    fatal exit through [die], or waiting for a first byte for ever. *)
Inductive key_result : Type :=
  | Key (k : Z) (rest : input)
  | Died
  | Blocked.

Definition ch (a : ascii) : Z := Z.of_N (N_of_ascii a).
Arguments ch a%_char.

(** The value of a plain [char] that holds the byte [b], which is what
    [return c] converts to [int]. Plain [char] is taken as signed, as in
    the x86 ABIs: the bytes from 128 on are the negative values. (Where
    [char] is unsigned the value is the byte itself; the two agree on
    every byte below 128.) *)
Definition char_value (b : Z) : Z :=
  if (128 <=? b) && (b <? 256) then b - 256 else b.

(** [while ((nread = read(...)) != 1) if (nread == -1 && errno != EAGAIN) die("read");]
    The key it ends with is the value of [char c]. *)
Fixpoint wait_byte (inp : input) : key_result :=
  match inp with
  | [] => Blocked
  | Got c :: rest => Key (char_value c) rest
  | Timeout :: rest => wait_byte rest
  | Eagain :: rest => wait_byte rest
  | Failed :: _ => Died
  end.

(** [editorReadKey] *)
Definition editorReadKey (inp : input) : key_result :=
  match wait_byte inp with
  | Key c inp =>
      if c =? ESC then
        match read inp with
        | (Got seq0, inp) =>
            match read inp with
            | (Got seq1, inp) =>
                if seq0 =? ch "[" then
                  if (seq1 >=? ch "0") && (seq1 <=? ch "9") then
                    match read inp with
                    | (Got seq2, inp) =>
                        if seq2 =? ch "~" then
                          if seq1 =? ch "1" then Key HOME_KEY inp
                          else if seq1 =? ch "3" then Key DEL_KEY inp
                          else if seq1 =? ch "4" then Key END_KEY inp
                          else if seq1 =? ch "5" then Key PAGE_UP inp
                          else if seq1 =? ch "6" then Key PAGE_DOWN inp
                          else if seq1 =? ch "7" then Key HOME_KEY inp
                          else if seq1 =? ch "8" then Key END_KEY inp
                          else Key ESC inp
                        else Key ESC inp
                    | (_, inp) => Key ESC inp
                    end
                  else
                    if seq1 =? ch "A" then Key ARROW_UP inp
                    else if seq1 =? ch "B" then Key ARROW_DOWN inp
                    else if seq1 =? ch "C" then Key ARROW_RIGHT inp
                    else if seq1 =? ch "D" then Key ARROW_LEFT inp
                    else if seq1 =? ch "H" then Key HOME_KEY inp
                    else if seq1 =? ch "F" then Key END_KEY inp
                    else Key ESC inp
                else if seq0 =? ch "O" then
                  if seq1 =? ch "H" then Key HOME_KEY inp
                  else if seq1 =? ch "F" then Key END_KEY inp
                  else Key ESC inp
                else Key ESC inp
            | (_, inp) => Key ESC inp
            end
        | (_, inp) => Key ESC inp
        end
      else Key c inp
  | other => other
  end.

(** ** Output *)

(** [editorScroll] *)
Definition editorScroll (E : editorConfig) : option editorConfig :=
  let E := set_rx E 0 in
  E ← (if cy E <? numrows E
       then r ← row_at E (cy E);
            rx ← editorRowCxToRx r (cx E);
            Some (set_rx E rx)
       else Some E);
  let E := if cy E <? rowoff E then set_rowoff E (cy E) else E in
  let E := if cy E >=? rowoff E + screenrows E
           then set_rowoff E (cy E - screenrows E + 1) else E in
  let E := if rx E <? coloff E then set_coloff E (rx E) else E in
  let E := if rx E >=? coloff E + screencols E
           then set_coloff E (rx E - screencols E + 1) else E in
  Some E.

(** [editorRefreshScreen], the state it leaves: the drawing functions
    between [editorScroll] and the [write] only read the state, so the
    state after a refresh is the one [editorScroll] leaves. What is drawn,
    and whether drawing is defined, is [editorRefreshScreen_frame] below. *)
Definition editorRefreshScreen (E : editorConfig) : option editorConfig :=
  editorScroll E.

(** ** Input *)

(** [editorMoveCursor]. The local [row] is the null pointer or
    [&E.row[E.cy]]; it is followed where the source follows it. *)
Definition editorMoveCursor (key : Z) (E : editorConfig)
    : option editorConfig :=
  let rowp := if cy E >=? numrows E then None else Some (cy E) in
  E ← (if key =? ARROW_LEFT then
         if negb (cx E =? 0) then Some (set_cx E (cx E - 1))
         else if cy E >? 0 then
           let E := set_cy E (cy E - 1) in
           r ← row_at E (cy E);
           Some (set_cx E (size r))
         else Some E
       else if key =? ARROW_RIGHT then
         match rowp with
         | None => Some E
         | Some i =>
             r ← row_at E i;
             if cx E <? size r then Some (set_cx E (cx E + 1))
             else if cx E =? size r
                  then Some (set_cx (set_cy E (cy E + 1)) 0)
                  else Some E
         end
       else if key =? ARROW_UP then
         if negb (cy E =? 0) then Some (set_cy E (cy E - 1)) else Some E
       else if key =? ARROW_DOWN then
         if cx E <? numrows E then Some (set_cy E (cy E + 1)) else Some E
       else Some E);
  rowlen ← (if cy E >=? numrows E then Some 0
            else r ← row_at E (cy E); Some (size r));
  Some (if cx E >? rowlen then set_cx E rowlen else E).

(** What handling one key comes to: the session goes on in a new state,
    the process exits with a status, or the behaviour is undefined. *)
Inductive outcome : Type :=
  | Running (E : editorConfig)
  | Exited (status : Z)
  | Undefined.

Definition of_option (o : option editorConfig) : outcome :=
  match o with
  | Some E => Running E
  | None => Undefined
  end.

(** [while (times--) editorMoveCursor(key);] for [times >= 0] *)
Fixpoint move_times (times : nat) (key : Z) (E : editorConfig)
    : option editorConfig :=
  match times with
  | O => Some E
  | Datatypes.S times' => E ← editorMoveCursor key E; move_times times' key E
  end.

(** The [switch] of [editorProcessKeypress] on the key [c] just read. A
    negative [screenrows] would make [while (times--)] count down through
    all negative [int]s: no defined result. *)
Definition editorProcessKey (c : Z) (E : editorConfig) : outcome :=
  if c =? CTRL_KEY (ch "q") then Exited 0
  else if c =? HOME_KEY then Running (set_cx E 0)
  else if c =? END_KEY then
    if cy E <? numrows E
    then of_option (r ← row_at E (cy E); Some (set_cx E (size r)))
    else Running E
  else if (c =? PAGE_DOWN) || (c =? PAGE_UP) then
    let E :=
      if c =? PAGE_UP then set_cy E (rowoff E)
      else if c =? PAGE_DOWN then
        let E := set_cy E (rowoff E + screenrows E - 1) in
        if cy E >? numrows E then set_cy E (numrows E) else E
      else E in
    let times := screenrows E in
    if times <? 0 then Undefined
    else of_option
           (move_times (Z.to_nat times)
                       (if c =? PAGE_UP then ARROW_UP else ARROW_DOWN) E)
  else if (c =? ARROW_UP) || (c =? ARROW_DOWN)
          || (c =? ARROW_LEFT) || (c =? ARROW_RIGHT) then
    of_option (editorMoveCursor c E)
  else of_option (editorInsertChar c E).

(** [editorProcessKeypress]: read a key, then dispatch on it. *)
Definition editorProcessKeypress (inp : input) (E : editorConfig)
    : option (outcome * input) :=
  match editorReadKey inp with
  | Key c rest => Some (editorProcessKey c E, rest)
  | Died => Some (Exited 1, [])
  | Blocked => None
  end.

(** ** Init *)

(** [initEditor], given the window size [getWindowSize] reports. *)
Definition initEditor (ws_row ws_col : Z) : editorConfig :=
  mk_editorConfig 0 0 0 0 0 (ws_row - 2) ws_col 0 [].

(** One round of the loop of [main] for an already decoded key. *)
Definition session_step (c : Z) (E : editorConfig) : outcome :=
  match editorRefreshScreen E with
  | Some E => editorProcessKey c E
  | None => Undefined
  end.

(** The loop of [main] over a list of decoded keys. *)
Fixpoint session (keys : list Z) (E : editorConfig) : outcome :=
  match keys with
  | [] => Running E
  | c :: keys' =>
      match session_step c E with
      | Running E => session keys' E
      | other => other
      end
  end.

(** [rounds] rounds of the loop of [main] on the raw input: refresh,
    read a key, dispatch. [None] when a round waits for a byte that
    never comes. *)
Fixpoint main_loop (rounds : nat) (inp : input) (E : editorConfig)
    : option (outcome * input) :=
  match rounds with
  | O => Some (Running E, inp)
  | Datatypes.S rounds' =>
      match editorRefreshScreen E with
      | None => Some (Undefined, inp)
      | Some E =>
          match editorProcessKeypress inp E with
          | Some (Running E, rest) => main_loop rounds' rest E
          | other => other
          end
      end
  end.

(** ** File i/o *)

Definition NEWLINE : Z := 10.          (* '\n' *)
Definition CARRIAGE_RETURN : Z := 13.  (* '\r' *)

(** The inner loop of [editorOpen],
    [while (linelen > 0 && (line[linelen - 1] == '\n' ||
                            line[linelen - 1] == '\r')) linelen--;]
    with a bound on the number of tests of the condition. [line] is the
    text [getline] stored. *)
Fixpoint strip_eol (fuel : nat) (line : list Z) (linelen : Z) : option Z :=
  match fuel with
  | O => None
  | Datatypes.S fuel' =>
      if linelen >? 0 then
        c ← (if linelen - 1 <? 0 then None
             else line !! Z.to_nat (linelen - 1));
        if (c =? NEWLINE) || (c =? CARRIAGE_RETURN)
        then strip_eol fuel' line (linelen - 1)
        else Some linelen
      else Some linelen
  end.

(** The loop of [editorOpen] over the lines [getline] returns, one list
    element for each call that did not return -1. *)
Fixpoint open_lines (lines : list (list Z)) (E : editorConfig)
    : option editorConfig :=
  match lines with
  | [] => Some E
  | line :: lines' =>
      let linelen := len line in
      linelen ← strip_eol (Datatypes.S (length line)) line linelen;
      E ← editorAppendRow line linelen E;
      open_lines lines' E
  end.

(** [editorOpen] from [fopen] on. [file] is [None] when [fopen] fails and
    the lines of the file otherwise. The copy of the file name is kept
    outside [editorConfig], see [editorOpen_filename]. *)
Definition editorOpen (file : option (list (list Z))) (E : editorConfig)
    : outcome :=
  match file with
  | None => Exited 1
  | Some lines => of_option (open_lines lines E)
  end.

(** ** Append buffer *)

(** [struct abuf] *)
Module Abuf.
Record abuf : Type := mk { b : list (option Z); len : Z }.
End Abuf.
Abbreviation abuf := Abuf.abuf.

Definition ABUF_INIT : abuf := Abuf.mk [] 0.

(** [memcpy(&b[off], s, n)] from a readable string [s]. *)
Definition memcpy_at (b : buf) (off : Z) (s : list Z) (n : Z) : option buf :=
  if (0 <=? n) && (n <=? len s) && (0 <=? off) && (off + n <=? len b)
  then Some (take (Z.to_nat off) b
             ++ (Some <$> take (Z.to_nat n) s)
             ++ drop (Z.to_nat (off + n)) b)
  else None.

(** [abAppend(ab, s, len)]. [alloc_ok] tells whether [realloc] returned a
    block; [s] is the string readable through the pointer. *)
Definition abAppend (alloc_ok : bool) (ab : abuf) (s : list Z) (n : Z)
    : option abuf :=
  if alloc_ok then
    let new := realloc (Abuf.b ab) (Abuf.len ab + n) in
    new ← memcpy_at new (Abuf.len ab) s n;
    Some (Abuf.mk new (Abuf.len ab + n))
  else Some ab.

(** The string readable through a [char *] that points at offset [off]
    of the block [b]: the cells from there up to the first indeterminate
    one. Only the cells read count; a pointer past the block from which
    nothing is read is not an error here. *)
Fixpoint init_prefix (cells : list (option Z)) : list Z :=
  match cells with
  | Some c :: rest => c :: init_prefix rest
  | _ => []
  end.

Definition bytes_from (b : buf) (off : Z) : list Z :=
  if off <? 0 then [] else init_prefix (drop (Z.to_nat off) b).

(** ** Formatted output *)

Definition str (s : String.string) : list Z :=
  ch <$> String.list_ascii_of_string s.
Arguments str s%_string.

Definition EDIT_VERSION : list Z := str "0.0.1".

(** The digits [printf("%d")] writes for [n >= 0], most significant
    first; [fuel] bounds their number. *)
Fixpoint digits (fuel : nat) (n : Z) : list Z :=
  match fuel with
  | O => []
  | Datatypes.S fuel' =>
      (if n <? 10 then [] else digits fuel' (n / 10)) ++ [ch "0" + n mod 10]
  end.

(** What [printf("%d", n)] writes. *)
Definition fmt_d (n : Z) : list Z :=
  let fuel := Datatypes.S (Z.to_nat (Z.log2 (Z.abs n))) in
  if n <? 0 then ch "-" :: digits fuel (- n) else digits fuel n.

(** The number a string of decimal digits stands for. *)
Definition digits_value (ds : list Z) : Z :=
  fold_left (λ acc d, 10 * acc + (d - ch "0")) ds 0.

(** [snprintf(buf, size, ...)] for [size >= 1], where the format expands
    to [text]: the bytes written to [buf], terminator included, and the
    return value. *)
Definition snprintf (size : Z) (text : list Z) : list Z * Z :=
  (take (Z.to_nat (size - 1)) text ++ [NUL], len text).

(** [strlen(s)] on the array contents [s]: the offset of the first NUL,
    and no result when there is none to stop at. *)
Fixpoint strlen (s : list Z) : option Z :=
  match s with
  | [] => None
  | c :: s' => if c =? NUL then Some 0 else Z.succ <$> strlen s'
  end.

(** The fields of [struct editorConfig] that only the status bar and the
    message bar read: the file name ([None] for the null pointer, else
    the bytes before its terminator), the bytes written to [statusmsg]
    and the time they were written. *)
Record editorStatus : Type := mk_editorStatus {
  filename : option (list Z);
  statusmsg : list Z;
  statusmsg_time : Z
}.

(** What [initEditor] stores in these fields. *)
Definition initStatus : editorStatus := mk_editorStatus None [NUL] 0.

(** The first two statements of [editorOpen]. *)
Definition editorOpen_filename (name : list Z) (X : editorStatus)
    : editorStatus :=
  mk_editorStatus (Some name) (statusmsg X) (statusmsg_time X).

(** [editorSetStatusMessage] at time [now], where the format expands to
    [text]. *)
Definition editorSetStatusMessage (text : list Z) (now : Z)
    (X : editorStatus) : editorStatus :=
  mk_editorStatus (filename X) (fst (snprintf 80 text)) now.

(** ** Drawing *)

(** [while (padding--) abAppend(ab, " ", 1);] for [padding >= 0] *)
Fixpoint pad_spaces (padding : nat) (ab : abuf) : option abuf :=
  match padding with
  | O => Some ab
  | Datatypes.S padding' => ab ← abAppend true ab [SPACE] 1; pad_spaces padding' ab
  end.

(** [editorDrawRows]. As everywhere, allocation succeeds. A negative
    [padding] would make [while (padding--)] count down through all
    negative [int]s: no defined result. *)
Definition editorDrawRows (E : editorConfig) (ab : abuf) : option abuf :=
  for_range 0 (screenrows E)
    (λ y ab,
       let filerow := y + rowoff E in
       ab ← (if filerow >=? numrows E then
               if (numrows E =? 0) && (y =? Z.quot (screenrows E) 3) then
                 let '(welcome, welcomelen) :=
                   snprintf 80 (str "termEdit editor -- version "
                                ++ EDIT_VERSION) in
                 let welcomelen :=
                   if welcomelen >? screencols E then screencols E
                   else welcomelen in
                 let padding := Z.quot (screencols E - welcomelen) 2 in
                 '(ab, padding) ←
                   (if negb (padding =? 0)
                    then ab ← abAppend true ab (str "~") 1;
                         Some (ab, padding - 1)
                    else Some (ab, padding));
                 ab ← (if padding <? 0 then None
                       else pad_spaces (Z.to_nat padding) ab);
                 abAppend true ab welcome welcomelen
               else abAppend true ab (str "~") 1
             else
               r ← row_at E filerow;
               let len := rsize r - coloff E in
               let len := if len <? 0 then 0 else len in
               let len := if len >? screencols E then screencols E else len in
               abAppend true ab (bytes_from (render r) (coloff E)) len);
       ab ← abAppend true ab (ESC :: str "[K") 3;
       abAppend true ab [CARRIAGE_RETURN; NEWLINE] 2)
    ab.

(** The [while] loop of [editorDrawStatusBar], with a bound on the number
    of tests of its condition. *)
Fixpoint status_fill (fuel : nat) (E : editorConfig) (rstatus : list Z)
    (rlen : Z) (ab : abuf) (len : Z) : option abuf :=
  match fuel with
  | O => None
  | Datatypes.S fuel' =>
      if len <? screencols E then
        if screencols E - len =? rlen
        then abAppend true ab rstatus rlen
        else ab ← abAppend true ab [SPACE] 1;
             status_fill fuel' E rstatus rlen ab (len + 1)
      else Some ab
  end.

(** [editorDrawStatusBar] *)
Definition editorDrawStatusBar (X : editorStatus) (E : editorConfig)
    (ab : abuf) : option abuf :=
  ab ← abAppend true ab (ESC :: str "[7m") 4;
  let '(status, len) :=
    snprintf 80
      (take 20 (match filename X with
                | Some name => name
                | None => str "[No Name]"
                end)
       ++ str " - " ++ fmt_d (numrows E) ++ str " lines") in
  let '(rstatus, rlen) :=
    snprintf 80 (fmt_d (cy E + 1) ++ str "/" ++ fmt_d (numrows E)) in
  let len := if len >? screencols E then screencols E else len in
  ab ← abAppend true ab status len;
  ab ← status_fill (Datatypes.S (Z.to_nat (screencols E - len))) E
         rstatus rlen ab len;
  ab ← abAppend true ab (ESC :: str "[m") 3;
  abAppend true ab [CARRIAGE_RETURN; NEWLINE] 2.

(** [editorDrawMessageBar] at time [now] *)
Definition editorDrawMessageBar (X : editorStatus) (now : Z)
    (E : editorConfig) (ab : abuf) : option abuf :=
  ab ← abAppend true ab (ESC :: str "[K") 3;
  msglen ← strlen (statusmsg X);
  let msglen := if msglen >? screencols E then screencols E else msglen in
  if negb (msglen =? 0) && (now - statusmsg_time X <? 5)
  then abAppend true ab (statusmsg X) msglen
  else Some ab.

(** [editorRefreshScreen] with what it writes: the state [editorScroll]
    leaves and the [ab.len] bytes handed to [write]. *)
Definition editorRefreshScreen_frame (X : editorStatus) (now : Z)
    (E : editorConfig) : option (editorConfig * list Z) :=
  E ← editorScroll E;
  let ab := ABUF_INIT in
  ab ← abAppend true ab (ESC :: str "[?25l") 6;
  ab ← abAppend true ab (ESC :: str "[H") 3;
  ab ← editorDrawRows E ab;
  ab ← editorDrawStatusBar X E ab;
  ab ← editorDrawMessageBar X now E ab;
  let '(buf, _) :=
    snprintf 32 (ESC :: str "[" ++ fmt_d (cy E - rowoff E + 1) ++ str ";"
                 ++ fmt_d (rx E - coloff E + 1) ++ str "H") in
  buflen ← strlen buf;
  ab ← abAppend true ab buf buflen;
  ab ← abAppend true ab (ESC :: str "[?25h") 6;
  if (0 <=? Abuf.len ab) && (Abuf.len ab <=? len (bytes_from (Abuf.b ab) 0))
  then Some (E, take (Z.to_nat (Abuf.len ab)) (bytes_from (Abuf.b ab) 0))
  else None.

(** ** Window size *)

(** [isspace] and [isdigit] in the C locale *)
Definition isspace (c : Z) : bool := (c =? SPACE) || ((9 <=? c) && (c <=? 13)).
Definition isdigit (c : Z) : bool := (ch "0" <=? c) && (c <=? ch "9").

Fixpoint skip_space (s : list Z) : list Z :=
  match s with
  | c :: s' => if isspace c then skip_space s' else s
  | [] => []
  end.

(** The digits a string starts with, and the rest of it. *)
Fixpoint span_digits (s : list Z) : list Z * list Z :=
  match s with
  | c :: s' =>
      if isdigit c
      then let '(ds, rest) := span_digits s' in (c :: ds, rest)
      else ([], s)
  | [] => ([], [])
  end.

(** One [%d] of [sscanf] on the string [s]: white space is skipped, then
    an optional sign and decimal digits are taken. [Some None] is a
    failed match, [Some (Some (n, rest))] the number stored and the
    string left; a number that does not fit an [int] has no defined
    result. *)
Definition scan_d (s : list Z) : option (option (Z * list Z)) :=
  let s := skip_space s in
  let '(neg, s) :=
    match s with
    | c :: s' =>
        if c =? ch "-" then (true, s')
        else if c =? ch "+" then (false, s')
        else (false, s)
    | [] => (false, [])
    end in
  let '(ds, rest) := span_digits s in
  match ds with
  | [] => Some None
  | _ :: _ =>
      let n := if neg then - digits_value ds else digits_value ds in
      if (- 2 ^ 31 <=? n) && (n <? 2 ^ 31) then Some (Some (n, rest))
      else None
  end.

(** [sscanf(s, "%d;%d", rows, cols)]: [Some (Some (rows, cols))] when it
    returns 2, [Some None] when it returns something else. *)
Definition sscanf_d_d (s : list Z) : option (option (Z * Z)) :=
  r ← scan_d s;
  match r with
  | Some (rows, c :: s') =>
      if c =? ch ";" then
        r ← scan_d s';
        match r with
        | Some (cols, _) => Some (Some (rows, cols))
        | None => Some None
        end
      else Some None
  | _ => Some None
  end.

(** The string in an array: the bytes before the first NUL. *)
Fixpoint c_str (s : list Z) : list Z :=
  match s with
  | c :: s' => if c =? NUL then [] else c :: c_str s'
  | [] => []
  end.

(** The loop of [getCursorPosition] with room for [room] more bytes: the
    bytes stored before an [R], a [read] without a byte or the end of
    the room stops it, and the input left. *)
Fixpoint read_report (room : nat) (inp : input) : list Z * input :=
  match room with
  | O => ([], inp)
  | Datatypes.S room' =>
      match read inp with
      | (Got c, inp) =>
          if c =? ch "R" then ([], inp)
          else let '(buf, inp) := read_report room' inp in (c :: buf, inp)
      | (_, inp) => ([], inp)
      end
  end.

(** [getCursorPosition]. [write_ok] tells whether [write] wrote the four
    bytes of the query. The result is [Some (Some (rows, cols))] for the
    return value 0 and [Some None] for -1. *)
Definition getCursorPosition (write_ok : bool) (inp : input)
    : option (option (Z * Z)) * input :=
  if write_ok then
    let '(buf, inp) := read_report 31 inp in
    (match buf ++ [NUL] with
     | b0 :: b1 :: text =>
         if negb (b0 =? ESC) || negb (b1 =? ch "[") then Some None
         else sscanf_d_d (c_str text)
     | _ => Some None
     end, inp)
  else (Some None, inp).

(** [getWindowSize]. [ioctl] is [None] when the call returns -1 and the
    [ws_row] and [ws_col] it stores otherwise; [write_ok] tells whether
    [write] wrote the twelve bytes that move the cursor, [query_ok] is
    passed on to [getCursorPosition]. *)
Definition getWindowSize (ioctl : option (Z * Z)) (write_ok query_ok : bool)
    (inp : input) : option (option (Z * Z)) * input :=
  let fallback :=
    if write_ok then getCursorPosition query_ok inp else (Some None, inp) in
  match ioctl with
  | Some (ws_row, ws_col) =>
      if ws_col =? 0 then fallback else (Some (Some (ws_row, ws_col)), inp)
  | None => fallback
  end.

(** [initEditor] from the answer of [getWindowSize] on. *)
Definition initEditor_sized (size : option (Z * Z)) : outcome :=
  match size with
  | Some (rows, cols) => Running (initEditor rows cols)
  | None => Exited 1
  end.

(** * Specification vocabulary *)

(** ** Rows as texts *)

(** A loop body that only reads the scanned block through the current
    cell is a fold over the text stored there. *)
Fixpoint foldM {S : Type} (f : Z → S → option S) (bs : list Z) (s : S)
    : option S :=
  match bs with
  | [] => Some s
  | b :: bs' => s' ← f b s; foldM f bs' s'
  end.

(** [holds r bs]: the row [r] stores the text [bs], in a block of exactly
    [size r + 1] cells that ends with the terminating NUL. *)
Definition holds (r : erow) (bs : list Z) : Prop :=
  size r = len bs ∧ chars r = (Some <$> bs) ++ [Some NUL].

(** The rendered column after a byte [c] that starts at column [rx]. *)
Definition next_col (c rx : Z) : Z :=
  (if c =? TAB
   then rx + ((EDIT_TAB_STOP - 1) - Z.rem rx EDIT_TAB_STOP)
   else rx) + 1.

(** The rendered column after the bytes [bs], starting at column [rx]. *)
Definition col_after (bs : list Z) (rx : Z) : Z :=
  fold_left (λ rx c, next_col c rx) bs rx.

(** The rendered form of a text that follows the output [out]. *)
Definition expand_byte (out : list Z) (c : Z) : list Z :=
  if c =? TAB
  then out ++ replicate (Z.to_nat (EDIT_TAB_STOP - len out mod EDIT_TAB_STOP))
                        SPACE
  else out ++ [c].

Definition expand_from (out bs : list Z) : list Z :=
  fold_left expand_byte bs out.

Definition expand (bs : list Z) : list Z := expand_from [] bs.

Fixpoint count_tabs_from (bs : list Z) (tabs : Z) : Z :=
  match bs with
  | [] => tabs
  | c :: bs' => count_tabs_from bs' (if c =? TAB then tabs + 1 else tabs)
  end.

(** The body of the second loop of [editorUpdateRow] on the byte [c]. *)
Definition render_step (c : Z) (st : list (option Z) * Z)
    : option (list (option Z) * Z) :=
  let '(render, idx) := st in
  if c =? TAB
  then render ← store render idx SPACE;
       pad_to_stop (Z.to_nat EDIT_TAB_STOP) render (idx + 1)
  else render ← store render idx c;
       Some (render, idx + 1).

(** [rendered r bs]: [r] holds [bs], and its render block starts with the
    expansion of [bs] and a NUL, [rsize] being the length of the
    expansion. This is the state [editorUpdateRow] leaves a row in. *)
Definition rendered (r : erow) (bs : list Z) : Prop :=
  holds r bs
  ∧ rsize r = len (expand bs)
  ∧ ∃ free, render r = (Some <$> expand bs) ++ Some NUL :: free.

(** The offset [editorRowInsertChar] really inserts at. *)
Definition insert_offset (r : erow) (at_ : Z) : Z :=
  if (at_ <? 0) || (at_ >? size r) then size r else at_.

(** [editorRowInsertChar] after its first statement. *)
Definition insert_clamped (r : erow) (k c : Z) : option erow :=
  chars ← memmove (realloc (chars r) (size r + 2)) (k + 1) k (size r - k + 1);
  chars ← store chars k (to_char c);
  editorUpdateRow (mk_erow (size r + 1) (rsize r) chars (render r)).

(** What the rest of the editor relies on in a row: the render form has
    no tab in its first [rsize] cells, [rsize] is the rendered column of
    the end of the text, and every offset of the text has its rendered
    column inside [0, rsize]. *)
Definition render_ok (r : erow) : Prop :=
  (∀ i, 0 <= i < rsize r → ∃ b, load (render r) i = Some b ∧ b ≠ TAB)
  ∧ editorRowCxToRx r (size r) = Some (rsize r)
  ∧ (∀ cx, 0 <= cx <= size r →
       ∃ rx, editorRowCxToRx r cx = Some rx ∧ 0 <= rx <= rsize r).

(** ** Sound editor states *)

(** The row array has [numrows] elements, each one rendered. *)
Definition rows_ok (E : editorConfig) : Prop :=
  numrows E = len (row E) ∧ Forall (λ r, ∃ bs, rendered r bs) (row E).

(** The cursor is at an offset of its row, or at offset 0 below the last
    row. No upper bound on [cy] is part of this. *)
Definition cursor_ok (E : editorConfig) : Prop :=
  0 <= cx E ∧ 0 <= cy E
  ∧ (∀ r, row_at E (cy E) = Some r → cx E <= size r)
  ∧ (numrows E <= cy E → cx E = 0).

Definition view_ok (E : editorConfig) : Prop :=
  0 <= rowoff E ∧ 0 <= coloff E ∧ 1 <= screenrows E.

Definition state_ok (E : editorConfig) : Prop :=
  rows_ok E ∧ cursor_ok E ∧ view_ok E.

(** The size of the row at index [i], 0 when there is none. *)
Definition row_size_at (E : editorConfig) (i : Z) : Z :=
  match row_at E i with
  | Some r => size r
  | None => 0
  end.

(** The cursor invariant of the specification: [0 <= cy <= numrows] and
    [0 <= cx <= ] the size of the row at [cy], taken as 0 below the last
    row. *)
Definition cursor_in_document (E : editorConfig) : Prop :=
  0 <= cy E <= numrows E
  ∧ 0 <= cx E <= row_size_at E (cy E).

(** What no cursor move or scroll touches. *)
Definition same_rows (E E' : editorConfig) : Prop :=
  row E' = row E ∧ numrows E' = numrows E.

Definition same_screen (E E' : editorConfig) : Prop :=
  screenrows E' = screenrows E ∧ screencols E' = screencols E.

Definition same_view (E E' : editorConfig) : Prop :=
  rowoff E' = rowoff E ∧ coloff E' = coloff E ∧ same_screen E E'.

(** ** The source functions in parts *)

(** The [switch] of [editorMoveCursor]. *)
Definition move_switch (key : Z) (E : editorConfig) : option editorConfig :=
  let rowp := if cy E >=? numrows E then None else Some (cy E) in
  if key =? ARROW_LEFT then
    if negb (cx E =? 0) then Some (set_cx E (cx E - 1))
    else if cy E >? 0 then
      let E := set_cy E (cy E - 1) in
      r ← row_at E (cy E);
      Some (set_cx E (size r))
    else Some E
  else if key =? ARROW_RIGHT then
    match rowp with
    | None => Some E
    | Some i =>
        r ← row_at E i;
        if cx E <? size r then Some (set_cx E (cx E + 1))
        else if cx E =? size r
             then Some (set_cx (set_cy E (cy E + 1)) 0)
             else Some E
    end
  else if key =? ARROW_UP then
    if negb (cy E =? 0) then Some (set_cy E (cy E - 1)) else Some E
  else if key =? ARROW_DOWN then
    if cx E <? numrows E then Some (set_cy E (cy E + 1)) else Some E
  else Some E.

(** The statements of [editorMoveCursor] after its [switch]. *)
Definition clamp_cx (E : editorConfig) : option editorConfig :=
  rowlen ← (if cy E >=? numrows E then Some 0
            else r ← row_at E (cy E); Some (size r));
  Some (if cx E >? rowlen then set_cx E rowlen else E).

(** The four [if] statements of [editorScroll]. *)
Definition scroll_offsets (E : editorConfig) : editorConfig :=
  let E := if cy E <? rowoff E then set_rowoff E (cy E) else E in
  let E := if cy E >=? rowoff E + screenrows E
           then set_rowoff E (cy E - screenrows E + 1) else E in
  let E := if rx E <? coloff E then set_coloff E (rx E) else E in
  let E := if rx E >=? coloff E + screencols E
           then set_coloff E (rx E - screencols E + 1) else E in
  E.

(** The rendered column [editorScroll] computes first. *)
Definition cursor_rx (E : editorConfig) : option Z :=
  if cy E <? numrows E
  then r ← row_at E (cy E); editorRowCxToRx r (cx E)
  else Some 0.

(** The keys [editorProcessKeypress] has a [case] for. *)
Definition handled_key (c : Z) : bool :=
  (c =? CTRL_KEY (ch "q")) || (c =? HOME_KEY) || (c =? END_KEY)
  || (c =? PAGE_DOWN) || (c =? PAGE_UP)
  || (c =? ARROW_UP) || (c =? ARROW_DOWN)
  || (c =? ARROW_LEFT) || (c =? ARROW_RIGHT).

(** ** Sessions *)

(** The states [main] can be in before its loop: [initEditor], then
    [editorOpen] appending the lines of a file. [editorOpen] passes
    [editorAppendRow] a buffer and a length within it. *)
Inductive loaded (ws_row ws_col : Z) : editorConfig → Prop :=
  | loaded_init : loaded ws_row ws_col (initEditor ws_row ws_col)
  | loaded_line (E E' : editorConfig) (s : list Z) (n : Z) :
      loaded ws_row ws_col E → 0 <= n <= len s →
      editorAppendRow s n E = Some E' →
      loaded ws_row ws_col E'.

(** [decodes inp keys rest]: successive calls of [editorReadKey] on the
    input [inp] return the keys [keys] and leave [rest]. *)
Inductive decodes : input → list Z → input → Prop :=
  | decodes_nil (inp : input) : decodes inp [] inp
  | decodes_cons (inp mid rest : input) (c : Z) (keys : list Z) :
      editorReadKey inp = Key c mid →
      decodes mid keys rest →
      decodes inp (c :: keys) rest.

(** The states at the top of the loop of [main]. *)
Inductive reachable (ws_row ws_col : Z) : editorConfig → Prop :=
  | reach_loaded (E : editorConfig) :
      loaded ws_row ws_col E → reachable ws_row ws_col E
  | reach_key (E E1 E' : editorConfig) (c : Z) :
      reachable ws_row ws_col E →
      editorRefreshScreen E = Some E1 →
      editorProcessKey c E1 = Running E' →
      reachable ws_row ws_col E'.

(** ** Escape sequences *)

(** The table of the specification: the bytes that follow [0x1b] in a
    known escape sequence, and the key they stand for. *)
Definition escape_table (seq : list Z) : option Z :=
  match seq with
  | [91; 65] => Some ARROW_UP                       (* [ A *)
  | [91; 66] => Some ARROW_DOWN                     (* [ B *)
  | [91; 67] => Some ARROW_RIGHT                    (* [ C *)
  | [91; 68] => Some ARROW_LEFT                     (* [ D *)
  | [91; 72] => Some HOME_KEY                       (* [ H *)
  | [91; 70] => Some END_KEY                        (* [ F *)
  | [91; 49; 126] => Some HOME_KEY                  (* [ 1 ~ *)
  | [91; 51; 126] => Some DEL_KEY                   (* [ 3 ~ *)
  | [91; 52; 126] => Some END_KEY                   (* [ 4 ~ *)
  | [91; 53; 126] => Some PAGE_UP                   (* [ 5 ~ *)
  | [91; 54; 126] => Some PAGE_DOWN                 (* [ 6 ~ *)
  | [91; 55; 126] => Some HOME_KEY                  (* [ 7 ~ *)
  | [91; 56; 126] => Some END_KEY                   (* [ 8 ~ *)
  | [79; 72] => Some HOME_KEY                       (* O H *)
  | [79; 70] => Some END_KEY                        (* O F *)
  | _ => None
  end.

(** A [read] that brings no byte but lets [editorReadKey] go on waiting. *)
Definition waits (r : read_result) : Prop := r = Timeout ∨ r = Eagain.

(** [text_at E i bs]: the row at index [i] holds the text [bs]. *)
Definition text_at (E : editorConfig) (i : Z) (bs : list Z) : Prop :=
  ∃ r, row_at E i = Some r ∧ holds r bs.

(** The text of the line the cursor is on: that of its row, or the empty
    text on the line below the last row. *)
Definition cursor_line (E : editorConfig) (bs : list Z) : Prop :=
  (cy E = numrows E ∧ bs = []) ∨ text_at E (cy E) bs.

(** A byte [editorOpen] strips from the end of a line. *)
Definition is_eol (c : Z) : Prop := c = NEWLINE ∨ c = CARRIAGE_RETURN.

(** [stripped line text]: [text] is [line] without its trailing newline
    and carriage-return bytes. *)
Definition stripped (line text : list Z) : Prop :=
  ∃ suffix, line = text ++ suffix ∧ Forall is_eol suffix
            ∧ ∀ c, list.last text = Some c → ¬ is_eol c.
(** ** Screen output *)

(** [emitted ab out]: the append buffer holds exactly the bytes [out]. *)
Definition emitted (ab : abuf) (out : list Z) : Prop :=
  Abuf.b ab = Some <$> out ∧ Abuf.len ab = len out.

(** The escape sequences [editorRefreshScreen] and the drawing functions
    write. *)
Definition HIDE_CURSOR : list Z := ESC :: str "[?25l".
Definition SHOW_CURSOR : list Z := ESC :: str "[?25h".
Definition CURSOR_HOME : list Z := ESC :: str "[H".
Definition ERASE_LINE : list Z := ESC :: str "[K".
Definition INVERT : list Z := ESC :: str "[7m".
Definition PLAIN : list Z := ESC :: str "[m".
Definition CRLF : list Z := [CARRIAGE_RETURN; NEWLINE].

(** The part of a text that shows in the window: its rendered form from
    column [coloff] on, cut to [screencols] columns. *)
Definition window_of (E : editorConfig) (text : list Z) : list Z :=
  take (Z.to_nat (screencols E)) (drop (Z.to_nat (coloff E)) (expand text)).

Definition welcome_text : list Z :=
  str "termEdit editor -- version " ++ EDIT_VERSION.

(** The welcome line: the banner cut to the window width, after a tilde
    and spaces that take half of the columns left. *)
Definition welcome_line (E : editorConfig) : list Z :=
  let welcomelen := Z.min (len welcome_text) (screencols E) in
  let padding := (screencols E - welcomelen) / 2 in
  take (Z.to_nat padding) (ch "~" :: replicate (Z.to_nat padding) SPACE)
  ++ take (Z.to_nat welcomelen) welcome_text.

(** [screen_line E y line]: [line] is what belongs on line [y] of the
    window: the visible part of the text of row [y + rowoff], and below
    the document a tilde or, in an empty document, the welcome line a
    third of the way down. *)
Definition screen_line (E : editorConfig) (y : Z) (line : list Z) : Prop :=
  (∀ text, text_at E (y + rowoff E) text → line = window_of E text)
  ∧ (numrows E <= y + rowoff E →
     line = if (numrows E =? 0) && (y =? screenrows E / 3)
            then welcome_line E else [ch "~"])
  ∧ len line <= Z.max 1 (screencols E).

(** The two texts of the status bar. *)
Definition status_left (X : editorStatus) (E : editorConfig) : list Z :=
  take 20 (default (str "[No Name]") (filename X))
  ++ str " - " ++ fmt_d (numrows E) ++ str " lines".

Definition status_right (E : editorConfig) : list Z :=
  fmt_d (cy E + 1) ++ str "/" ++ fmt_d (numrows E).

(** The status bar: the left text cut to the window width, and the right
    text at the right edge when both fit, spaces filling the bar. *)
Definition status_bar (X : editorStatus) (E : editorConfig) : list Z :=
  let left := take (Z.to_nat (screencols E)) (status_left X E) in
  let right := if len left + len (status_right E) <=? screencols E
               then status_right E else [] in
  left ++ replicate (Z.to_nat (screencols E - len left - len right)) SPACE
       ++ right.

(** The range of an [int]. *)
Definition int_range (n : Z) : Prop := - 2 ^ 31 <= n < 2 ^ 31.

(** The escape sequence that puts the terminal cursor on line [r],
    column [c], both counted from 1. *)
Definition cursor_to (r c : Z) : list Z :=
  ESC :: str "[" ++ fmt_d r ++ str ";" ++ fmt_d c ++ str "H".

(** One round of the loop of [editorDrawRows]. *)
Definition draw_row_body (E : editorConfig) (y : Z) (ab : abuf)
    : option abuf :=
  let filerow := y + rowoff E in
  ab ← (if filerow >=? numrows E then
          if (numrows E =? 0) && (y =? Z.quot (screenrows E) 3) then
            let '(welcome, welcomelen) :=
              snprintf 80 (str "termEdit editor -- version "
                           ++ EDIT_VERSION) in
            let welcomelen :=
              if welcomelen >? screencols E then screencols E
              else welcomelen in
            let padding := Z.quot (screencols E - welcomelen) 2 in
            '(ab, padding) ←
              (if negb (padding =? 0)
               then ab ← abAppend true ab (str "~") 1;
                    Some (ab, padding - 1)
               else Some (ab, padding));
            ab ← (if padding <? 0 then None
                  else pad_spaces (Z.to_nat padding) ab);
            abAppend true ab welcome welcomelen
          else abAppend true ab (str "~") 1
        else
          r ← row_at E filerow;
          let len := rsize r - coloff E in
          let len := if len <? 0 then 0 else len in
          let len := if len >? screencols E then screencols E else len in
          abAppend true ab (bytes_from (render r) (coloff E)) len);
  ab ← abAppend true ab (ESC :: str "[K") 3;
  abAppend true ab [CARRIAGE_RETURN; NEWLINE] 2.

(** The byte a byte of the text is drawn as in its first column. *)
Definition shown (c : Z) : Z := if c =? TAB then SPACE else c.

(** The reads that bring the cursor position report of a terminal,
    [ESC [ rows ; cols R]. *)
Definition cursor_report (rows cols : Z) : input :=
  Got <$> (ESC :: str "[" ++ fmt_d rows ++ str ";" ++ fmt_d cols ++ str "R").

(** ** The range of [int] *)

(** The model computes in [Z] what the source computes in [int], and
    the two agree as long as every value the source forms is in the
    range of an [int]. The predicates below say so for the values each
    function forms; the theorems about these functions assume them. *)

Definition INT_MAX : Z := 2 ^ 31 - 1.

(** [text_fits bs]: the size [editorUpdateRow] computes for the render
    block of the text [bs], [size + tabs * 7 + 1], is an [int]. The
    size of the text, its offsets, their rendered columns and the
    rendered length, which are smaller, then are too. *)
Definition text_fits (bs : list Z) : Prop :=
  len bs + 7 * count_tabs_from bs 0 + 1 <= INT_MAX.

(** Every row holds a text that fits. *)
Definition rows_fit (E : editorConfig) : Prop :=
  ∀ i bs, text_at E i bs → text_fits bs.

(** The fields of the state are [int]s. *)
Definition int_fields (E : editorConfig) : Prop :=
  int_range (cx E) ∧ int_range (cy E) ∧ int_range (rx E)
  ∧ int_range (rowoff E) ∧ int_range (coloff E)
  ∧ int_range (screenrows E) ∧ int_range (screencols E)
  ∧ int_range (numrows E).

(** [scroll_fits E]: what [editorScroll] computes on [E] is in range:
    the rendered column of the cursor, which no column met on the way
    to it exceeds, and the sums [rowoff + screenrows] and
    [coloff + screencols]. *)
Definition scroll_fits (E : editorConfig) : Prop :=
  int_fields E
  ∧ (∀ rxv, cursor_rx E = Some rxv → int_range rxv)
  ∧ int_range (rowoff E + screenrows E)
  ∧ int_range (coloff E + screencols E).

(** A bound on the bytes [editorDrawRows] appends: [screenrows] lines of
    at most [max 1 screencols] bytes, each with the five bytes that end
    it. *)
Definition rows_bytes (E : editorConfig) : Z :=
  Z.max 0 (screenrows E) * (Z.max 1 (screencols E) + 5).

(** A bound on the bytes of a frame: 9 for hiding and homing the cursor,
    the window lines, [screencols + 9] for the status bar, at most
    [screencols + 3] for the message bar, at most 24 for the cursor
    position and 6 for showing the cursor. *)
Definition frame_bytes (E : editorConfig) : Z :=
  rows_bytes E + 2 * Z.max 0 (screencols E) + 51.

(** [refresh_fits E]: what [editorRefreshScreen] computes on [E] is in
    range: what [editorScroll] computes, the sizes of the rows drawn,
    the line number [cy + 1] of the status bar, the file rows
    [y + rowoff] of the window lines, which stay below
    [cy + screenrows] or [rowoff + screenrows], and the length of the
    append buffer. *)
Definition refresh_fits (E : editorConfig) : Prop :=
  scroll_fits E ∧ rows_fit E
  ∧ int_range (cy E + 1) ∧ int_range (cy E + screenrows E)
  ∧ frame_bytes E <= INT_MAX.

(** [message_of X msg]: the array [statusmsg] holds the string [msg]. *)
Definition message_of (X : editorStatus) (msg : list Z) : Prop :=
  Forall (λ c, c ≠ NUL) msg ∧ ∃ rest, statusmsg X = msg ++ NUL :: rest.

(** ** Sample states and rows *)

(** A row of the kind the editor keeps: text, rendered form and both
    sizes agree. Used as the sample input of the closed examples. *)
Definition sample_row : erow :=
  mk_erow 4 9
    [Some 97; Some 98; Some 9; Some 99; Some 0]
    [Some 97; Some 98; Some 32; Some 32; Some 32; Some 32; Some 32; Some 32;
     Some 99; Some 0; None; None].

Definition sample_text : list Z := [97; 98; 9; 99].

Definition plain_row : erow :=
  mk_erow 3 3 [Some 97; Some 98; Some 99; Some 0]
              [Some 97; Some 98; Some 99; Some 0].

Definition plain_text : list Z := [97; 98; 99].

Definition tabs_row : erow :=
  mk_erow 2 0 [Some 9; Some 9; Some 0] [].

Definition late_tab_row : erow :=
  mk_erow 6 0 [Some 97; Some 98; Some 99; Some 100; Some 101; Some 9; Some 0]
          [].

Definition scroll_sample : editorConfig :=
  mk_editorConfig 4 0 0 0 0 22 5 1 [sample_row].

(** The state after typing [abc] into an empty document. *)
Definition typed_abc : editorConfig :=
  mk_editorConfig 3 0 2 0 0 22 80 1 [plain_row].

(** The state after typing [a] into an empty document and pressing
    ARROW_RIGHT at the end of the line. *)
Definition below_a : editorConfig :=
  mk_editorConfig 0 1 1 0 0 22 80 1
    [mk_erow 1 1 [Some 97; Some 0] [Some 97; Some 0]].

(** ** Proof automation *)

Ltac zmod := Z.div_mod_to_equations; lia.

Ltac fields :=
  cbn [cx cy rx rowoff coloff screenrows screencols numrows row
       set_cx set_cy set_rx set_rowoff set_coloff set_numrows set_row] in *.

(** Comparisons of the source as propositions. *)
Ltac zbool :=
  repeat match goal with
  | H : (_ =? _) = true |- _ => apply Z.eqb_eq in H
  | H : (_ =? _) = false |- _ => apply Z.eqb_neq in H
  | H : (_ <? _) = true |- _ => apply Z.ltb_lt in H
  | H : (_ <? _) = false |- _ => apply Z.ltb_ge in H
  | H : (_ <=? _) = true |- _ => apply Z.leb_le in H
  | H : (_ <=? _) = false |- _ => apply Z.leb_gt in H
  | H : (_ >? _) = true |- _ => rewrite Z.gtb_ltb in H
  | H : (_ >? _) = false |- _ => rewrite Z.gtb_ltb in H
  | H : (_ >=? _) = true |- _ => rewrite Z.geb_leb in H
  | H : (_ >=? _) = false |- _ => rewrite Z.geb_leb in H
  | H : negb _ = true |- _ => apply negb_true_iff in H
  | H : negb _ = false |- _ => apply negb_false_iff in H
  | H : _ || _ = false |- _ => apply orb_false_iff in H as [? ?]
  | H : _ && _ = true |- _ => apply andb_true_iff in H as [? ?]
  | H : _ || _ = true |- _ => apply orb_true_iff in H as [?|?]
  | H : _ && _ = false |- _ => apply andb_false_iff in H as [?|?]
  end.

(** Case analysis on a condition that has no condition inside. *)
Ltac split_if :=
  match goal with
  | |- context [if ?c then _ else _] =>
      lazymatch c with
      | context [if _ then _ else _] => fail
      | _ => destruct c eqn:?; fields
      end
  end.

(** Character constants as numbers. *)
Ltac eval_ch :=
  repeat match goal with
  | |- context [ch ?a] =>
      let v := eval vm_compute in (ch a) in change (ch a) with v in *
  | H : context [ch ?a] |- _ =>
      let v := eval vm_compute in (ch a) in change (ch a) with v in *
  end.

(** * Reasoning about heap blocks and loops *)

Section BlockFacts.

Lemma len_nonneg {A : Type} (l : list A) : 0 <= len l.
Proof. unfold len. lia. Qed.

Lemma len_app {A : Type} (l k : list A) : len (l ++ k) = len l + len k.
Proof. unfold len. rewrite length_app. lia. Qed.

Lemma len_cons {A : Type} (x : A) (l : list A) : len (x :: l) = 1 + len l.
Proof. unfold len. cbn [length]. lia. Qed.

Lemma len_nil {A : Type} : len (@nil A) = 0.
Proof. reflexivity. Qed.

Lemma len_fmap {A B : Type} (f : A → B) (l : list A) :
  len (f <$> l) = len l.
Proof. unfold len. by rewrite length_fmap. Qed.

Lemma to_nat_len {A : Type} (l : list A) : Z.to_nat (len l) = length l.
Proof. unfold len. lia. Qed.

(** Reading the cell right after a prefix [P]. *)
Lemma load_middle (P Q : buf) (c : Z) :
  load (P ++ Some c :: Q) (len P) = Some c.
Proof.
  unfold load.
  destruct (Z.ltb_spec (len P) 0) as [H|_];
    [pose proof (len_nonneg P); lia|].
  by rewrite to_nat_len, list_lookup_middle.
Qed.

(** Reading inside an initialised prefix. *)
Lemma load_init (bs : list Z) (Q : buf) (i : nat) :
  (i < length bs)%nat →
  load ((Some <$> bs) ++ Q) (Z.of_nat i) = bs !! i.
Proof.
  intros Hi. unfold load.
  destruct (Z.ltb_spec (Z.of_nat i) 0) as [H|_]; [lia|].
  rewrite Nat2Z.id, lookup_app_l by (by rewrite length_fmap).
  rewrite list_lookup_fmap. by destruct (bs !! i).
Qed.

(** Writing the cell right after a prefix [P]. *)
Lemma store_middle (P Q : buf) (x : cell) (v : Z) :
  store (P ++ x :: Q) (len P) v = Some (P ++ Some v :: Q).
Proof.
  unfold store. pose proof (len_nonneg P) as HP.
  rewrite len_app, len_cons. pose proof (len_nonneg Q).
  destruct (Z.leb_spec 0 (len P)); [|lia].
  destruct (Z.ltb_spec (len P) (len P + (1 + len Q))); [|lia].
  cbn [andb]. f_equal. rewrite to_nat_len.
  rewrite insert_app_r_alt by lia.
  by rewrite Nat.sub_diag.
Qed.

Lemma store_at (P Q : list (option Z)) (x : option Z) (i v : Z) :
  i = len P → store (P ++ x :: Q) i v = Some (P ++ Some v :: Q).
Proof. intros ->. apply store_middle. Qed.

(** Opening a one-cell gap after [P] by moving the non-empty rest [Q]
    up by one: the old first cell of [Q] is left behind in the gap. *)
Lemma memmove_shift (P Q : buf) (q x : cell) :
  memmove (P ++ (q :: Q) ++ [x]) (len P + 1) (len P) (len (q :: Q))
  = Some (P ++ q :: q :: Q).
Proof.
  unfold memmove.
  assert (Hall : len (P ++ (q :: Q) ++ [x]) = len P + len Q + 2)
    by (unfold len; rewrite !length_app; cbn [length]; lia).
  assert (HQ : len (q :: Q) = len Q + 1)
    by (unfold len; cbn [length]; lia).
  rewrite Hall, HQ. clear Hall HQ.
  pose proof (len_nonneg P). pose proof (len_nonneg Q).
  repeat match goal with
  | |- context [?a <=? ?b] =>
      destruct (Z.leb_spec a b); [|lia]
  end.
  cbn [andb]. f_equal.
  replace (Z.to_nat (len P + 1)) with (length P + 1)%nat
    by (unfold len; lia).
  replace (Z.to_nat (len Q + 1)) with (length (q :: Q))
    by (unfold len; cbn [length]; lia).
  replace (Z.to_nat (len P + 1 + (len Q + 1)))
    with (length P + length ((q :: Q) ++ [x]))%nat
    by (unfold len; rewrite length_app; cbn [length]; lia).
  rewrite to_nat_len, take_app_add, drop_app_length.
  rewrite take_app_length, drop_app_add.
  rewrite drop_all, app_nil_r, <- app_assoc. reflexivity.
Qed.

Lemma realloc_grow (b : buf) (n : Z) :
  n = len b + 1 → realloc b n = b ++ [None].
Proof.
  intros ->. unfold realloc.
  replace (Z.to_nat (len b + 1)) with (S (length b)) by (unfold len; lia).
  rewrite take_ge by lia.
  by replace (S (length b) - length b)%nat with 1%nat by lia.
Qed.

End BlockFacts.

Lemma for_loop_foldM {S : Type} (b : buf) (body f : Z → S → option S) :
  (∀ j c s, load b j = Some c → body j s = f c s) →
  ∀ (bs pre : list Z) (post : buf) (s : S),
    b = (Some <$> pre) ++ (Some <$> bs) ++ post →
    for_loop (length bs) (len pre) body s = foldM f bs s.
Proof.
  intros Hbody bs. induction bs as [|c bs IH]; intros pre post s Hb.
  - reflexivity.
  - cbn [length for_loop foldM].
    rewrite (Hbody _ c).
    2:{ rewrite Hb, fmap_cons. cbn [app].
        rewrite <- (len_fmap Some pre). apply load_middle. }
    destruct (f c s) as [s'|]; [|reflexivity]. cbn.
    replace (len pre + 1) with (len (pre ++ [c]))
      by (rewrite len_app, len_cons, len_nil; lia).
    apply (IH _ post). rewrite Hb, fmap_app, fmap_cons, <- app_assoc.
    reflexivity.
Qed.

(** A property of the loop state that every round keeps holds after the
    loop. *)
Lemma for_loop_invariant {S : Type} (P : S → Prop) (body : Z → S → option S) :
  (∀ j s s', P s → body j s = Some s' → P s') →
  ∀ (n : nat) (j : Z) (s s' : S),
    P s → for_loop n j body s = Some s' → P s'.
Proof.
  intros Hbody n. induction n as [|n IH]; intros j s s' Hs Hloop.
  - by injection Hloop as <-.
  - cbn [for_loop] in Hloop.
    destruct (body j s) as [s1|] eqn:H1; [|done].
    cbn [mbind option_bind] in Hloop. eauto.
Qed.

(** * The row store *)

Section Columns.

Lemma next_col_tab (rx : Z) :
  0 <= rx → next_col TAB rx = EDIT_TAB_STOP * (rx / EDIT_TAB_STOP + 1).
Proof.
  intros Hrx. unfold next_col, TAB, EDIT_TAB_STOP. cbn [Z.eqb Pos.eqb].
  rewrite Z.rem_mod_nonneg by lia. zmod.
Qed.

Lemma next_col_other (c rx : Z) : c ≠ TAB → next_col c rx = rx + 1.
Proof.
  intros Hc. unfold next_col.
  destruct (Z.eqb_spec c TAB); [done|reflexivity].
Qed.

Lemma next_col_gt (c rx : Z) : 0 <= rx → rx < next_col c rx.
Proof.
  intros Hrx. unfold next_col, EDIT_TAB_STOP.
  destruct (c =? TAB); [|lia].
  rewrite Z.rem_mod_nonneg by lia. zmod.
Qed.

Lemma col_after_app (l k : list Z) (rx : Z) :
  col_after (l ++ k) rx = col_after k (col_after l rx).
Proof. unfold col_after. apply fold_left_app. Qed.

Lemma col_after_ge (bs : list Z) (rx : Z) :
  0 <= rx → rx <= col_after bs rx.
Proof.
  revert rx. induction bs as [|c bs IH]; intros rx Hrx; [cbn; lia|].
  cbn [col_after fold_left]. pose proof (next_col_gt c rx Hrx).
  etrans; [|apply IH]; lia.
Qed.

Lemma col_after_no_tab (bs : list Z) (rx : Z) :
  TAB ∉ bs → col_after bs rx = rx + len bs.
Proof.
  revert rx. induction bs as [|c bs IH]; intros rx Hno.
  - cbn. rewrite len_nil. lia.
  - apply not_elem_of_cons in Hno as [Hc Hno].
    cbn [col_after fold_left]. fold (col_after bs (next_col c rx)).
    rewrite IH, next_col_other, len_cons by done. lia.
Qed.

Lemma foldM_next_col (bs : list Z) (rx : Z) :
  foldM (λ c rx, Some (next_col c rx)) bs rx = Some (col_after bs rx).
Proof.
  revert rx. induction bs as [|c bs IH]; intros rx; [reflexivity|].
  cbn [foldM]. cbn. apply IH.
Qed.

(** On a row that holds [bs], [editorRowCxToRx] is defined for every
    offset up to the size and scans the first [cx] bytes. *)
Lemma editorRowCxToRx_holds (r : erow) (bs : list Z) (cx : Z) :
  holds r bs → 0 <= cx <= size r →
  editorRowCxToRx r cx = Some (col_after (take (Z.to_nat cx) bs) 0).
Proof.
  intros [Hsize Hchars] Hcx.
  unfold editorRowCxToRx, for_range. rewrite Z.sub_0_r.
  assert (Hlen : length (take (Z.to_nat cx) bs) = Z.to_nat cx)
    by (rewrite length_take; unfold len in Hsize; lia).
  rewrite <- Hlen at 1. rewrite <- foldM_next_col.
  apply (for_loop_foldM (chars r)) with
    (pre := []) (post := (Some <$> drop (Z.to_nat cx) bs) ++ [Some NUL]).
  - intros j c s Hload. by rewrite Hload.
  - rewrite Hchars. cbn [fmap list_fmap app].
    by rewrite app_assoc, <- fmap_app, take_drop.
Qed.

(** Whatever the row, a column [editorRowCxToRx] returns is not
    negative. *)
Lemma editorRowCxToRx_nonneg (r : erow) (cx rx : Z) :
  editorRowCxToRx r cx = Some rx → 0 <= rx.
Proof.
  unfold editorRowCxToRx, for_range.
  apply (for_loop_invariant (λ rx, 0 <= rx)); [|done].
  intros j s s' Hs Hbody.
  destruct (load (chars r) j) as [c|]; [|done].
  cbn [mbind option_bind] in Hbody. injection Hbody as <-.
  pose proof (next_col_gt c s Hs) as Hgt. unfold next_col in Hgt. lia.
Qed.

Lemma editorRowCxToRx_nonpos (r : erow) (cx : Z) :
  cx <= 0 → editorRowCxToRx r cx = Some 0.
Proof.
  intros Hcx. unfold editorRowCxToRx, for_range.
  by replace (Z.to_nat (cx - 0)) with 0%nat by lia.
Qed.

End Columns.

(** ** [editorUpdateRow] *)

Section UpdateRow.

Lemma count_tabs_from_shift (bs : list Z) (tabs : Z) :
  count_tabs_from bs tabs = tabs + count_tabs_from bs 0.
Proof.
  revert tabs. induction bs as [|c bs IH]; intros tabs; [cbn; lia|].
  cbn [count_tabs_from]. destruct (c =? TAB).
  - rewrite (IH (tabs + 1)), (IH (0 + 1)). lia.
  - apply IH.
Qed.

Lemma count_tabs_from_nonneg (bs : list Z) : 0 <= count_tabs_from bs 0.
Proof.
  induction bs as [|c bs IH]; [cbn; lia|].
  cbn [count_tabs_from]. destruct (c =? TAB); [|done].
  rewrite count_tabs_from_shift. lia.
Qed.

Lemma foldM_count_tabs (bs : list Z) (tabs : Z) :
  foldM (λ c tabs, Some (if c =? TAB then tabs + 1 else tabs)) bs tabs
  = Some (count_tabs_from bs tabs).
Proof.
  revert tabs. induction bs as [|c bs IH]; intros tabs; [reflexivity|].
  cbn [foldM count_tabs_from]. cbn. apply IH.
Qed.

(** The [while] loop stops at the next tab stop, within
    [EDIT_TAB_STOP] tests, if the block has room up to there. *)
Lemma pad_to_stop_spec (fuel : nat) (out : list Z) (free : list (option Z))
    (k : Z) :
  k = (EDIT_TAB_STOP - len out mod EDIT_TAB_STOP) mod EDIT_TAB_STOP →
  (Z.to_nat k < fuel)%nat → k <= len free →
  ∃ free',
    pad_to_stop fuel ((Some <$> out) ++ free) (len out)
    = Some ((Some <$> (out ++ replicate (Z.to_nat k) SPACE)) ++ free',
            len out + k)
    ∧ len free' = len free - k.
Proof.
  unfold EDIT_TAB_STOP.
  revert out free k.
  induction fuel as [|fuel IH]; intros out free k Hk0 Hfuel Hfree; [lia|].
  pose proof (len_nonneg out) as Hout.
  cbn [pad_to_stop]. unfold EDIT_TAB_STOP.
  rewrite Z.rem_mod_nonneg by lia.
  destruct (Z.eqb_spec (len out mod 8) 0) as [H0|Hn0]; cbn [negb].
  - assert (k = 0) as Hz by (subst k; zmod). clear Hk0. subst k.
    exists free. cbn [Z.to_nat replicate].
    rewrite app_nil_r, Z.add_0_r, Z.sub_0_r. done.
  - assert (1 <= k) by (subst k; zmod).
    destruct free as [|x free]; [rewrite len_nil in Hfree; lia|].
    rewrite len_cons in Hfree.
    rewrite <- (len_fmap Some out), store_middle. cbn.
    rewrite (len_fmap Some out).
    replace ((Some <$> out) ++ Some SPACE :: free)
      with ((Some <$> (out ++ [SPACE])) ++ free)
      by (by rewrite fmap_app, <- app_assoc).
    replace (len out + 1) with (len (out ++ [SPACE]))
      by (rewrite len_app, len_cons, len_nil; lia).
    assert (Hk : (8 - len (out ++ [SPACE]) mod 8) mod 8 = k - 1).
    { rewrite len_app, len_cons, len_nil. subst k. zmod. }
    destruct (IH (out ++ [SPACE]) free (k - 1)) as (free' & Hpad & Hlen);
      [done|lia|lia|].
    exists free'. rewrite Hpad. split; [|rewrite Hlen, len_cons; lia].
    f_equal. f_equal.
    + rewrite <- app_assoc. do 2 f_equal.
      replace (Z.to_nat k) with (S (Z.to_nat (k - 1))) by lia.
      reflexivity.
    + rewrite len_app, len_cons, len_nil. lia.
Qed.

Lemma len_expand_byte (out : list Z) (c : Z) :
  len (expand_byte out c)
  = len out + (if c =? TAB
               then EDIT_TAB_STOP - len out mod EDIT_TAB_STOP else 1).
Proof.
  unfold expand_byte, EDIT_TAB_STOP. pose proof (len_nonneg out).
  destruct (c =? TAB); rewrite len_app.
  - unfold len at 2. rewrite length_replicate. zmod.
  - by rewrite len_cons, len_nil.
Qed.

Lemma len_expand_byte_eq (out : list Z) (c : Z) :
  len (expand_byte out c) = next_col c (len out).
Proof.
  rewrite len_expand_byte. unfold next_col, EDIT_TAB_STOP.
  pose proof (len_nonneg out).
  destruct (c =? TAB); [|done].
  rewrite Z.rem_mod_nonneg by lia. lia.
Qed.

(** One round of the rendering loop writes [expand_byte] after what is
    already written. *)
Lemma render_step_spec (c : Z) (out : list Z) (free : list (option Z)) :
  len (expand_byte out c) - len out <= len free →
  ∃ free',
    render_step c ((Some <$> out) ++ free, len out)
    = Some ((Some <$> expand_byte out c) ++ free', len (expand_byte out c))
    ∧ len free' + len (expand_byte out c) = len free + len out.
Proof.
  intros Hroom. pose proof (len_nonneg out) as Hout.
  rewrite len_expand_byte in Hroom |- *.
  unfold render_step, expand_byte in *. unfold EDIT_TAB_STOP in *.
  destruct (c =? TAB).
  - destruct free as [|x free]; [rewrite len_nil in Hroom; zmod|].
    rewrite len_cons in Hroom |- *.
    rewrite <- (len_fmap Some out), store_middle. cbn.
    rewrite (len_fmap Some out).
    replace ((Some <$> out) ++ Some SPACE :: free)
      with ((Some <$> (out ++ [SPACE])) ++ free)
      by (by rewrite fmap_app, <- app_assoc).
    replace (len out + 1) with (len (out ++ [SPACE]))
      by (rewrite len_app, len_cons, len_nil; lia).
    assert (Hk : (8 - len (out ++ [SPACE]) mod 8) mod 8
                 = 8 - len out mod 8 - 1).
    { rewrite len_app, len_cons, len_nil. zmod. }
    destruct (pad_to_stop_spec (Z.to_nat 8) (out ++ [SPACE]) free
                (8 - len out mod 8 - 1))
      as (free' & Hpad & Hlen); unfold EDIT_TAB_STOP in *.
    + done.
    + zmod.
    + lia.
    + exists free'. rewrite Hpad. split; [|rewrite Hlen; lia].
      f_equal. f_equal.
      * rewrite <- app_assoc. do 2 f_equal.
        replace (Z.to_nat (8 - len out mod 8))
          with (S (Z.to_nat (8 - len out mod 8 - 1))) by zmod.
        reflexivity.
      * rewrite len_app, len_cons, len_nil. lia.
  - destruct free as [|x free]; [rewrite len_nil in Hroom; lia|].
    rewrite <- (len_fmap Some out), store_middle. cbn.
    rewrite (len_fmap Some out). exists free.
    rewrite fmap_app, <- app_assoc, len_cons. split; [done|lia].
Qed.

Lemma expand_from_growth (bs out : list Z) :
  len out <= len (expand_from out bs)
  ∧ len (expand_from out bs) - len out
    <= len bs + (EDIT_TAB_STOP - 1) * count_tabs_from bs 0.
Proof.
  revert out. induction bs as [|c bs IH]; intros out.
  - cbn. change (len (@nil Z)) with 0. lia.
  - cbn [expand_from fold_left count_tabs_from].
    fold (expand_from (expand_byte out c) bs).
    destruct (IH (expand_byte out c)) as [IH1 IH2].
    pose proof (len_expand_byte out c) as Hb.
    pose proof (len_nonneg out). rewrite len_cons.
    unfold EDIT_TAB_STOP in *.
    destruct (c =? TAB).
    + rewrite count_tabs_from_shift. split; zmod.
    + split; lia.
Qed.

(** The rendering loop writes [expand_from] when the block has room
    for one cell per byte and [EDIT_TAB_STOP - 1] more per tab. *)
Lemma render_loop_spec (bs out : list Z) (free : list (option Z)) :
  len bs + (EDIT_TAB_STOP - 1) * count_tabs_from bs 0 <= len free →
  ∃ free',
    foldM render_step bs ((Some <$> out) ++ free, len out)
    = Some ((Some <$> expand_from out bs) ++ free',
            len (expand_from out bs))
    ∧ len free' + len (expand_from out bs) = len free + len out.
Proof.
  revert out free. induction bs as [|c bs IH]; intros out free Hroom.
  - exists free. done.
  - cbn [foldM expand_from fold_left].
    fold (expand_from (expand_byte out c) bs).
    cbn [count_tabs_from] in Hroom. rewrite len_cons in Hroom.
    pose proof (len_expand_byte out c) as Hb.
    pose proof (len_nonneg out). pose proof (len_nonneg bs).
    pose proof (count_tabs_from_nonneg bs) as Ht.
    assert (Hc : len (expand_byte out c) - len out
                 + len bs + (EDIT_TAB_STOP - 1) * count_tabs_from bs 0
                 <= len free).
    { unfold EDIT_TAB_STOP in *. destruct (c =? TAB).
      - rewrite count_tabs_from_shift in Hroom. zmod.
      - lia. }
    destruct (render_step_spec c out free) as (free1 & Hstep & Hlen1);
      [unfold EDIT_TAB_STOP in *; lia|].
    rewrite Hstep. cbn.
    destruct (IH (expand_byte out c) free1) as (free2 & Hrest & Hlen2);
      [lia|].
    exists free2. split; [done|lia].
Qed.

(** [editorUpdateRow] is defined on every row that holds a text; it
    leaves [size] and [chars] alone and writes the expansion of the text
    and a NUL to a fresh block. *)
Lemma editorUpdateRow_holds (r : erow) (bs : list Z) :
  holds r bs →
  ∃ free,
    editorUpdateRow r
    = Some (mk_erow (size r) (len (expand bs)) (chars r)
                    ((Some <$> expand bs) ++ Some NUL :: free)).
Proof.
  intros [Hsize Hchars]. unfold editorUpdateRow, for_range.
  rewrite Z.sub_0_r, Hsize, to_nat_len.
  rewrite (for_loop_foldM (chars r) _
             (λ c tabs, Some (if c =? TAB then tabs + 1 else tabs)))
    with (pre := []) (post := [Some NUL]) (bs := bs);
    [|intros j c s Hload; by rewrite Hload|by rewrite Hchars].
  rewrite foldM_count_tabs. cbn [mbind option_bind].
  rewrite (for_loop_foldM (chars r) _ render_step)
    with (pre := []) (post := [Some NUL]) (bs := bs);
    [|intros j c [rd idx] Hload; by rewrite Hload|by rewrite Hchars].
  set (cap := len bs + count_tabs_from bs 0 * (EDIT_TAB_STOP - 1) + 1).
  pose proof (len_nonneg bs). pose proof (count_tabs_from_nonneg bs).
  assert (Hcap : len (malloc cap) = cap).
  { unfold malloc, len. rewrite length_replicate.
    subst cap. unfold EDIT_TAB_STOP. lia. }
  destruct (render_loop_spec bs [] (malloc cap)) as (free1 & Hloop & Hlen).
  { rewrite Hcap. subst cap. lia. }
  cbn [fmap list_fmap app] in Hloop. change (len []) with 0 in Hloop.
  rewrite Hloop. cbn [mbind option_bind].
  fold (expand bs) in *.
  destruct (expand_from_growth bs []) as [_ Hgrow]. fold (expand bs) in Hgrow.
  rewrite len_nil in Hlen, Hgrow.
  destruct free1 as [|x free1].
  { rewrite len_nil in Hlen. rewrite Hcap in Hlen. subst cap. lia. }
  rewrite <- (len_fmap Some (expand bs)), store_middle. cbn.
  rewrite len_fmap. by exists free1.
Qed.

End UpdateRow.

(** ** The rendered form *)

Section Rendered.

Lemma len_expand_from (bs out : list Z) :
  len (expand_from out bs) = col_after bs (len out).
Proof.
  revert out. induction bs as [|c bs IH]; intros out; [reflexivity|].
  cbn [expand_from col_after fold_left].
  fold (expand_from (expand_byte out c) bs).
  fold (col_after bs (next_col c (len out))).
  by rewrite IH, len_expand_byte_eq.
Qed.

Lemma len_expand (bs : list Z) : len (expand bs) = col_after bs 0.
Proof. apply (len_expand_from bs []). Qed.

Lemma expand_from_no_tab_out (bs out : list Z) :
  TAB ∉ out → TAB ∉ expand_from out bs.
Proof.
  revert out. induction bs as [|c bs IH]; intros out Hout; [done|].
  cbn [expand_from fold_left]. apply IH. unfold expand_byte.
  destruct (Z.eqb_spec c TAB) as [->|Hc].
  - rewrite elem_of_app. intros [H|H]; [done|].
    apply elem_of_replicate in H as [H _]. discriminate H.
  - rewrite elem_of_app, list_elem_of_singleton. intros [H|H]; [done|].
    by subst.
Qed.

Lemma expand_no_tab_out (bs : list Z) : TAB ∉ expand bs.
Proof. apply expand_from_no_tab_out, not_elem_of_nil. Qed.

Lemma expand_from_no_tab_in (bs out : list Z) :
  TAB ∉ bs → expand_from out bs = out ++ bs.
Proof.
  revert out. induction bs as [|c bs IH]; intros out Hbs.
  - cbn. by rewrite app_nil_r.
  - apply not_elem_of_cons in Hbs as [Hc Hbs].
    cbn [expand_from fold_left]. fold (expand_from (expand_byte out c) bs).
    rewrite IH by done. unfold expand_byte.
    destruct (Z.eqb_spec c TAB); [done|]. by rewrite <- app_assoc.
Qed.

Lemma expand_no_tab_in (bs : list Z) : TAB ∉ bs → expand bs = bs.
Proof. apply (expand_from_no_tab_in bs []). Qed.

Lemma holds_unique (r : erow) (bs bs' : list Z) :
  holds r bs → holds r bs' → bs = bs'.
Proof.
  intros [_ H1] [_ H2]. rewrite H1 in H2.
  apply app_inj_tail in H2 as [H2 _].
  by apply (inj (fmap Some)) in H2.
Qed.

(** The bytes of a row that holds [bs], read through [chars]. *)
Lemma holds_load (r : erow) (bs : list Z) (i : Z) :
  holds r bs → 0 <= i < size r →
  ∃ b, bs !! Z.to_nat i = Some b ∧ load (chars r) i = Some b.
Proof.
  intros [Hsize Hchars] Hi.
  assert (Hlt : (Z.to_nat i < length bs)%nat) by (unfold len in *; lia).
  destruct (lookup_lt_is_Some_2 bs _ Hlt) as [b Hb].
  exists b. split; [done|].
  replace i with (Z.of_nat (Z.to_nat i)) at 1 by lia.
  by rewrite Hchars, load_init.
Qed.

Lemma holds_load_nul (r : erow) (bs : list Z) :
  holds r bs → load (chars r) (size r) = Some NUL.
Proof.
  intros [Hsize Hchars].
  rewrite Hchars, Hsize, <- (len_fmap Some bs). apply load_middle.
Qed.

Lemma rendered_update (r : erow) (bs : list Z) :
  holds r bs → ∃ r', editorUpdateRow r = Some r' ∧ rendered r' bs
                     ∧ size r' = size r ∧ chars r' = chars r.
Proof.
  intros Hr. destruct (editorUpdateRow_holds r bs Hr) as [free Hup].
  eexists. split; [exact Hup|]. destruct Hr as [Hsize Hchars].
  repeat split; cbn; eauto.
Qed.

(** The bytes of the render form of a rendered row. *)
Lemma rendered_load (r : erow) (bs : list Z) (i : Z) :
  rendered r bs → 0 <= i < rsize r →
  ∃ b, expand bs !! Z.to_nat i = Some b ∧ load (render r) i = Some b.
Proof.
  intros (_ & Hrsize & free & Hrender) Hi.
  assert (Hlt : (Z.to_nat i < length (expand bs))%nat)
    by (unfold len in *; lia).
  destruct (lookup_lt_is_Some_2 _ _ Hlt) as [b Hb].
  exists b. split; [done|].
  replace i with (Z.of_nat (Z.to_nat i)) at 1 by lia.
  by rewrite Hrender, load_init.
Qed.

End Rendered.

(** ** [editorRowInsertChar] and [editorAppendRow] *)

Section RowEdits.

Lemma insert_offset_range (r : erow) (bs : list Z) (at_ : Z) :
  holds r bs → 0 <= insert_offset r at_ <= size r.
Proof.
  intros [Hsize _]. pose proof (len_nonneg bs). unfold insert_offset.
  destruct (Z.ltb_spec at_ 0); cbn [orb]; [lia|].
  destruct (Z.gtb_spec at_ (size r)); lia.
Qed.

Lemma text_block_nonempty (q : list Z) :
  ∃ q0 Q, (Some <$> q) ++ [Some NUL] = q0 :: Q.
Proof. destruct q as [|b q]; cbn; eauto. Qed.

(** [editorRowInsertChar] is defined on every row that holds a text and
    puts the byte of [c] between the first [insert_offset] bytes and the
    rest. *)
Lemma editorRowInsertChar_holds (r : erow) (bs : list Z) (at_ c : Z) :
  holds r bs →
  ∃ r', editorRowInsertChar r at_ c = Some r'
        ∧ size r' = size r + 1
        ∧ rendered r' (take (Z.to_nat (insert_offset r at_)) bs
                       ++ to_char c
                          :: drop (Z.to_nat (insert_offset r at_)) bs).
Proof.
  intros Hr. pose proof (insert_offset_range r bs at_ Hr) as Hat.
  destruct Hr as [Hsize Hchars].
  unfold editorRowInsertChar. fold (insert_offset r at_).
  set (k := insert_offset r at_) in *.
  set (p := take (Z.to_nat k) bs). set (q := drop (Z.to_nat k) bs).
  assert (Hp : len p = k).
  { subst p. unfold len in *. rewrite length_take. lia. }
  assert (Hq : len q = size r - k).
  { subst q. unfold len in *. rewrite length_drop. lia. }
  destruct (text_block_nonempty q) as (q0 & Q & HQ).
  assert (Hblock : realloc (chars r) (size r + 2)
                   = (Some <$> p) ++ (q0 :: Q) ++ [None]).
  { rewrite realloc_grow.
    - rewrite Hchars, <- HQ, <- (take_drop (Z.to_nat k) bs) at 1.
      fold p q. by rewrite fmap_app, <- !app_assoc.
    - rewrite Hchars, len_app, len_fmap, len_cons, len_nil. lia. }
  assert (HlenQ : len (q0 :: Q) = size r - k + 1).
  { rewrite <- HQ, len_app, len_fmap, len_cons, len_nil. lia. }
  rewrite Hblock, <- HlenQ, <- Hp, <- (len_fmap Some p), memmove_shift.
  cbn [mbind option_bind]. rewrite store_middle. cbn [mbind option_bind].
  destruct (rendered_update
              (mk_erow (size r + 1) (rsize r)
                       ((Some <$> p) ++ Some (to_char c) :: q0 :: Q)
                       (render r))
              (p ++ to_char c :: q)) as (r' & Hup & Hrend & Hsz & _).
  { split; cbn.
    - rewrite len_app, len_cons. lia.
    - rewrite fmap_app, fmap_cons, <- HQ, <- app_assoc. done. }
  exists r'. done.
Qed.

(** [editorAppendRow] is defined when the row array has [numrows]
    elements and [s] has at least [n] bytes; it adds one rendered row
    holding the first [n] bytes of [s]. *)
Lemma editorAppendRow_holds (s : list Z) (n : Z) (E : editorConfig) :
  numrows E = len (row E) → 0 <= n <= len s →
  ∃ r, editorAppendRow s n E
       = Some (set_numrows (set_row E (row E ++ [r])) (numrows E + 1))
       ∧ rendered r (take (Z.to_nat n) s).
Proof.
  intros Hnum Hn. unfold editorAppendRow.
  assert (Hmalloc : malloc (n + 1) = replicate (Z.to_nat n) None ++ [None]).
  { unfold malloc. replace (Z.to_nat (n + 1)) with (Z.to_nat n + 1)%nat
      by lia. by rewrite replicate_add. }
  assert (Hroom : len (replicate (Z.to_nat n) (@None Z) ++ [None]) = n + 1).
  { unfold len. rewrite length_app, length_replicate. cbn [length]. lia. }
  unfold memcpy. rewrite Hmalloc, Hroom.
  destruct (Z.leb_spec 0 n); [|lia].
  destruct (Z.leb_spec n (len s)); [|lia].
  destruct (Z.leb_spec n (n + 1)); [|lia].
  cbn [andb mbind option_bind].
  rewrite drop_app_length' by (by rewrite length_replicate).
  assert (Htake : len (Some <$> take (Z.to_nat n) s) = n).
  { rewrite len_fmap. unfold len in *. rewrite length_take. lia. }
  rewrite (store_at _ [] None) by done. cbn [mbind option_bind].
  destruct (rendered_update
              (mk_erow n 0 ((Some <$> take (Z.to_nat n) s) ++ [Some NUL]) [])
              (take (Z.to_nat n) s)) as (r & Hup & Hrend & _).
  { split; cbn; [|done]. by rewrite len_fmap in Htake. }
  rewrite Hup. cbn [mbind option_bind].
  pose proof (len_nonneg (row E)).
  replace (Z.to_nat (numrows E + 1)) with (length (row E) + 1)%nat
    by (unfold len in *; lia).
  rewrite resize_add_eq by done. cbn [replicate].
  assert (Hrows : len (row E ++ [mk_erow 0 0 [] []]) = len (row E) + 1).
  { unfold len. rewrite length_app. cbn [length]. lia. }
  rewrite Hrows, Hnum.
  destruct (Z.leb_spec 0 (len (row E))); [|lia].
  destruct (Z.ltb_spec (len (row E)) (len (row E) + 1)); [|lia].
  cbn [andb]. exists r. split; [|done].
  rewrite to_nat_len, insert_app_r_alt, Nat.sub_diag by lia. done.
Qed.

End RowEdits.

(** * Properties of the row store *)

Lemma to_char_byte (c : Z) : 0 <= c < 256 → to_char c = c.
Proof. intros Hc. unfold to_char. by rewrite Z.mod_small. Qed.

Lemma insert_offset_in_range (r : erow) (k : Z) :
  0 <= k <= size r → insert_offset r k = k.
Proof.
  intros Hk. unfold insert_offset.
  destruct (Z.ltb_spec k 0); [lia|].
  destruct (Z.gtb_spec k (size r)); [lia|done].
Qed.

Lemma insert_offset_out_of_range (r : erow) (k : Z) :
  k < 0 ∨ size r < k → insert_offset r k = size r.
Proof.
  intros Hk. unfold insert_offset.
  destruct (Z.ltb_spec k 0); [done|].
  destruct (Z.gtb_spec k (size r)); [done|lia].
Qed.

Lemma editorRowInsertChar_clamped (r : erow) (at_ c : Z) :
  editorRowInsertChar r at_ c = insert_clamped r (insert_offset r at_) c.
Proof. reflexivity. Qed.

Lemma insert_offset_size (r : erow) : insert_offset r (size r) = size r.
Proof. unfold insert_offset. by destruct (_ || _). Qed.

(** C4: for a row of size [n] holding a text, an offset [0 <= k <= n] and
    a byte [c], the new text fitting the [int] sizes of the source,
    [editorRowInsertChar] returns a row of size [n + 1] whose
    bytes below [k] are the old bytes below [k], whose byte at [k] is [c],
    and whose bytes at [i + 1] for [k <= i < n] are the old bytes at [i]. *)
Theorem row_insert_char_preserves_neighbours
    (r : erow) (bs : list Z) (k c : Z) :
  holds r bs → 0 <= k <= size r → 0 <= c < 256 →
  text_fits (take (Z.to_nat k) bs ++ c :: drop (Z.to_nat k) bs) →
  ∃ r', editorRowInsertChar r k c = Some r'
        ∧ size r' = size r + 1
        ∧ (∀ i, 0 <= i < k →
             ∃ b, load (chars r) i = Some b ∧ load (chars r') i = Some b)
        ∧ load (chars r') k = Some c
        ∧ (∀ i, k <= i < size r →
             ∃ b, load (chars r) i = Some b
                  ∧ load (chars r') (i + 1) = Some b).
Proof.
  intros Hr Hk Hc _.
  destruct (editorRowInsertChar_holds r bs k c Hr) as (r' & Hins & Hsz & Hr').
  rewrite insert_offset_in_range, to_char_byte in Hr' by done.
  destruct Hr' as (Hr' & _). pose proof Hr as [Hsize _].
  assert (Hlenp : length (take (Z.to_nat k) bs) = Z.to_nat k)
    by (rewrite length_take; unfold len in *; lia).
  exists r'. split; [done|]. split; [done|]. repeat split.
  - intros i Hi.
    destruct (holds_load r bs i Hr) as (b & Hb & Hload); [lia|].
    destruct (holds_load r' _ i Hr') as (b' & Hb' & Hload'); [lia|].
    rewrite lookup_app_l, lookup_take_lt in Hb' by lia.
    exists b. split; [done|]. congruence.
  - destruct (holds_load r' _ k Hr') as (b' & Hb' & Hload'); [lia|].
    rewrite list_lookup_middle in Hb' by done. congruence.
  - intros i Hi.
    destruct (holds_load r bs i Hr) as (b & Hb & Hload); [lia|].
    destruct (holds_load r' _ (i + 1) Hr') as (b' & Hb' & Hload'); [lia|].
    rewrite lookup_app_r in Hb' by lia.
    replace (Z.to_nat (i + 1) - length (take (Z.to_nat k) bs))%nat
      with (S (Z.to_nat i - Z.to_nat k)) in Hb' by lia.
    rewrite lookup_cons_ne_0, Nat.pred_succ, lookup_drop in Hb' by done.
    replace (Z.to_nat k + (Z.to_nat i - Z.to_nat k))%nat
      with (Z.to_nat i) in Hb' by lia.
    exists b. split; [done|]. congruence.
Qed.

Lemma row_insert_char_preserves_neighbours_witness :
  holds plain_row plain_text
  ∧ ∃ r', editorRowInsertChar plain_row 1 120 = Some r'
          ∧ size r' = size plain_row + 1
          ∧ (∀ i, 0 <= i < 1 →
               ∃ b, load (chars plain_row) i = Some b
                    ∧ load (chars r') i = Some b)
          ∧ load (chars r') 1 = Some 120
          ∧ (∀ i, 1 <= i < size plain_row →
               ∃ b, load (chars plain_row) i = Some b
                    ∧ load (chars r') (i + 1) = Some b).
Proof.
  split; [split; reflexivity|].
  apply (row_insert_char_preserves_neighbours plain_row plain_text 1 120).
  - split; reflexivity.
  - cbn. lia.
  - lia.
  - by vm_compute.
Defined.

(** C10: [editorRowInsertChar] sends every offset outside [0, size], the
    negative ones included, to [size]: the call equals the one at offset
    [size], and the new text, which is to fit the [int] sizes of the
    source, is the old one with the byte at its end. *)
Theorem row_insert_char_out_of_range_appends
    (r : erow) (bs : list Z) (at_ c : Z) :
  holds r bs → at_ < 0 ∨ size r < at_ →
  text_fits (bs ++ [to_char c]) →
  ∃ r', editorRowInsertChar r at_ c = Some r'
        ∧ editorRowInsertChar r (size r) c = Some r'
        ∧ size r' = size r + 1
        ∧ holds r' (bs ++ [to_char c])
        ∧ load (chars r') (size r) = Some (to_char c).
Proof.
  intros Hr Hat _. pose proof Hr as [Hsize _].
  destruct (editorRowInsertChar_holds r bs at_ c Hr) as (r' & Hins & Hsz & Hr').
  destruct (editorRowInsertChar_holds r bs (size r) c Hr)
    as (r2 & Hins2 & _ & _).
  assert (Heq : editorRowInsertChar r (size r) c
                = editorRowInsertChar r at_ c).
  { rewrite !editorRowInsertChar_clamped, insert_offset_size.
    by rewrite insert_offset_out_of_range. }
  rewrite insert_offset_out_of_range in Hr' by done.
  rewrite Hsize, to_nat_len, take_ge, drop_ge in Hr' by lia.
  destruct Hr' as (Hr' & _).
  exists r'. split; [done|]. split; [congruence|]. split; [done|].
  split; [done|].
  pose proof (len_nonneg bs).
  destruct (holds_load r' _ (size r) Hr') as (b & Hb & Hload); [lia|].
  rewrite Hsize, to_nat_len, list_lookup_middle in Hb by done. congruence.
Qed.

Lemma row_insert_char_out_of_range_appends_witness :
  (∃ r', editorRowInsertChar plain_row (-1) 120 = Some r'
         ∧ editorRowInsertChar plain_row (size plain_row) 120 = Some r'
         ∧ size r' = size plain_row + 1
         ∧ holds r' (plain_text ++ [to_char 120])
         ∧ load (chars r') (size plain_row) = Some (to_char 120))
  ∧ (∃ r', editorRowInsertChar plain_row 7 120 = Some r'
         ∧ editorRowInsertChar plain_row (size plain_row) 120 = Some r'
         ∧ size r' = size plain_row + 1
         ∧ holds r' (plain_text ++ [to_char 120])
         ∧ load (chars r') (size plain_row) = Some (to_char 120)).
Proof.
  split.
  - apply (row_insert_char_out_of_range_appends plain_row plain_text (-1) 120).
    + split; reflexivity.
    + left. lia.
    + by vm_compute.
  - apply (row_insert_char_out_of_range_appends plain_row plain_text 7 120).
    + split; reflexivity.
    + right. cbn. lia.
    + by vm_compute.
Defined.

Lemma col_after_take_le (bs : list Z) (n m : nat) :
  (n <= m)%nat → col_after (take n bs) 0 <= col_after (take m bs) 0.
Proof.
  intros Hnm.
  replace (take n bs) with (take n (take m bs))
    by (rewrite take_take; f_equal; lia).
  rewrite <- (take_drop n (take m bs)) at 2.
  rewrite col_after_app. apply col_after_ge, col_after_ge. lia.
Qed.

Lemma col_after_nonneg (bs : list Z) : 0 <= col_after bs 0.
Proof. by apply col_after_ge. Qed.

(** One more byte of the row: the scan goes on from the column reached. *)
Lemma editorRowCxToRx_step (r : erow) (bs : list Z) (cx rx b : Z) :
  holds r bs → 0 <= cx < size r →
  editorRowCxToRx r cx = Some rx → load (chars r) cx = Some b →
  0 <= rx ∧ editorRowCxToRx r (cx + 1) = Some (next_col b rx).
Proof.
  intros Hr Hcx Hrx Hb.
  rewrite (editorRowCxToRx_holds r bs) in Hrx by (done || lia).
  injection Hrx as <-.
  destruct (holds_load r bs cx Hr Hcx) as (b' & Hb' & Hload).
  assert (b' = b) as -> by congruence.
  split; [apply col_after_nonneg|].
  rewrite (editorRowCxToRx_holds r bs) by (done || lia).
  replace (Z.to_nat (cx + 1)) with (S (Z.to_nat cx)) by lia.
  rewrite (take_S_r _ _ _ Hb'), col_after_app. reflexivity.
Qed.

(** C7: on a row that holds a text whose rendered length is an [int],
    [editorRowCxToRx] is non-decreasing
    in [cx] up to the size of the row; a tab met at rendered column [rx]
    moves the column to the next multiple of [EDIT_TAB_STOP] (from 0 to 8,
    from 5 to 8, from 8 to 16), and any other byte moves it by one. No
    column computed exceeds the rendered length. *)
Theorem cx_to_rx_monotone_tab_stops (r : erow) (bs : list Z) :
  holds r bs → len (expand bs) <= INT_MAX →
  (∀ cx1 cx2, cx1 <= cx2 → cx2 <= size r →
     ∃ rx1 rx2, editorRowCxToRx r cx1 = Some rx1
                ∧ editorRowCxToRx r cx2 = Some rx2
                ∧ 0 <= rx1 <= rx2 ∧ rx2 <= len (expand bs))
  ∧ (∀ cx rx, 0 <= cx < size r → editorRowCxToRx r cx = Some rx →
       (load (chars r) cx = Some TAB →
          editorRowCxToRx r (cx + 1)
          = Some (EDIT_TAB_STOP * (rx / EDIT_TAB_STOP + 1))
          ∧ (rx = 0 → editorRowCxToRx r (cx + 1) = Some 8)
          ∧ (rx = 5 → editorRowCxToRx r (cx + 1) = Some 8)
          ∧ (rx = 8 → editorRowCxToRx r (cx + 1) = Some 16))
       ∧ (∀ b, load (chars r) cx = Some b → b ≠ TAB →
            editorRowCxToRx r (cx + 1) = Some (rx + 1))).
Proof.
  intros Hr _. pose proof Hr as [Hsize _]. split.
  - intros cx1 cx2 H12 H2.
    destruct (Z.le_gt_cases cx2 0) as [Hneg|Hpos].
    { exists 0, 0. rewrite !editorRowCxToRx_nonpos by lia.
      pose proof (len_nonneg (expand bs)). repeat split; try done; lia. }
    exists (col_after (take (Z.to_nat cx1) bs) 0),
           (col_after (take (Z.to_nat cx2) bs) 0).
    split; [|split; [|split; [split|]]].
    + destruct (Z.le_gt_cases cx1 0).
      * rewrite editorRowCxToRx_nonpos by lia.
        by replace (Z.to_nat cx1) with 0%nat by lia.
      * apply editorRowCxToRx_holds; [done|lia].
    + apply editorRowCxToRx_holds; [done|lia].
    + apply col_after_nonneg.
    + apply col_after_take_le. lia.
    + rewrite len_expand. rewrite <- (firstn_all bs) at 2.
      apply col_after_take_le. unfold len in *. lia.
  - intros cx rx Hcx Hrx. split.
    + intros Htab.
      destruct (editorRowCxToRx_step r bs cx rx TAB Hr Hcx Hrx Htab)
        as [Hnn Hstep].
      rewrite Hstep, next_col_tab by done.
      split; [done|]. by repeat split; intros ->.
    + intros b Hb Hne.
      destruct (editorRowCxToRx_step r bs cx rx b Hr Hcx Hrx Hb)
        as [_ Hstep].
      by rewrite Hstep, next_col_other.
Qed.

Lemma cx_to_rx_monotone_tab_stops_witness :
  (∃ rx1 rx2, editorRowCxToRx sample_row 1 = Some rx1
              ∧ editorRowCxToRx sample_row 3 = Some rx2
              ∧ 0 <= rx1 <= rx2)
  ∧ editorRowCxToRx tabs_row 1 = Some 8
  ∧ editorRowCxToRx late_tab_row 6 = Some 8
  ∧ editorRowCxToRx tabs_row 2 = Some 16
  ∧ editorRowCxToRx sample_row 4 = Some (8 + 1).
Proof.
  split; [|split; [|split; [|split]]].
  - destruct (cx_to_rx_monotone_tab_stops sample_row sample_text)
      as [Hmono _]; [split; reflexivity|by vm_compute|].
    destruct (Hmono 1 3) as (rx1 & rx2 & H1 & H2 & H3 & _);
      [lia|cbn; lia|].
    exists rx1, rx2. split; [exact H1|]. split; [exact H2|exact H3].
  - destruct (cx_to_rx_monotone_tab_stops tabs_row [9; 9]) as [_ Hstep];
      [split; reflexivity|by vm_compute|].
    destruct (Hstep 0 0) as [Htab _]; [cbn; lia|reflexivity|].
    destruct Htab as (_ & H0 & _ & _); [reflexivity|]. by apply H0.
  - destruct (cx_to_rx_monotone_tab_stops late_tab_row
                [97; 98; 99; 100; 101; 9]) as [_ Hstep];
      [split; reflexivity|by vm_compute|].
    destruct (Hstep 5 5) as [Htab _]; [cbn; lia|reflexivity|].
    destruct Htab as (_ & _ & H5 & _); [reflexivity|]. by apply H5.
  - destruct (cx_to_rx_monotone_tab_stops tabs_row [9; 9]) as [_ Hstep];
      [split; reflexivity|by vm_compute|].
    destruct (Hstep 1 8) as [Htab _]; [cbn; lia|reflexivity|].
    destruct Htab as (_ & _ & _ & H8); [reflexivity|]. by apply H8.
  - destruct (cx_to_rx_monotone_tab_stops sample_row sample_text)
      as [_ Hstep]; [split; reflexivity|by vm_compute|].
    destruct (Hstep 3 8) as [_ Hother]; [cbn; lia|reflexivity|].
    apply (Hother 99); [reflexivity|discriminate].
Defined.

(** C8: for a row whose text has no tab (and fits the [int] sizes of
    the source), [editorUpdateRow] is defined and
    leaves a render form equal to the text, byte for byte, with [rsize]
    equal to [size]; and [editorRowCxToRx] is the identity on [0, size]. *)
Theorem no_tab_render_is_chars (r : erow) (bs : list Z) :
  holds r bs → TAB ∉ bs → text_fits bs →
  ∃ r', editorUpdateRow r = Some r'
        ∧ size r' = size r ∧ chars r' = chars r
        ∧ rsize r' = size r'
        ∧ take (Z.to_nat (rsize r')) (render r')
          = take (Z.to_nat (size r')) (chars r')
        ∧ (∀ i, 0 <= i < size r' →
             ∃ b, load (chars r') i = Some b ∧ load (render r') i = Some b)
        ∧ (∀ cx, 0 <= cx <= size r' → editorRowCxToRx r' cx = Some cx).
Proof.
  intros Hr Hno _.
  destruct (rendered_update r bs Hr) as (r' & Hup & Hrend & Hsz & Hch).
  pose proof Hrend as (Hr' & Hrsize & free & Hrender).
  pose proof Hr' as [Hsize' Hchars'].
  rewrite expand_no_tab_in in Hrsize, Hrender by done.
  exists r'. split; [done|]. split; [done|]. split; [done|].
  split; [congruence|]. split; [|split].
  - rewrite Hrsize, Hsize', Hrender, Hchars', to_nat_len.
    rewrite <- (length_fmap Some bs). by rewrite !take_app_length.
  - intros i Hi.
    destruct (holds_load r' bs i Hr' Hi) as (b & Hb & Hload).
    destruct (rendered_load r' bs i Hrend) as (b' & Hb' & Hload'); [lia|].
    rewrite expand_no_tab_in in Hb' by done.
    exists b. split; [done|]. congruence.
  - intros cx Hcx. rewrite (editorRowCxToRx_holds r' bs) by done.
    rewrite col_after_no_tab.
    + f_equal. unfold len in *. rewrite length_take. lia.
    + intros Hin. apply elem_of_take in Hin as (i & Hi & _).
      apply Hno. by eapply list_elem_of_lookup_2.
Qed.

Lemma no_tab_render_is_chars_witness :
  ∃ r', editorUpdateRow plain_row = Some r'
        ∧ size r' = size plain_row ∧ chars r' = chars plain_row
        ∧ rsize r' = size r'
        ∧ take (Z.to_nat (rsize r')) (render r')
          = take (Z.to_nat (size r')) (chars r')
        ∧ (∀ i, 0 <= i < size r' →
             ∃ b, load (chars r') i = Some b ∧ load (render r') i = Some b)
        ∧ (∀ cx, 0 <= cx <= size r' → editorRowCxToRx r' cx = Some cx).
Proof.
  apply (no_tab_render_is_chars plain_row plain_text).
  - split; reflexivity.
  - unfold plain_text, TAB. rewrite !not_elem_of_cons.
    repeat split; try discriminate. apply not_elem_of_nil.
  - by vm_compute.
Defined.

Lemma rendered_render_ok (r : erow) (bs : list Z) :
  rendered r bs → render_ok r.
Proof.
  intros Hrend. pose proof Hrend as (Hr & Hrsize & _).
  pose proof Hr as [Hsize _]. pose proof (len_nonneg bs).
  assert (Hfull : editorRowCxToRx r (size r) = Some (rsize r)).
  { rewrite (editorRowCxToRx_holds r bs) by (done || lia).
    rewrite Hsize, to_nat_len, take_ge, Hrsize, len_expand by done. done. }
  split; [|split; [done|]].
  - intros i Hi.
    destruct (rendered_load r bs i Hrend Hi) as (b & Hb & Hload).
    exists b. split; [done|]. intros ->.
    by eapply expand_no_tab_out, list_elem_of_lookup_2.
  - intros cx Hcx. eexists. split; [by apply editorRowCxToRx_holds|].
    split; [apply col_after_nonneg|].
    rewrite Hrsize, len_expand.
    pose proof (col_after_take_le bs (Z.to_nat cx) (length bs)) as Hle.
    rewrite (take_ge bs (length bs)) in Hle by done.
    apply Hle. unfold len in *. lia.
Qed.

(** C9: as long as the new text fits the [int] sizes of the source, the
    row [editorRowInsertChar] returns, and the row [editorAppendRow]
    adds, hold the new text in its rendered form ([rendered]) and satisfy
    [render_ok]: no tab in the render
    form, [rsize] equal to the rendered column of the end of the row, and
    the rendered column of every offset in [0, size] within [0, rsize]. *)
Theorem edited_rows_render_ok :
  (∀ (r : erow) (bs : list Z) (at_ c : Z),
     holds r bs →
     let text := take (Z.to_nat (insert_offset r at_)) bs
                 ++ to_char c :: drop (Z.to_nat (insert_offset r at_)) bs in
     text_fits text →
     ∃ r', editorRowInsertChar r at_ c = Some r'
           ∧ rendered r' text ∧ render_ok r')
  ∧ (∀ (s : list Z) (n : Z) (E : editorConfig),
       numrows E = len (row E) → 0 <= n <= len s →
       text_fits (take (Z.to_nat n) s) → numrows E + 1 <= INT_MAX →
       ∃ E' r, editorAppendRow s n E = Some E'
               ∧ numrows E' = numrows E + 1
               ∧ row_at E' (numrows E) = Some r
               ∧ rendered r (take (Z.to_nat n) s)
               ∧ render_ok r).
Proof.
  split.
  - intros r bs at_ c Hr text _.
    destruct (editorRowInsertChar_holds r bs at_ c Hr) as (r' & Hins & _ & Hr').
    exists r'. split; [done|]. split; [done|]. by eapply rendered_render_ok.
  - intros s n E Hnum Hn _ _.
    destruct (editorAppendRow_holds s n E Hnum Hn) as (r & Happ & Hrend).
    eexists _, r. split; [exact Happ|]. split; [done|].
    split; [|split; [done|by eapply rendered_render_ok]].
    unfold row_at. cbn [row set_row set_numrows]. rewrite Hnum.
    pose proof (len_nonneg (row E)).
    destruct (Z.ltb_spec (len (row E)) 0); [lia|].
    by rewrite to_nat_len, list_lookup_middle.
Qed.

Lemma edited_rows_render_ok_witness :
  (∃ r', editorRowInsertChar sample_row 2 9 = Some r'
         ∧ rendered r' [97; 98; 9; 9; 99] ∧ render_ok r')
  ∧ (∃ E' r, editorAppendRow [97; 9; 98; 10] 3 (initEditor 24 80) = Some E'
             ∧ numrows E' = numrows (initEditor 24 80) + 1
             ∧ row_at E' (numrows (initEditor 24 80)) = Some r
             ∧ rendered r [97; 9; 98]
             ∧ render_ok r).
Proof.
  destruct edited_rows_render_ok as [Hins Happ]. split.
  - apply (Hins sample_row sample_text 2 9); [split; reflexivity|].
    by vm_compute.
  - apply (Happ [97; 9; 98; 10] 3 (initEditor 24 80)).
    + reflexivity.
    + unfold len. cbn [length]. lia.
    + by vm_compute.
    + by vm_compute.
Defined.

(** * The editor state *)

Lemma editorMoveCursor_parts (key : Z) (E : editorConfig) :
  editorMoveCursor key E = E1 ← move_switch key E; clamp_cx E1.
Proof. reflexivity. Qed.

Lemma rendered_size_nonneg (r : erow) (bs : list Z) :
  rendered r bs → 0 <= size r.
Proof. intros [[-> _] _]. apply len_nonneg. Qed.

Lemma row_at_Some (E : editorConfig) (i : Z) (r : erow) :
  rows_ok E → row_at E i = Some r →
  0 <= i < numrows E ∧ ∃ bs, rendered r bs.
Proof.
  intros [Hnum Hall] Hr. unfold row_at in Hr.
  destruct (Z.ltb_spec i 0); [done|].
  pose proof (lookup_lt_Some _ _ _ Hr). split; [unfold len in *; lia|].
  rewrite Forall_lookup in Hall. by eapply Hall.
Qed.

Lemma row_at_defined (E : editorConfig) (i : Z) :
  rows_ok E → 0 <= i < numrows E → ∃ r, row_at E i = Some r.
Proof.
  intros [Hnum _] Hi. unfold row_at.
  destruct (Z.ltb_spec i 0); [lia|].
  apply lookup_lt_is_Some_2. unfold len in *. lia.
Qed.

Lemma row_at_None (E : editorConfig) (i : Z) :
  rows_ok E → numrows E <= i → row_at E i = None.
Proof.
  intros [Hnum _] Hi. unfold row_at.
  destruct (Z.ltb_spec i 0); [done|].
  apply lookup_ge_None_2. unfold len in *. lia.
Qed.

Lemma row_at_same_rows (E E' : editorConfig) (i : Z) :
  row E' = row E → row_at E' i = row_at E i.
Proof. intros H. unfold row_at. by rewrite H. Qed.

Lemma rows_ok_same_rows (E E' : editorConfig) :
  same_rows E E' → rows_ok E → rows_ok E'.
Proof. intros [Hrow Hnum] [H1 H2]. unfold rows_ok. by rewrite Hrow, Hnum. Qed.

Lemma clamp_cx_spec (E : editorConfig) :
  rows_ok E → 0 <= cx E → 0 <= cy E →
  ∃ E', clamp_cx E = Some E'
        ∧ cursor_ok E' ∧ cy E' = cy E ∧ cx E' <= cx E
        ∧ same_rows E E' ∧ same_view E E'.
Proof.
  intros Hrows Hcx Hcy. unfold clamp_cx.
  destruct (cy E >=? numrows E) eqn:Hge; zbool.
  - cbn [mbind option_bind].
    pose proof (row_at_None E (cy E) Hrows Hge) as Hnone.
    destruct (cx E >? 0) eqn:Hgt; zbool; eexists; (split; [reflexivity|]);
      unfold cursor_ok, same_rows, same_view, same_screen; fields;
      rewrite ?(row_at_same_rows E (set_cx E 0)) by done; rewrite Hnone;
      repeat split; try done; lia.
  - destruct (row_at_defined E (cy E) Hrows) as [r Hr]; [lia|].
    destruct (row_at_Some E _ r Hrows Hr) as [_ [bs Hrend]].
    pose proof (rendered_size_nonneg r bs Hrend).
    rewrite Hr. cbn [mbind option_bind].
    destruct (cx E >? size r) eqn:Hgt; zbool; eexists; (split; [reflexivity|]);
      unfold cursor_ok, same_rows, same_view, same_screen; fields;
      rewrite ?(row_at_same_rows E (set_cx E (size r))) by done; rewrite Hr;
      repeat split; try done; try lia; intros ? [= <-]; lia.
Qed.

Lemma move_switch_spec (key : Z) (E E1 : editorConfig) :
  rows_ok E → 0 <= cx E → 0 <= cy E →
  move_switch key E = Some E1 →
  0 <= cx E1 ∧ 0 <= cy E1 ∧ same_rows E E1 ∧ same_view E E1.
Proof.
  intros Hrows Hcx Hcy Hmove. unfold move_switch in Hmove.
  unfold same_rows, same_view, same_screen.
  repeat (repeat case_match; simplify_option_eq); zbool; fields;
    repeat match goal with
    | H : row_at ?E' _ = Some ?r |- _ =>
        apply (row_at_Some E) in H as [? [? ?%rendered_size_nonneg]];
          [|done]
    end;
    repeat split; try done; lia.
Qed.

(** Whatever the key, a defined [editorMoveCursor] leaves the cursor at
    an offset of its row (offset 0 below the last row), with [cy] not
    negative, and touches neither the rows nor the viewport. *)
Lemma editorMoveCursor_ok (key : Z) (E E' : editorConfig) :
  rows_ok E → 0 <= cx E → 0 <= cy E →
  editorMoveCursor key E = Some E' →
  cursor_ok E' ∧ same_rows E E' ∧ same_view E E'.
Proof.
  intros Hrows Hcx Hcy Hmove. rewrite editorMoveCursor_parts in Hmove.
  destruct (move_switch key E) as [E1|] eqn:Hswitch; [|done].
  cbn [mbind option_bind] in Hmove.
  destruct (move_switch_spec key E E1 Hrows Hcx Hcy Hswitch)
    as (Hcx1 & Hcy1 & Hrows1 & Hview1).
  destruct (clamp_cx_spec E1) as (E2 & Hclamp & Hcur & _ & _ & Hrows2 & Hview2);
    [by eapply rows_ok_same_rows|done|done|].
  assert (E2 = E') as -> by congruence.
  split; [done|]. unfold same_rows, same_view, same_screen in *.
  repeat split; intuition congruence.
Qed.

(** After any key, [editorMoveCursor] leaves [cx] within the row the
    cursor ends on, within 0 when it ends below the last row. *)
Lemma editorMoveCursor_clamps (key : Z) (E E' : editorConfig) :
  rows_ok E → 0 <= cx E → 0 <= cy E →
  editorMoveCursor key E = Some E' →
  0 <= cx E' <= row_size_at E' (cy E').
Proof.
  intros Hrows Hcx Hcy Hmove.
  destruct (editorMoveCursor_ok key E E' Hrows Hcx Hcy Hmove)
    as ((Hcx' & Hcy' & Hin & Hbelow) & Hsame & _).
  pose proof (rows_ok_same_rows E E' Hsame Hrows) as Hrows'.
  split; [done|]. unfold row_size_at.
  destruct (row_at E' (cy E')) as [r|] eqn:Hr; [by apply Hin|].
  destruct (Z_lt_le_dec (cy E') (numrows E')) as [Hlt|Hge].
  - destruct (row_at_defined E' (cy E') Hrows') as [r Hr']; [lia|congruence].
  - by rewrite Hbelow.
Qed.

Lemma move_times_ok (n : nat) (key : Z) (E E' : editorConfig) :
  rows_ok E → 0 <= cx E → 0 <= cy E →
  move_times (S n) key E = Some E' →
  cursor_ok E' ∧ same_rows E E' ∧ same_view E E'.
Proof.
  revert E. induction n as [|n IH]; intros E Hrows Hcx Hcy Hmove.
  - cbn [move_times] in Hmove.
    destruct (editorMoveCursor key E) as [E1|] eqn:H1; [|done].
    cbn in Hmove. injection Hmove as <-. by eapply editorMoveCursor_ok.
  - change (move_times (S (S n)) key E)
      with (E1 ← editorMoveCursor key E; move_times (S n) key E1) in Hmove.
    destruct (editorMoveCursor key E) as [E1|] eqn:H1; [|done].
    cbn [mbind option_bind] in Hmove.
    destruct (editorMoveCursor_ok key E E1 Hrows Hcx Hcy H1)
      as ((Hcx1 & Hcy1 & _) & Hrows1 & Hview1).
    destruct (IH E1) as (Hcur & Hrows2 & Hview2);
      [by eapply rows_ok_same_rows|done|done|done|].
    split; [done|]. unfold same_rows, same_view, same_screen in *.
    repeat split; intuition congruence.
Qed.

(** * The viewport *)

Lemma editorScroll_parts (E : editorConfig) :
  editorScroll E = rxv ← cursor_rx E; Some (scroll_offsets (set_rx E rxv)).
Proof.
  unfold editorScroll, cursor_rx. fields.
  destruct (cy E <? numrows E); [|reflexivity].
  unfold row_at. fields.
  destruct (if cy E <? 0 then None else row E !! Z.to_nat (cy E)) as [r|];
    [|reflexivity].
  cbn [mbind option_bind]. by destruct (editorRowCxToRx r (cx E)).
Qed.

Lemma cursor_rx_defined (E : editorConfig) :
  rows_ok E → cursor_ok E → ∃ rxv, cursor_rx E = Some rxv ∧ 0 <= rxv.
Proof.
  intros Hrows (Hcx & Hcy & Hin & _). unfold cursor_rx.
  destruct (cy E <? numrows E) eqn:Hlt; zbool; [|exists 0; done].
  destruct (row_at_defined E (cy E) Hrows) as [r Hr]; [lia|].
  destruct (row_at_Some E _ r Hrows Hr) as [_ [bs [Hholds _]]].
  rewrite Hr. cbn [mbind option_bind].
  rewrite (editorRowCxToRx_holds r bs)
    by first [done | split; [done|by apply Hin]].
  eexists. split; [done|]. apply col_after_nonneg.
Qed.

(** [editorScroll] is defined on every state with sound rows and a cursor
    at an offset of its row; it moves only [rx] and the two offsets, and
    an offset that was not negative stays so. *)
Lemma editorScroll_spec (E : editorConfig) :
  rows_ok E → cursor_ok E →
  ∃ E', editorScroll E = Some E'
        ∧ cx E' = cx E ∧ cy E' = cy E ∧ Some (rx E') = cursor_rx E
        ∧ 0 <= rx E'
        ∧ same_rows E E' ∧ same_screen E E'
        ∧ (0 <= rowoff E → 0 <= rowoff E')
        ∧ (0 <= coloff E → 0 <= coloff E')
        ∧ (1 <= screenrows E → 1 <= screencols E →
             rowoff E' <= cy E' < rowoff E' + screenrows E'
             ∧ coloff E' <= rx E' < coloff E' + screencols E').
Proof.
  intros Hrows Hcur.
  destruct (cursor_rx_defined E Hrows Hcur) as (rxv & Hrx & Hnn).
  rewrite editorScroll_parts, Hrx. cbn [mbind option_bind].
  eexists. split; [reflexivity|].
  destruct Hcur as (Hcx & Hcy & _). clear Hrx Hrows.
  destruct E as [cx0 cy0 rx0 ro co sr sc nr rows].
  unfold scroll_offsets, same_rows, same_screen. fields.
  repeat split_if; zbool; repeat split; try done; lia.
Qed.

Lemma cursor_rx_nonneg (E : editorConfig) (rxv : Z) :
  cursor_rx E = Some rxv → 0 <= rxv.
Proof.
  unfold cursor_rx. intros H.
  destruct (cy E <? numrows E); [|by injection H as <-].
  destruct (row_at E (cy E)) as [r|]; [|done].
  by eapply editorRowCxToRx_nonneg.
Qed.

(** [editorScroll] reads [E.row[E.cy]] whenever [cy < numrows]: with a
    row count that is not negative, it is defined only if [cy] is not
    negative either. *)
Lemma cursor_rx_cy (E : editorConfig) (rxv : Z) :
  cursor_rx E = Some rxv → 0 <= numrows E → 0 <= cy E.
Proof.
  unfold cursor_rx, row_at. intros H Hnum.
  destruct (cy E <? numrows E) eqn:Hlt; zbool; [|lia].
  destruct (cy E <? 0) eqn:Hneg; zbool; [done|lia].
Qed.

(** Whatever the state, when [editorScroll] is defined it leaves the
    cursor inside a viewport of at least one row and one column, and
    offsets that were not negative stay so (for [rowoff], as long as the
    row count is not negative). *)
Lemma editorScroll_any_state (E E' : editorConfig) :
  editorScroll E = Some E' →
  cy E' = cy E ∧ Some (rx E') = cursor_rx E
  ∧ (1 <= screenrows E → 1 <= screencols E →
       rowoff E' <= cy E' < rowoff E' + screenrows E'
       ∧ coloff E' <= rx E' < coloff E' + screencols E')
  ∧ (0 <= numrows E → 0 <= rowoff E → 0 <= rowoff E')
  ∧ (0 <= coloff E → 0 <= coloff E').
Proof.
  rewrite editorScroll_parts. intros H.
  destruct (cursor_rx E) as [rxv|] eqn:Hrx; [|done]. injection H as <-.
  pose proof (cursor_rx_nonneg E rxv Hrx) as Hnn.
  pose proof (cursor_rx_cy E rxv Hrx) as Hcy. clear Hrx.
  destruct E as [cx0 cy0 rx0 ro co sr sc nr rows].
  unfold scroll_offsets. fields.
  repeat split_if; zbool; repeat split; try done; lia.
Qed.

Lemma sample_row_rendered : rendered sample_row sample_text.
Proof.
  split; [split; reflexivity|]. split; [reflexivity|].
  by exists [None; None].
Qed.

Lemma scroll_sample_rows_ok : rows_ok scroll_sample.
Proof.
  split; [reflexivity|]. repeat constructor.
  exists sample_text. apply sample_row_rendered.
Qed.

Lemma scroll_sample_cursor_ok : cursor_ok scroll_sample.
Proof.
  unfold cursor_ok, scroll_sample. fields.
  repeat split; try lia. intros r [= <-]. cbn. lia.
Qed.

Lemma rows_fit_intro (E : editorConfig) :
  Forall (λ r, ∀ bs, holds r bs → text_fits bs) (row E) → rows_fit E.
Proof.
  intros Hall i bs (r & Hr & Hh). unfold row_at in Hr.
  destruct (i <? 0); [done|].
  rewrite Forall_lookup in Hall. eauto.
Qed.

Lemma scroll_sample_fits : refresh_fits scroll_sample.
Proof.
  split; [|split].
  - split; [|split].
    + unfold int_fields, int_range, scroll_sample. fields.
      repeat split; lia.
    + intros rxv Hrx. vm_compute in Hrx. injection Hrx as <-.
      unfold int_range. lia.
    + unfold int_range, scroll_sample. fields. lia.
  - apply rows_fit_intro. repeat constructor. intros bs Hh.
    assert (Hs : holds sample_row sample_text) by (split; reflexivity).
    rewrite (holds_unique _ _ _ Hh Hs). by vm_compute.
  - unfold int_range, scroll_sample. fields.
    repeat split; try lia. by vm_compute.
Qed.

(** With these ranges what [editorScroll] stores are [int]s again. *)
Lemma editorScroll_int_fields (E E' : editorConfig) :
  1 <= screenrows E → 1 <= screencols E → scroll_fits E →
  editorScroll E = Some E' → int_fields E'.
Proof.
  intros Hsr Hsc (Hint & Hrx & Hrow & Hcol). rewrite editorScroll_parts.
  intros H. destruct (cursor_rx E) as [rxv|] eqn:Hc; [|done].
  specialize (Hrx rxv eq_refl). injection H as <-.
  destruct E as [cx0 cy0 rx0 ro co sr sc nr rows].
  unfold scroll_offsets, int_fields, int_range in *. fields.
  repeat split_if; zbool; fields; repeat split; lia.
Qed.

(** C3: on a state with at least one screen row and one screen column,
    on which the sums [rowoff + screenrows] and [coloff + screencols]
    and the rendered column of the cursor are [int]s,
    [editorScroll] is defined when the rows are sound and the cursor is at
    an offset of its row; and whenever it is defined
    it leaves [rowoff <= cy < rowoff + screenrows] and
    [coloff <= rx < coloff + screencols], where [rx] is the rendered
    column of the cursor, keeps offsets that were not negative so
    (the row count [numrows] being, as a count, not negative), and
    stores [int]s. *)
Theorem scroll_keeps_cursor_in_viewport (E : editorConfig) :
  1 <= screenrows E → 1 <= screencols E → scroll_fits E →
  (rows_ok E → cursor_ok E → ∃ E', editorScroll E = Some E')
  ∧ (∀ E', editorScroll E = Some E' →
       cy E' = cy E ∧ Some (rx E') = cursor_rx E
       ∧ rowoff E' <= cy E' < rowoff E' + screenrows E'
       ∧ coloff E' <= rx E' < coloff E' + screencols E'
       ∧ (0 <= numrows E → 0 <= rowoff E → 0 <= rowoff E')
       ∧ (0 <= coloff E → 0 <= coloff E')
       ∧ int_fields E').
Proof.
  intros Hsr Hsc Hfits. split.
  - intros Hrows Hcur.
    destruct (editorScroll_spec E Hrows Hcur) as (E' & Hdef & _). eauto.
  - intros E' Hdef.
    destruct (editorScroll_any_state E E' Hdef) as (Hcy & Hrx & Hin & Hro & Hco).
    destruct (Hin Hsr Hsc) as [H1 H2].
    pose proof (editorScroll_int_fields E E' Hsr Hsc Hfits Hdef).
    done.
Qed.

Lemma scroll_keeps_cursor_in_viewport_witness :
  ∃ E', editorScroll scroll_sample = Some E'
        ∧ rowoff E' <= cy E' < rowoff E' + screenrows E'
        ∧ coloff E' <= rx E' < coloff E' + screencols E'
        ∧ 0 <= rowoff E' ∧ 0 <= coloff E'.
Proof.
  destruct (scroll_keeps_cursor_in_viewport scroll_sample)
    as [Hdef Hafter]; [cbn; lia|cbn; lia|apply scroll_sample_fits|].
  destruct Hdef as [E' HE'];
    [apply scroll_sample_rows_ok|apply scroll_sample_cursor_ok|].
  exists E'. split; [exact HE'|].
  destruct (Hafter E' HE') as (_ & _ & Hrow & Hcol & Hro & Hco & _).
  split; [exact Hrow|]. split; [exact Hcol|].
  split; [apply Hro|apply Hco]; cbn; lia.
Defined.

(** * Inserting a character *)

Lemma rows_ok_insert (E : editorConfig) (i : nat) (r : erow) (bs : list Z) :
  rows_ok E → rendered r bs → rows_ok (set_row E (<[i := r]> (row E))).
Proof.
  intros [Hnum Hall] Hr. split; fields.
  - unfold len. by rewrite length_insert.
  - apply Forall_insert; eauto.
Qed.

(** [editorInsertChar] with the cursor on the line below the last row:
    a row is appended, and it then holds the one byte. *)
Lemma editorInsertChar_below (c : Z) (E : editorConfig) :
  rows_ok E → cy E = numrows E →
  ∃ r', editorInsertChar c E
        = Some (set_cx (set_numrows (set_row E (row E ++ [r']))
                                    (numrows E + 1))
                       (cx E + 1))
        ∧ rendered r' [to_char c] ∧ size r' = 1.
Proof.
  intros Hrows Hcy. pose proof Hrows as [Hnum Hall].
  unfold editorInsertChar. rewrite Hcy, Z.eqb_refl.
  destruct (editorAppendRow_holds [NUL] 0 E Hnum) as (r0 & Happ & Hr0).
  { unfold len. cbn [length]. lia. }
  rewrite Happ. cbn [mbind option_bind]. fields.
  pose proof (len_nonneg (row E)).
  unfold row_at. fields. rewrite !Hcy, !Hnum.
  destruct (Z.ltb_spec (len (row E)) 0); [lia|].
  rewrite to_nat_len, list_lookup_middle by done. cbn [mbind option_bind].
  destruct Hr0 as [Hh0 _]. cbn [take Z.to_nat] in Hh0.
  destruct (editorRowInsertChar_holds r0 [] (cx E) c Hh0)
    as (r' & Hins & Hsz & Hr').
  rewrite take_nil, drop_nil in Hr'. cbn [app] in Hr'.
  rewrite Hins. cbn [mbind option_bind].
  exists r'. split; [|split; [done|]].
  - rewrite insert_app_r_alt, Nat.sub_diag by lia. done.
  - destruct Hh0 as [Hs0 _]. rewrite Hsz, Hs0. reflexivity.
Qed.

(** [editorInsertChar] with the cursor on a row: the row is replaced by
    the one [editorRowInsertChar] returns. *)
Lemma editorInsertChar_on_row (c : Z) (E : editorConfig) (r : erow) :
  rows_ok E → cy E ≠ numrows E → row_at E (cy E) = Some r →
  ∃ r' bs', editorRowInsertChar r (cx E) c = Some r'
        ∧ editorInsertChar c E
          = Some (set_cx (set_row E (<[Z.to_nat (cy E) := r']> (row E)))
                         (cx E + 1))
        ∧ rendered r' bs' ∧ size r' = size r + 1.
Proof.
  intros Hrows Hcy Hr.
  destruct (row_at_Some E _ r Hrows Hr) as [Hrange [bs [Hh _]]].
  destruct (editorRowInsertChar_holds r bs (cx E) c Hh)
    as (r' & Hins & Hsz & Hr').
  exists r'. eexists. split; [done|]. split; [|split; [exact Hr'|done]].
  unfold editorInsertChar.
  destruct (Z.eqb_spec (cy E) (numrows E)); [done|].
  cbn [mbind option_bind]. rewrite Hr. cbn [mbind option_bind].
  by rewrite Hins.
Qed.

(** Whenever [editorInsertChar] is defined, [cx] is one more than before
    and [cy] and the viewport are as before. *)
Lemma editorInsertChar_advances (c : Z) (E E' : editorConfig) :
  editorInsertChar c E = Some E' →
  cx E' = cx E + 1 ∧ cy E' = cy E ∧ same_view E E'.
Proof.
  unfold editorInsertChar, editorAppendRow. intros H.
  unfold same_view, same_screen.
  destruct (cy E =? numrows E); simplify_option_eq;
    repeat case_match; simplify_option_eq; fields; done.
Qed.

(** [editorInsertChar] keeps a sound state sound, when it is defined. *)
Lemma editorInsertChar_ok (c : Z) (E E' : editorConfig) :
  rows_ok E → cursor_ok E → editorInsertChar c E = Some E' →
  rows_ok E' ∧ cursor_ok E'.
Proof.
  intros Hrows (Hcx & Hcy & Hin & Hbelow) Hins.
  pose proof Hrows as [Hnum Hall].
  destruct (Z.eq_dec (cy E) (numrows E)) as [Heq|Hne].
  - destruct (editorInsertChar_below c E Hrows Heq) as (r' & Hdef & Hr' & Hsz).
    rewrite Hdef in Hins. injection Hins as <-.
    assert (Hrows' : rows_ok
              (set_cx (set_numrows (set_row E (row E ++ [r'])) (numrows E + 1))
                      (cx E + 1))).
    { split; fields.
      - rewrite Hnum. unfold len. rewrite length_app. cbn [length]. lia.
      - apply Forall_app. split; [done|]. repeat constructor. eauto. }
    split; [done|]. unfold cursor_ok. fields.
    split; [lia|]. split; [done|]. split; [|lia].
    intros r. unfold row_at. fields. rewrite Heq, Hnum.
    pose proof (len_nonneg (row E)).
    destruct (Z.ltb_spec (len (row E)) 0); [lia|].
    rewrite to_nat_len, list_lookup_middle by done.
    intros [= <-]. rewrite Hbelow by lia. lia.
  - unfold editorInsertChar in Hins.
    destruct (Z.eqb_spec (cy E) (numrows E)); [done|].
    cbn [mbind option_bind] in Hins.
    destruct (row_at E (cy E)) as [r|] eqn:Hr; [|done].
    destruct (editorInsertChar_on_row c E r Hrows Hne Hr)
      as (r' & bs' & Hrins & Hdef & Hr' & Hsz).
    cbn [mbind option_bind] in Hins. rewrite Hrins in Hins.
    cbn [mbind option_bind] in Hins. injection Hins as <-.
    destruct (row_at_Some E _ r Hrows Hr) as [Hrange _].
    split.
    + apply (rows_ok_same_rows
               (set_row E (<[Z.to_nat (cy E) := r']> (row E)))); [done|].
      by eapply rows_ok_insert.
    + unfold cursor_ok. fields. split; [lia|]. split; [done|].
      split; [|lia].
      intros r2. unfold row_at. fields.
      destruct (Z.ltb_spec (cy E) 0); [lia|].
      rewrite list_lookup_insert_eq by (unfold len in *; lia).
      intros [= <-]. specialize (Hin r eq_refl). lia.
Qed.

Lemma editorProcessKey_default (c : Z) (E : editorConfig) :
  handled_key c = false →
  editorProcessKey c E = of_option (editorInsertChar c E).
Proof.
  unfold handled_key, editorProcessKey. intros H.
  repeat (apply orb_false_iff in H as [H ?]).
  repeat match goal with
  | Hc : (c =? ?k) = false |- _ => rewrite Hc; clear Hc
  end.
  reflexivity.
Qed.

(** Any key without a [case] of its own goes to [editorInsertChar].
    With the cursor below the last row ([cy = numrows]) a row is appended
    first, so [numrows] grows by one, and the new last row then holds
    exactly the inserted byte; with the cursor on a row [numrows] stays.
    Whenever [editorInsertChar] is defined, [cx] ends one more than it
    was. Nothing is said here of a cursor further down, [cy > numrows]. *)
Lemma editorInsertChar_in_document (c : Z) (E : editorConfig) :
  rows_ok E →
  (handled_key c = false →
     editorProcessKey c E = of_option (editorInsertChar c E))
  ∧ (cy E = numrows E →
       ∃ E' r', editorInsertChar c E = Some E'
                ∧ numrows E' = numrows E + 1
                ∧ row E' = row E ++ [r']
                ∧ holds r' [to_char c]
                ∧ cx E' = cx E + 1)
  ∧ (0 <= cy E < numrows E →
       ∃ E', editorInsertChar c E = Some E'
             ∧ numrows E' = numrows E
             ∧ cx E' = cx E + 1)
  ∧ (∀ E', editorInsertChar c E = Some E' → cx E' = cx E + 1).
Proof.
  intros Hrows. split; [apply editorProcessKey_default|].
  split; [|split].
  - intros Hcy.
    destruct (editorInsertChar_below c E Hrows Hcy) as (r' & Hdef & Hr' & _).
    eexists _, r'. split; [exact Hdef|]. fields.
    destruct Hr' as [Hh _]. done.
  - intros Hcy.
    destruct (row_at_defined E (cy E) Hrows Hcy) as [r Hr].
    destruct (editorInsertChar_on_row c E r Hrows) as (r' & bs' & _ & Hdef & _);
      [lia|done|].
    eexists. split; [exact Hdef|]. fields. done.
  - intros E' Hdef. by destruct (editorInsertChar_advances c E E' Hdef).
Qed.

Lemma init_rows_ok (ws_row ws_col : Z) : rows_ok (initEditor ws_row ws_col).
Proof. split; [reflexivity|constructor]. Qed.

(** * Sessions *)

(** A refresh keeps a sound state sound, and is defined on it. *)
Lemma editorRefreshScreen_ok (E : editorConfig) :
  state_ok E →
  ∃ E', editorRefreshScreen E = Some E' ∧ state_ok E'
        ∧ (1 <= screencols E → rowoff E' <= cy E').
Proof.
  intros (Hrows & Hcur & Hro & Hco & Hsr).
  destruct (editorScroll_spec E Hrows Hcur)
    as (E' & Hdef & Hcx & Hcy & _ & _ & Hsame & [Hsr' Hsc'] & Hro' & Hco' & Hv).
  exists E'. split; [done|].
  assert (Hrows' : rows_ok E') by (by eapply rows_ok_same_rows).
  split.
  - split; [done|]. split.
    + destruct Hcur as (H1 & H2 & H3 & H4). destruct Hsame as [Hr Hn].
      unfold cursor_ok. rewrite Hcx, Hcy, Hn.
      rewrite (row_at_same_rows E E') by done. done.
    + unfold view_ok. rewrite Hsr'. auto.
  - intros Hsc. destruct (Hv Hsr Hsc) as [? _]. lia.
Qed.

Lemma of_option_Running (o : option editorConfig) (E : editorConfig) :
  of_option o = Running E → o = Some E.
Proof. destruct o; [by intros [= ->]|done]. Qed.

Lemma numrows_nonneg (E : editorConfig) : rows_ok E → 0 <= numrows E.
Proof. intros [-> _]. apply len_nonneg. Qed.

(** Every key that leaves the session running leaves a sound state. *)
Lemma editorProcessKey_ok (c : Z) (E E' : editorConfig) :
  state_ok E → editorProcessKey c E = Running E' → state_ok E'.
Proof.
  intros (Hrows & Hcur & Hview) Hkey.
  pose proof Hcur as (Hcx & Hcy & Hin & Hbelow).
  pose proof Hview as (Hro & Hco & Hsr).
  pose proof (numrows_nonneg E Hrows) as Hnum.
  unfold editorProcessKey in Hkey.
  destruct (c =? CTRL_KEY (ch "q")); [done|].
  destruct (c =? HOME_KEY).
  { injection Hkey as <-. split; [done|]. split; [|done].
    unfold cursor_ok. fields. rewrite (row_at_same_rows E (set_cx E 0)) by done.
    repeat split; try done. intros r Hr.
    destruct (row_at_Some E _ r Hrows Hr) as [_ [bs Hb]].
    by eapply rendered_size_nonneg. }
  destruct (c =? END_KEY).
  { destruct (cy E <? numrows E) eqn:Hlt; [|by injection Hkey as <-].
    apply of_option_Running in Hkey.
    destruct (row_at E (cy E)) as [r|] eqn:Hr; [|done].
    cbn in Hkey. injection Hkey as <-. zbool.
    destruct (row_at_Some E _ r Hrows Hr) as [_ [bs Hb]].
    pose proof (rendered_size_nonneg r bs Hb).
    split; [done|]. split; [|done]. unfold cursor_ok. fields.
    rewrite (row_at_same_rows E (set_cx E (size r))), Hr by done.
    repeat split; try done; try lia. by intros ? [= <-]. }
  destruct ((c =? PAGE_DOWN) || (c =? PAGE_UP)).
  { set (E1 := if c =? PAGE_UP then set_cy E (rowoff E)
               else if c =? PAGE_DOWN then
                 let E0 := set_cy E (rowoff E + screenrows E - 1) in
                 if cy E0 >? numrows E0 then set_cy E0 (numrows E0)
                 else E0
               else E) in *.
    assert (H1 : same_rows E E1 ∧ same_view E E1 ∧ cx E1 = cx E ∧ 0 <= cy E1).
    { subst E1. unfold same_rows, same_view, same_screen.
      repeat split_if; zbool; fields; repeat split; try done; lia. }
    destruct H1 as (Hrows1 & Hview1 & Hcx1 & Hcy1).
    pose proof Hview1 as (_ & _ & Hsr1 & _).
    rewrite Hsr1 in Hkey.
    destruct (screenrows E <? 0) eqn:Hneg; [done|].
    apply of_option_Running in Hkey.
    replace (Z.to_nat (screenrows E)) with (S (Z.to_nat (screenrows E - 1)))
      in Hkey by lia.
    apply move_times_ok in Hkey as (Hcur' & Hrows' & Hview');
      [|by eapply rows_ok_same_rows|lia|done].
    split; [eapply rows_ok_same_rows; [exact Hrows'|]
           |split; [done|]].
    - by eapply rows_ok_same_rows.
    - unfold view_ok, same_view, same_screen in *.
      repeat split; intuition congruence. }
  destruct ((c =? ARROW_UP) || (c =? ARROW_DOWN)
            || (c =? ARROW_LEFT) || (c =? ARROW_RIGHT)).
  { apply of_option_Running in Hkey.
    apply editorMoveCursor_ok in Hkey as (Hcur' & Hrows' & Hview'); try done.
    split; [by eapply rows_ok_same_rows|split; [done|]].
    unfold view_ok, same_view, same_screen in *.
    repeat split; intuition congruence. }
  apply of_option_Running in Hkey.
  destruct (editorInsertChar_ok c E E' Hrows Hcur Hkey) as [Hrows' Hcur'].
  destruct (editorInsertChar_advances c E E' Hkey) as (_ & _ & Hview').
  split; [done|split; [done|]].
  unfold view_ok, same_view, same_screen in *.
  repeat split; intuition congruence.
Qed.

Lemma loaded_state_ok (ws_row ws_col : Z) (E : editorConfig) :
  3 <= ws_row → loaded ws_row ws_col E →
  state_ok E ∧ cx E = 0 ∧ cy E = 0.
Proof.
  intros Hws Hload. induction Hload as [|E E' s n _ IH Hn Happ].
  - split; [|done]. split; [apply init_rows_ok|].
    unfold cursor_ok, view_ok, initEditor. fields.
    repeat split; try done; lia.
  - destruct IH as ((Hrows & Hcur & Hview) & Hcx & Hcy).
    pose proof Hrows as [Hnum Hall].
    destruct (editorAppendRow_holds s n E Hnum Hn) as (r & Hdef & Hr).
    rewrite Hdef in Happ. injection Happ as <-. fields.
    assert (Hrows' : rows_ok (set_numrows (set_row E (row E ++ [r]))
                                          (numrows E + 1))).
    { split; fields.
      - rewrite Hnum. unfold len. rewrite length_app. cbn [length]. lia.
      - apply Forall_app. split; [done|]. repeat constructor. eauto. }
    split; [|done]. split; [done|]. split; [|done].
    unfold cursor_ok. fields. rewrite Hcx, Hcy.
    split; [done|]. split; [done|]. split; [|done].
    intros r0 Hr0.
    destruct (row_at_Some _ _ r0 Hrows' Hr0) as [_ [bs Hb]].
    by eapply rendered_size_nonneg.
Qed.

(** Every state at the top of the loop of [main] is sound, in a window
    of at least three rows. *)
Lemma reachable_state_ok (ws_row ws_col : Z) (E : editorConfig) :
  3 <= ws_row → reachable ws_row ws_col E → state_ok E.
Proof.
  intros Hws Hreach. induction Hreach as [E Hload|E E1 E' c _ IH Hscroll Hkey].
  - by destruct (loaded_state_ok ws_row ws_col E Hws Hload).
  - destruct (editorRefreshScreen_ok E IH) as (E1' & Hdef & Hok1 & _).
    assert (E1' = E1) as -> by congruence.
    by eapply editorProcessKey_ok.
Qed.

Lemma session_reachable (ws_row ws_col : Z) (keys : list Z)
    (E E' : editorConfig) :
  reachable ws_row ws_col E → session keys E = Running E' →
  reachable ws_row ws_col E'.
Proof.
  revert E. induction keys as [|c keys IH]; intros E Hreach Hrun.
  - by injection Hrun as <-.
  - cbn [session] in Hrun. unfold session_step in Hrun.
    destruct (editorRefreshScreen E) as [E1|] eqn:Hscroll; [|done].
    destruct (editorProcessKey c E1) as [E2| |] eqn:Hkey; try done.
    apply (IH E2); [|done]. by eapply reach_key.
Qed.

(** Rounds of [main] on raw input are a session over the keys that
    [editorReadKey] decodes from it. *)
Lemma main_loop_session (keys : list Z) (inp rest : input)
    (E E' : editorConfig) :
  decodes inp keys rest → session keys E = Running E' →
  main_loop (length keys) inp E = Some (Running E', rest).
Proof.
  intros Hdec. revert E.
  induction Hdec as [inp|inp mid rest c keys Hkey _ IH]; intros E Hrun.
  - by injection Hrun as <-.
  - cbn [session length main_loop] in *.
    unfold session_step, editorProcessKeypress in *.
    destruct (editorRefreshScreen E) as [E1|]; [|done].
    rewrite Hkey. destruct (editorProcessKey c E1) as [E2| |]; try done.
    by apply IH.
Qed.

(** ** ARROW_DOWN *)

(** [editorMoveCursor(ARROW_DOWN)] moves [cy] exactly when [cx] is below
    [numrows]: its test reads [E.cx < E.numrows]. *)
Lemma arrow_down_cy (E E' : editorConfig) :
  editorMoveCursor ARROW_DOWN E = Some E' →
  cy E' = if cx E <? numrows E then cy E + 1 else cy E.
Proof.
  unfold editorMoveCursor. change (ARROW_DOWN =? ARROW_LEFT) with false.
  change (ARROW_DOWN =? ARROW_RIGHT) with false.
  change (ARROW_DOWN =? ARROW_UP) with false.
  change (ARROW_DOWN =? ARROW_DOWN) with true. cbv iota.
  intros H. destruct (cx E <? numrows E); cbn [mbind option_bind] in H;
    repeat case_match; simplify_option_eq; fields; by split_if.
Qed.

(** C1: from the empty document in a 24 x 80 window, the keys [a],
    ARROW_RIGHT, ARROW_DOWN (the bytes [a], [0x1b [ C], [0x1b [ B] on the
    terminal) lead to a state at the top of the loop of [main] with
    [cy = 2] and [numrows = 1], outside the cursor invariant; typing one
    more character there indexes [E.row] out of bounds. *)
Theorem arrow_down_leaves_document :
  ∃ E, session [ch "a"; ARROW_RIGHT; ARROW_DOWN] (initEditor 24 80)
       = Running E
       ∧ main_loop 3 [Got (ch "a"); Got 27; Got (ch "["); Got (ch "C");
                      Got 27; Got (ch "["); Got (ch "B")]
                   (initEditor 24 80)
         = Some (Running E, [])
       ∧ reachable 24 80 E
       ∧ cy E = 2 ∧ numrows E = 1
       ∧ ¬ cursor_in_document E
       ∧ session [ch "a"; ARROW_RIGHT; ARROW_DOWN; ch "b"] (initEditor 24 80)
         = Undefined.
Proof.
  eexists. split; [vm_compute; reflexivity|].
  split; [vm_compute; reflexivity|].
  split; [|split; [reflexivity|split; [reflexivity|split]]].
  - apply (session_reachable 24 80 [ch "a"; ARROW_RIGHT; ARROW_DOWN]
             (initEditor 24 80)).
    + apply reach_loaded, loaded_init.
    + vm_compute. reflexivity.
  - intros [[_ H] _]. cbn in H. lia.
  - vm_compute. reflexivity.
Qed.

(** C5: the insert-character action does not advance [cx] in every
    case. In the state the keys [a], ARROW_RIGHT, ARROW_DOWN lead to from
    the empty document in a 24 x 80 window, a state at the top of the
    loop of [main] with [cy = 2] and [numrows = 1], [editorInsertChar]
    indexes [E.row] at [cy] without a row being there, whatever the byte:
    it has no defined result and the key [b] ends the session. The same
    happens below the document a 2-row window leads to with PAGE_UP. On
    the way to that state every refresh, drawing included, is defined,
    with the help message [main] sets and at any time. *)
Theorem insert_char_below_last_row :
  ∃ E E1,
    session [ch "a"; ARROW_RIGHT; ARROW_DOWN] (initEditor 24 80) = Running E
    ∧ reachable 24 80 E
    ∧ cy E = 2 ∧ numrows E = 1
    ∧ editorRefreshScreen E = Some E1
    ∧ row_at E1 (cy E1) = None
    ∧ (∀ c, editorInsertChar c E1 = None)
    ∧ editorProcessKey (ch "b") E1 = Undefined
    ∧ session [ch "a"; ARROW_RIGHT; ARROW_DOWN; ch "b"] (initEditor 24 80)
      = Undefined
    ∧ session [PAGE_UP; ch "b"] (initEditor 2 80) = Undefined
    ∧ (∀ (i : nat) (Ei : editorConfig) (t now : Z),
         session (take i [ch "a"; ARROW_RIGHT; ARROW_DOWN]) (initEditor 24 80)
         = Running Ei →
         ∃ Ei' frame,
           editorRefreshScreen_frame
             (editorSetStatusMessage (str "HELP: CTRL-Q = quit") t initStatus)
             now Ei = Some (Ei', frame)
           ∧ editorRefreshScreen Ei = Some Ei').
Proof.
  eexists _, _. split; [vm_compute; reflexivity|].
  split.
  { apply (session_reachable 24 80 [ch "a"; ARROW_RIGHT; ARROW_DOWN]
             (initEditor 24 80)).
    - apply reach_loaded, loaded_init.
    - vm_compute. reflexivity. }
  split; [reflexivity|]. split; [reflexivity|].
  split; [vm_compute; reflexivity|].
  split; [reflexivity|]. split; [intros c; reflexivity|].
  split; [reflexivity|]. split; [vm_compute; reflexivity|].
  split; [vm_compute; reflexivity|].
  intros i Ei t now Hrun.
  destruct i as [|[|[|i]]]; cbn [take] in Hrun; rewrite ?take_nil in Hrun;
    vm_compute in Hrun; injection Hrun as <-;
    unfold editorRefreshScreen_frame, editorDrawMessageBar;
    cbn [statusmsg_time editorSetStatusMessage];
    destruct (now - t <? 5); vm_compute; eexists _, _; split; reflexivity.
Qed.

(** C2: ARROW_DOWN tests [cx], not [cy], against [numrows]. With the
    cursor at the end of the only row [abc] ([cy = 0 < numrows = 1],
    [cx = 3]) it leaves [cy] at 0; with the cursor below the only row
    ([cy = numrows = 1], [cx = 0]) it moves [cy] to 2. Both states are
    reached from the empty document. *)
Theorem arrow_down_compares_cx_with_numrows :
  (∀ E E', editorMoveCursor ARROW_DOWN E = Some E' →
           cy E' = if cx E <? numrows E then cy E + 1 else cy E)
  ∧ session [ch "a"; ch "b"; ch "c"] (initEditor 24 80) = Running typed_abc
  ∧ cy typed_abc < numrows typed_abc
  ∧ (∃ E', editorMoveCursor ARROW_DOWN typed_abc = Some E'
           ∧ cy E' = cy typed_abc)
  ∧ session [ch "a"; ARROW_RIGHT] (initEditor 24 80) = Running below_a
  ∧ cy below_a = numrows below_a
  ∧ (∃ E', editorMoveCursor ARROW_DOWN below_a = Some E'
           ∧ cy E' = cy below_a + 1).
Proof.
  split; [apply arrow_down_cy|].
  split; [vm_compute; reflexivity|]. split; [cbn; lia|].
  split; [eexists; split; [vm_compute; reflexivity|reflexivity]|].
  split; [vm_compute; reflexivity|]. split; [reflexivity|].
  eexists; split; [vm_compute; reflexivity|reflexivity].
Qed.

(** * The key decoder *)

(** A known escape sequence at the head of the input is decoded to its
    key, and exactly its bytes are consumed. *)
Lemma editorReadKey_known (seq : list Z) (k : Z) (rest : input) :
  escape_table seq = Some k →
  editorReadKey (Got ESC :: (Got <$> seq) ++ rest) = Key k rest.
Proof.
  intros Htable. unfold escape_table in Htable.
  repeat case_match; simplify_eq; reflexivity.
Qed.

(** After [0x1b] the decoder always returns a key: the key of a known
    sequence at the head of the input, and the escape key otherwise. *)
Lemma editorReadKey_escape (rest : input) :
  ∃ k rest',
    editorReadKey (Got ESC :: rest) = Key k rest'
    ∧ (k = ESC
       ∨ ∃ seq, escape_table seq = Some k ∧ rest = (Got <$> seq) ++ rest').
Proof.
  unfold editorReadKey. cbn [wait_byte].
  change (char_value ESC =? ESC) with true. cbv iota.
  destruct rest as [|[seq0| | |] rest]; cbn [read];
    try (eexists _, _; split; [reflexivity|by left]).
  destruct rest as [|[seq1| | |] rest]; cbn [read];
    try (eexists _, _; split; [reflexivity|by left]).
  destruct (seq0 =? ch "[") eqn:H0; zbool; subst.
  - destruct ((seq1 >=? ch "0") && (seq1 <=? ch "9")) eqn:Hdigit.
    + destruct rest as [|[seq2| | |] rest]; cbn [read];
        try (eexists _, _; split; [reflexivity|by left]).
      repeat split_if; zbool; subst;
        (eexists _, _; split; [reflexivity|]);
        solve [ by left
              | right; eexists [_; _; _]; split; [|reflexivity]; reflexivity ].
    + repeat split_if; zbool; subst;
        (eexists _, _; split; [reflexivity|]);
        solve [ by left
              | right; eexists [_; _]; split; [|reflexivity]; reflexivity ].
  - repeat split_if; zbool; subst;
      (eexists _, _; split; [reflexivity|]);
      solve [ by left
            | right; eexists [_; _]; split; [|reflexivity]; reflexivity ].
Qed.

(** C6: [editorReadKey] decodes [0x1b [ A] to ARROW_UP, [0x1b [ 3 ~] to
    DEL_KEY, [0x1b [ H] to HOME_KEY, and [0x1b [ d ~] to HOME_KEY for [d]
    in 1, 7, DEL_KEY for 3, END_KEY for 4, 8, PAGE_UP for 5 and PAGE_DOWN
    for 6. After [0x1b] it never exits or blocks: when the input that
    follows does not start with a sequence of the table, a lone [0x1b]
    whose next [read] times out included, the key is [0x1b] itself. *)
Theorem read_key_decodes_escape_sequences (rest : input) :
  editorReadKey (Got 27 :: Got (ch "[") :: Got (ch "A") :: rest)
  = Key ARROW_UP rest
  ∧ editorReadKey (Got 27 :: Got (ch "[") :: Got (ch "3") :: Got (ch "~")
                   :: rest)
    = Key DEL_KEY rest
  ∧ editorReadKey (Got 27 :: Got (ch "[") :: Got (ch "H") :: rest)
    = Key HOME_KEY rest
  ∧ (∀ d, ch "0" <= d <= ch "9" →
          editorReadKey (Got 27 :: Got (ch "[") :: Got d :: Got (ch "~")
                         :: rest)
          = Key (if (d =? ch "1") || (d =? ch "7") then HOME_KEY
                 else if d =? ch "3" then DEL_KEY
                 else if (d =? ch "4") || (d =? ch "8") then END_KEY
                 else if d =? ch "5" then PAGE_UP
                 else if d =? ch "6" then PAGE_DOWN
                 else 27) rest)
  ∧ editorReadKey (Got 27 :: Timeout :: rest) = Key 27 rest
  ∧ editorReadKey [Got 27] = Key 27 []
  ∧ (∃ k rest', editorReadKey (Got 27 :: rest) = Key k rest'
                ∧ ((∀ seq tail, rest = (Got <$> seq) ++ tail →
                                escape_table seq = None)
                   → k = 27)).
Proof.
  repeat split; try reflexivity.
  - intros d Hd. unfold editorReadKey. cbn [wait_byte read].
    change (char_value 27 =? ESC) with true. change (ch "[" =? ch "[") with true.
    change (ch "~" =? ch "~") with true. cbv iota. eval_ch.
    destruct ((d >=? 48) && (d <=? 57)) eqn:Hdigit;
      repeat split_if; zbool; subst; try reflexivity; lia.
  - destruct (editorReadKey_escape rest) as (k & rest' & Hkey & Hk).
    exists k, rest'. split; [done|]. intros Hnone.
    destruct Hk as [->|(seq & Hseq & ->)]; [done|].
    specialize (Hnone seq rest' eq_refl). congruence.
Qed.

Lemma read_key_decodes_escape_sequences_witness :
  editorReadKey [Got 27; Got (ch "["); Got (ch "5"); Got (ch "~"); Got 120]
  = Key PAGE_UP [Got 120]
  ∧ ∃ k rest', editorReadKey [Got 27; Got (ch "["); Got (ch "2");
                              Got (ch "~"); Got 120]
               = Key k rest'
               ∧ k = 27.
Proof.
  split.
  - destruct (read_key_decodes_escape_sequences [Got 120])
      as (_ & _ & _ & Hdigit & _).
    apply (Hdigit (ch "5")). vm_compute. split; discriminate.
  - destruct (read_key_decodes_escape_sequences
                [Got (ch "["); Got (ch "2"); Got (ch "~"); Got 120])
      as (_ & _ & _ & _ & _ & _ & k & rest' & Hkey & Hesc).
    exists k, rest'. split; [exact Hkey|]. apply Hesc.
    intros seq tail Heq.
    destruct seq as [|b0 [|b1 [|b2 seq]]]; try reflexivity;
      cbn in Heq; simplify_eq; reflexivity.
Defined.

(** * What the operations leave alone *)

Lemma same_view_refl (E : editorConfig) : same_view E E.
Proof. by repeat split. Qed.

Lemma same_view_trans (E1 E2 E3 : editorConfig) :
  same_view E1 E2 → same_view E2 E3 → same_view E1 E3.
Proof.
  unfold same_view, same_screen. intros (? & ? & ? & ?) (? & ? & ? & ?).
  repeat split; congruence.
Qed.

Lemma same_rows_trans (E1 E2 E3 : editorConfig) :
  same_rows E1 E2 → same_rows E2 E3 → same_rows E1 E3.
Proof. unfold same_rows. intros [? ?] [? ?]. split; congruence. Qed.

Lemma editorMoveCursor_frame (key : Z) (E E' : editorConfig) :
  editorMoveCursor key E = Some E' → same_rows E E' ∧ same_view E E'.
Proof.
  unfold editorMoveCursor, same_rows, same_view, same_screen. intros H.
  repeat (repeat case_match; simplify_option_eq); fields; done.
Qed.

Lemma move_times_frame (n : nat) (key : Z) (E E' : editorConfig) :
  move_times n key E = Some E' → same_rows E E' ∧ same_view E E'.
Proof.
  revert E. induction n as [|n IH]; intros E H.
  - injection H as <-. split; [done|apply same_view_refl].
  - cbn [move_times] in H.
    destruct (editorMoveCursor key E) as [E1|] eqn:H1; [|done].
    cbn [mbind option_bind] in H.
    destruct (editorMoveCursor_frame key E E1 H1) as [Hr1 Hv1].
    destruct (IH E1 H) as [Hr2 Hv2].
    split; [by eapply same_rows_trans|by eapply same_view_trans].
Qed.

(** No key changes the viewport: only [editorScroll] moves the offsets. *)
Lemma editorProcessKey_frame (c : Z) (E E' : editorConfig) :
  editorProcessKey c E = Running E' → same_view E E'.
Proof.
  unfold editorProcessKey. intros H.
  destruct (c =? CTRL_KEY (ch "q")); [done|].
  destruct (c =? HOME_KEY); [injection H as <-; by repeat split|].
  destruct (c =? END_KEY).
  { destruct (cy E <? numrows E); [|injection H as <-; by repeat split].
    apply of_option_Running in H. simplify_option_eq. by repeat split. }
  destruct ((c =? PAGE_DOWN) || (c =? PAGE_UP)).
  { match type of H with
    | context [move_times _ _ ?E1] => set (E0 := E1) in *
    end.
    assert (H0 : same_view E E0).
    { subst E0. unfold same_view, same_screen.
      repeat split_if; fields; by repeat split. }
    destruct (screenrows E0 <? 0); [done|].
    apply of_option_Running, move_times_frame in H as [_ H].
    by eapply same_view_trans. }
  destruct ((c =? ARROW_UP) || (c =? ARROW_DOWN)
            || (c =? ARROW_LEFT) || (c =? ARROW_RIGHT)).
  { by apply of_option_Running, editorMoveCursor_frame in H as [_ H]. }
  by apply of_option_Running, editorInsertChar_advances in H as (_ & _ & H).
Qed.

Lemma editorScroll_frame (E E' : editorConfig) :
  editorScroll E = Some E' →
  cx E' = cx E ∧ cy E' = cy E ∧ same_rows E E' ∧ same_screen E E'.
Proof.
  rewrite editorScroll_parts. intros H.
  destruct (cursor_rx E) as [rxv|]; [|done]. injection H as <-.
  destruct E as [cx0 cy0 rx0 ro co sr sc nr rows].
  unfold scroll_offsets, same_rows, same_screen. fields.
  repeat split_if; by repeat split.
Qed.

Lemma editorAppendRow_frame (s : list Z) (n : Z) (E E' : editorConfig) :
  editorAppendRow s n E = Some E' →
  cx E' = cx E ∧ cy E' = cy E ∧ same_view E E'.
Proof.
  unfold editorAppendRow, same_view, same_screen. intros H.
  repeat (repeat case_match; simplify_option_eq); fields; done.
Qed.

(** The screen size never changes after [initEditor]. *)
Lemma reachable_screen (ws_row ws_col : Z) (E : editorConfig) :
  reachable ws_row ws_col E →
  screenrows E = ws_row - 2 ∧ screencols E = ws_col.
Proof.
  intros Hreach.
  induction Hreach as [E Hload|E E1 E' c _ [IH1 IH2] Hscroll Hkey].
  - induction Hload as [|E E' s n _ [IH1 IH2] _ Happ]; [done|].
    apply editorAppendRow_frame in Happ as (_ & _ & _ & _ & H1 & H2).
    split; congruence.
  - apply editorScroll_frame in Hscroll as (_ & _ & _ & H1 & H2).
    apply editorProcessKey_frame in Hkey as (_ & _ & H3 & H4).
    split; congruence.
Qed.

(** In a window of at least three rows and one column, [editorScroll]
    is defined at the top of every round of the loop of [main] and puts
    the cursor inside the viewport. *)
Lemma reachable_scroll_in_viewport (ws_row ws_col : Z) (E : editorConfig) :
  3 <= ws_row → 1 <= ws_col → reachable ws_row ws_col E →
  ∃ E', editorScroll E = Some E'
        ∧ rowoff E' <= cy E' < rowoff E' + screenrows E'
        ∧ coloff E' <= rx E' < coloff E' + screencols E'
        ∧ 0 <= rowoff E' ∧ 0 <= coloff E'.
Proof.
  intros Hrow Hcol Hreach.
  destruct (reachable_state_ok _ _ _ Hrow Hreach)
    as (Hrows & Hcur & Hro & Hco & _).
  destruct (reachable_screen _ _ _ Hreach) as [Hsr Hsc].
  destruct (editorScroll_spec E Hrows Hcur)
    as (E' & Hdef & _ & _ & _ & _ & _ & _ & Hro' & Hco' & Hview).
  destruct Hview as [H1 H2]; [lia|lia|].
  exists E'. repeat split; try done; auto; lia.
Qed.

(** * The cursor invariant away from ARROW_DOWN *)

Lemma cursor_in_document_intro (E : editorConfig) :
  rows_ok E → cursor_ok E → cy E <= numrows E → cursor_in_document E.
Proof.
  intros Hrows (Hcx & Hcy & Hin & Hbelow) Hle.
  split; [lia|]. split; [done|]. unfold row_size_at.
  destruct (row_at E (cy E)) as [r|] eqn:Hr; [by apply Hin|].
  destruct (Z_lt_le_dec (cy E) (numrows E)) as [Hlt|Hge].
  - destruct (row_at_defined E (cy E) Hrows) as [r Hr']; [lia|congruence].
  - rewrite Hbelow by done. done.
Qed.

Lemma editorMoveCursor_cy (key : Z) (E E' : editorConfig) :
  key ≠ ARROW_DOWN → cy E <= numrows E →
  editorMoveCursor key E = Some E' → cy E' <= numrows E'.
Proof.
  intros Hkey Hle. unfold editorMoveCursor. intros H.
  repeat (repeat case_match; simplify_option_eq); zbool; fields;
    try done; lia.
Qed.

Lemma move_times_cy (n : nat) (key : Z) (E E' : editorConfig) :
  key ≠ ARROW_DOWN → cy E <= numrows E →
  move_times n key E = Some E' → cy E' <= numrows E'.
Proof.
  intros Hkey. revert E. induction n as [|n IH]; intros E Hle H.
  - by injection H as <-.
  - cbn [move_times] in H.
    destruct (editorMoveCursor key E) as [E1|] eqn:H1; [|done].
    cbn [mbind option_bind] in H. apply (IH E1); [|done].
    by eapply editorMoveCursor_cy.
Qed.

Lemma editorInsertChar_numrows (c : Z) (E E' : editorConfig) :
  editorInsertChar c E = Some E' → numrows E <= numrows E'.
Proof.
  unfold editorInsertChar, editorAppendRow. intros H.
  repeat (repeat case_match; simplify_option_eq); fields; lia.
Qed.

(** A key other than ARROW_DOWN and PAGE_DOWN keeps [cy <= numrows],
    from a state whose viewport starts at or above the cursor. *)
Lemma editorProcessKey_cy (c : Z) (E E' : editorConfig) :
  c ≠ ARROW_DOWN → c ≠ PAGE_DOWN →
  rowoff E <= cy E → cy E <= numrows E →
  editorProcessKey c E = Running E' → cy E' <= numrows E'.
Proof.
  intros Hdown Hpage Hro Hle. unfold editorProcessKey. intros H.
  destruct (c =? CTRL_KEY (ch "q")); [done|].
  destruct (c =? HOME_KEY); [by injection H as <-|].
  destruct (c =? END_KEY).
  { destruct (cy E <? numrows E); [|by injection H as <-].
    apply of_option_Running in H. by simplify_option_eq. }
  destruct ((c =? PAGE_DOWN) || (c =? PAGE_UP)) eqn:Hp.
  { apply orb_true_iff in Hp as [Hp|Hp]; zbool; [done|]. subst c.
    change (PAGE_UP =? PAGE_UP) with true in H. cbv iota in H. fields.
    destruct (screenrows E <? 0); [done|].
    apply of_option_Running, move_times_cy in H; [done|done|]. fields. lia. }
  destruct ((c =? ARROW_UP) || (c =? ARROW_DOWN)
            || (c =? ARROW_LEFT) || (c =? ARROW_RIGHT)).
  { apply of_option_Running in H. by eapply editorMoveCursor_cy. }
  apply of_option_Running in H.
  pose proof (editorInsertChar_numrows c E E' H).
  destruct (editorInsertChar_advances c E E' H) as (_ & Hcy & _). lia.
Qed.

(** From a loaded document, in a window of at least three rows and one
    column, a session that never sees ARROW_DOWN or PAGE_DOWN keeps the
    cursor invariant of the specification. *)
Lemma cursor_invariant_without_down (ws_row ws_col : Z) (keys : list Z)
    (E0 E : editorConfig) :
  3 <= ws_row → 1 <= ws_col → loaded ws_row ws_col E0 →
  Forall (λ c, c ≠ ARROW_DOWN ∧ c ≠ PAGE_DOWN) keys →
  session keys E0 = Running E → cursor_in_document E.
Proof.
  intros Hrow Hcol Hload Hkeys Hrun.
  assert (Hstart : reachable ws_row ws_col E0 ∧ cy E0 <= numrows E0).
  { split; [by apply reach_loaded|].
    destruct (loaded_state_ok _ _ _ Hrow Hload) as ((Hrows & _) & _ & ->).
    by apply numrows_nonneg. }
  clear Hload. revert E0 Hstart Hrun.
  induction Hkeys as [|c keys [Hc1 Hc2] _ IH]; intros E0 [Hreach Hle] Hrun.
  - injection Hrun as <-.
    destruct (reachable_state_ok _ _ _ Hrow Hreach) as (Hrows & Hcur & _).
    by apply cursor_in_document_intro.
  - cbn [session] in Hrun. unfold session_step in Hrun.
    destruct (editorRefreshScreen E0) as [E1|] eqn:Hscroll; [|done].
    destruct (editorProcessKey c E1) as [E2| |] eqn:Hkey; try done.
    apply (IH E2); [|done]. split; [by eapply reach_key|].
    pose proof (reachable_state_ok _ _ _ Hrow Hreach) as Hok.
    destruct (reachable_screen _ _ _ Hreach) as [Hsr Hsc].
    destruct (editorRefreshScreen_ok E0 Hok) as (E1' & Hdef & _ & Hoff).
    assert (E1' = E1) as -> by congruence.
    apply editorScroll_frame in Hscroll as (_ & Hcy & [_ Hnum] & _).
    apply (editorProcessKey_cy c E1); try done; [apply Hoff|]; lia.
Qed.

(** * Cursor moves in detail *)

Lemma clamp_cx_fixed (E : editorConfig) :
  rows_ok E → cursor_ok E → clamp_cx E = Some E.
Proof.
  intros Hrows (Hcx & Hcy & Hin & Hbelow). unfold clamp_cx.
  destruct (cy E >=? numrows E) eqn:Hge; zbool.
  - cbn [mbind option_bind]. rewrite Hbelow by done. reflexivity.
  - destruct (row_at_defined E (cy E) Hrows) as [r Hr]; [lia|].
    rewrite Hr. cbn [mbind option_bind].
    specialize (Hin r Hr).
    destruct (cx E >? size r) eqn:Hgt; zbool; [lia|done].
Qed.

Lemma editorMoveCursor_sound (key : Z) (E E1 : editorConfig) :
  move_switch key E = Some E1 → rows_ok E1 → cursor_ok E1 →
  editorMoveCursor key E = Some E1.
Proof.
  intros Hswitch Hrows Hcur.
  rewrite editorMoveCursor_parts, Hswitch. cbn [mbind option_bind].
  by apply clamp_cx_fixed.
Qed.

Lemma set_cx_same (E : editorConfig) (v : Z) : v = cx E → set_cx E v = E.
Proof. intros ->. by destruct E. Qed.

Lemma set_cx_back (E : editorConfig) (a b : Z) :
  b = cx E → set_cx (set_cx E a) b = E.
Proof. intros ->. by destruct E. Qed.

Lemma set_cursor_back (E : editorConfig) (a b c d : Z) :
  c = cy E → d = cx E → set_cx (set_cy (set_cx (set_cy E a) b) c) d = E.
Proof. intros -> ->. by destruct E. Qed.

(** ARROW_RIGHT from a cursor on a row: one byte to the right, or from the
    end of the row to the start of the next line. *)
Lemma arrow_right_on_row (E : editorConfig) (r : erow) :
  rows_ok E → cursor_ok E → row_at E (cy E) = Some r →
  editorMoveCursor ARROW_RIGHT E
  = Some (if cx E <? size r then set_cx E (cx E + 1)
          else set_cx (set_cy E (cy E + 1)) 0).
Proof.
  intros Hrows Hcur Hr. pose proof Hcur as (Hcx & Hcy & Hin & Hbelow).
  destruct (row_at_Some E _ r Hrows Hr) as [Hrange _].
  specialize (Hin r Hr).
  apply editorMoveCursor_sound.
  - change (move_switch ARROW_RIGHT E)
      with (match (if cy E >=? numrows E then None else Some (cy E)) with
            | None => Some E
            | Some i =>
                r ← row_at E i;
                if cx E <? size r then Some (set_cx E (cx E + 1))
                else if cx E =? size r
                     then Some (set_cx (set_cy E (cy E + 1)) 0)
                     else Some E
            end).
    destruct (cy E >=? numrows E) eqn:Hge; zbool; [lia|].
    rewrite Hr. cbn [mbind option_bind].
    destruct (cx E <? size r) eqn:Hlt; [done|]. zbool.
    destruct (Z.eqb_spec (cx E) (size r)); [done|lia].
  - destruct (cx E <? size r); (apply (rows_ok_same_rows E); [by split|done]).
  - destruct (cx E <? size r) eqn:Hlt; zbool; unfold cursor_ok; fields.
    + rewrite (row_at_same_rows E (set_cx E (cx E + 1))) by done.
      rewrite Hr. repeat split; try lia. intros ? [= <-]. lia.
    + repeat split; try lia. intros r' Hr'.
      rewrite (row_at_same_rows E) in Hr' by done.
      destruct (row_at_Some E _ r' Hrows Hr') as [_ [bs Hb]].
      by eapply rendered_size_nonneg.
Qed.

(** ARROW_LEFT: one byte to the left, or from the start of a line to the
    end of the row above. At the start of the first row nothing moves. *)
Lemma arrow_left_in_document (E : editorConfig) :
  rows_ok E → cursor_ok E → cy E <= numrows E →
  editorMoveCursor ARROW_LEFT E
  = Some (if negb (cx E =? 0) then set_cx E (cx E - 1)
          else if cy E >? 0
               then set_cx (set_cy E (cy E - 1)) (row_size_at E (cy E - 1))
               else E).
Proof.
  intros Hrows Hcur Hle. pose proof Hcur as (Hcx & Hcy & Hin & Hbelow).
  change (editorMoveCursor ARROW_LEFT E)
    with (E1 ← (if negb (cx E =? 0) then Some (set_cx E (cx E - 1))
                else if cy E >? 0 then
                  let E0 := set_cy E (cy E - 1) in
                  r ← row_at E0 (cy E0);
                  Some (set_cx E0 (size r))
                else Some E);
          clamp_cx E1).
  destruct (cx E =? 0) eqn:Hz; zbool; cbn [negb].
  - destruct (cy E >? 0) eqn:Hpos; zbool.
    + cbv zeta. fields.
      rewrite (row_at_same_rows E (set_cy E (cy E - 1))) by done.
      unfold row_size_at.
      destruct (row_at_defined E (cy E - 1) Hrows) as [r Hr]; [lia|].
      rewrite Hr. cbn [mbind option_bind].
      destruct (row_at_Some E _ r Hrows Hr) as [_ [bs Hb]].
      pose proof (rendered_size_nonneg r bs Hb).
      apply clamp_cx_fixed; [apply (rows_ok_same_rows E); [by split|done]|].
      unfold cursor_ok. fields.
      rewrite (row_at_same_rows E) by done. rewrite Hr.
      repeat split; try lia. by intros ? [= <-].
    + cbn [mbind option_bind]. by apply clamp_cx_fixed.
  - cbn [mbind option_bind].
    apply clamp_cx_fixed; [apply (rows_ok_same_rows E); [by split|done]|].
    unfold cursor_ok. fields.
    rewrite (row_at_same_rows E (set_cx E (cx E - 1))) by done.
    repeat split; try lia. intros r Hr. specialize (Hin r Hr). lia.
Qed.

(** X1: on a row, ARROW_RIGHT followed by ARROW_LEFT brings the editor
    back to the state it was in, also across the end of the row. *)
Theorem arrow_right_then_left (E : editorConfig) :
  rows_ok E → cursor_ok E → 0 <= cy E < numrows E →
  ∃ E1, editorMoveCursor ARROW_RIGHT E = Some E1
        ∧ (cx E1 ≠ cx E ∨ cy E1 ≠ cy E)
        ∧ editorMoveCursor ARROW_LEFT E1 = Some E.
Proof.
  intros Hrows Hcur Hcy. pose proof Hcur as (Hcx & _ & Hin & _).
  destruct (row_at_defined E (cy E) Hrows Hcy) as [r Hr].
  specialize (Hin r Hr).
  destruct (row_at_Some E _ r Hrows Hr) as [_ [bs Hb]].
  pose proof (rendered_size_nonneg r bs Hb).
  rewrite (arrow_right_on_row E r) by done.
  eexists. split; [reflexivity|].
  assert (Hok : ∀ E1, editorMoveCursor ARROW_RIGHT E = Some E1 →
                      rows_ok E1 ∧ cursor_ok E1 ∧ cy E1 <= numrows E1).
  { intros E1 H1.
    destruct (editorMoveCursor_ok _ _ _ Hrows Hcx (proj1 Hcy) H1)
      as (Hc1 & Hs1 & _).
    split; [by eapply rows_ok_same_rows|]. split; [done|].
    apply (editorMoveCursor_cy ARROW_RIGHT E); [done|lia|done]. }
  specialize (Hok _ (arrow_right_on_row E r Hrows Hcur Hr))
    as (Hrows1 & Hcur1 & Hle1).
  rewrite arrow_left_in_document by done.
  destruct (cx E <? size r) eqn:Hlt; zbool; fields.
  - split; [left; lia|].
    destruct (Z.eqb_spec (cx E + 1) 0); [lia|]. cbn [negb].
    f_equal. apply set_cx_back. lia.
  - split; [right; lia|].
    change (0 =? 0) with true. cbn [negb].
    destruct (cy E + 1 >? 0) eqn:Hpos; zbool; [|lia].
    unfold row_size_at. rewrite (row_at_same_rows E) by done.
    replace (cy E + 1 - 1) with (cy E) by lia. rewrite Hr.
    f_equal. apply set_cursor_back; lia.
Qed.

Lemma arrow_right_then_left_witness :
  ∃ E1, editorMoveCursor ARROW_RIGHT scroll_sample = Some E1
        ∧ (cx E1 ≠ cx scroll_sample ∨ cy E1 ≠ cy scroll_sample)
        ∧ editorMoveCursor ARROW_LEFT E1 = Some scroll_sample.
Proof.
  apply arrow_right_then_left.
  - apply scroll_sample_rows_ok.
  - apply scroll_sample_cursor_ok.
  - cbn. lia.
Defined.

(** X2: away from the start of the document, ARROW_LEFT followed by
    ARROW_RIGHT brings the editor back to the state it was in, also
    across the start of a line. *)
Theorem arrow_left_then_right (E : editorConfig) :
  rows_ok E → cursor_ok E → cy E <= numrows E →
  cx E ≠ 0 ∨ cy E ≠ 0 →
  ∃ E1, editorMoveCursor ARROW_LEFT E = Some E1
        ∧ (cx E1 ≠ cx E ∨ cy E1 ≠ cy E)
        ∧ editorMoveCursor ARROW_RIGHT E1 = Some E.
Proof.
  intros Hrows Hcur Hle Hstart. pose proof Hcur as (Hcx & Hcy & Hin & Hbelow).
  pose proof (arrow_left_in_document E Hrows Hcur Hle) as Hleft.
  eexists. split; [exact Hleft|].
  destruct (editorMoveCursor_ok _ _ _ Hrows Hcx Hcy Hleft) as (Hcur1 & Hs1 & _).
  pose proof (rows_ok_same_rows _ _ Hs1 Hrows) as Hrows1.
  revert Hcur1 Hrows1. clear Hleft Hs1.
  destruct (cx E =? 0) eqn:Hz; zbool; cbn [negb].
  - destruct (cy E >? 0) eqn:Hpos; zbool; [|lia].
    unfold row_size_at.
    destruct (row_at_defined E (cy E - 1) Hrows) as [r Hr]; [lia|].
    rewrite Hr. intros Hcur1 Hrows1. split; [right; fields; lia|].
    rewrite (arrow_right_on_row _ r); [|done|done|].
    + fields. rewrite Z.ltb_irrefl. f_equal.
      apply set_cursor_back; lia.
    + fields. by rewrite (row_at_same_rows E).
  - intros Hcur1 Hrows1. split; [left; fields; lia|].
    assert (Hlt : cy E < numrows E).
    { destruct (Z_lt_le_dec (cy E) (numrows E)); [done|].
      specialize (Hbelow ltac:(lia)). lia. }
    destruct (row_at_defined E (cy E) Hrows) as [r Hr]; [lia|].
    specialize (Hin r Hr).
    rewrite (arrow_right_on_row _ r); [|done|done|].
    + fields. destruct (cx E - 1 <? size r) eqn:Hlt'; zbool; [|lia].
      f_equal. apply set_cx_back. lia.
    + fields. by rewrite (row_at_same_rows E).
Qed.

Lemma arrow_left_then_right_witness :
  ∃ E1, editorMoveCursor ARROW_LEFT scroll_sample = Some E1
        ∧ (cx E1 ≠ cx scroll_sample ∨ cy E1 ≠ cy scroll_sample)
        ∧ editorMoveCursor ARROW_RIGHT E1 = Some scroll_sample.
Proof.
  apply arrow_left_then_right.
  - apply scroll_sample_rows_ok.
  - apply scroll_sample_cursor_ok.
  - cbn. lia.
  - left. cbn. lia.
Defined.

Lemma editorMoveCursor_up (E : editorConfig) :
  rows_ok E → 0 <= cx E → 0 <= cy E →
  ∃ E', editorMoveCursor ARROW_UP E = Some E'
        ∧ cy E' = Z.max 0 (cy E - 1)
        ∧ cx E' = Z.min (cx E) (row_size_at E (cy E'))
        ∧ same_rows E E' ∧ same_view E E'.
Proof.
  intros Hrows Hcx Hcy.
  change (editorMoveCursor ARROW_UP E)
    with (E1 ← (if negb (cy E =? 0) then Some (set_cy E (cy E - 1))
                else Some E);
          clamp_cx E1).
  set (E1 := if negb (cy E =? 0) then set_cy E (cy E - 1) else E).
  assert (H1 : (if negb (cy E =? 0) then Some (set_cy E (cy E - 1))
                else Some E) = Some E1) by (subst E1; by destruct (negb _)).
  rewrite H1. cbn [mbind option_bind].
  assert (Hf : cy E1 = Z.max 0 (cy E - 1) ∧ cx E1 = cx E
               ∧ same_rows E E1 ∧ same_view E E1).
  { subst E1. destruct (cy E =? 0) eqn:Hz; zbool; cbn [negb]; fields;
      repeat split; lia. }
  destruct Hf as (Hcy1 & Hcx1 & Hs1 & Hv1).
  destruct (clamp_cx_spec E1) as (E' & Hclamp & Hcur' & Hcy' & Hle & Hs2 & Hv2);
    [by eapply rows_ok_same_rows|lia|lia|].
  exists E'. split; [done|]. split; [congruence|].
  split; [|split; [by eapply same_rows_trans|by eapply same_view_trans]].
  unfold clamp_cx in Hclamp. unfold row_size_at. clearbody E1.
  destruct Hs1 as [Hr1 Hn1]. rewrite Hcy'.
  rewrite (row_at_same_rows E E1 _ Hr1), Hn1 in Hclamp.
  destruct (cy E1 >=? numrows E) eqn:Hge; zbool.
  - rewrite (row_at_None E) by done. cbn [mbind option_bind] in Hclamp.
    injection Hclamp as <-. repeat split_if; zbool; fields; lia.
  - destruct (row_at_defined E (cy E1) Hrows) as [r Hr]; [lia|].
    rewrite Hr in *. cbn [mbind option_bind] in Hclamp.
    injection Hclamp as <-. repeat split_if; zbool; fields; lia.
Qed.

(** X3: ARROW_UP is defined on every state with sound rows and a cursor
    that is not negative; it moves [cy] up by one, not above the first
    line, and keeps [cx] up to the size of the row it ends on. *)
Theorem arrow_up_clamps_column (E : editorConfig) :
  rows_ok E → 0 <= cx E → 0 <= cy E →
  ∃ E', editorMoveCursor ARROW_UP E = Some E'
        ∧ cy E' = Z.max 0 (cy E - 1)
        ∧ cx E' = Z.min (cx E) (row_size_at E (cy E'))
        ∧ same_rows E E' ∧ same_view E E'.
Proof. apply editorMoveCursor_up. Qed.

Lemma arrow_up_clamps_column_witness :
  ∃ E', editorMoveCursor ARROW_UP below_a = Some E'
        ∧ cy E' = Z.max 0 (cy below_a - 1)
        ∧ cx E' = Z.min (cx below_a) (row_size_at below_a (cy E'))
        ∧ same_rows below_a E' ∧ same_view below_a E'.
Proof.
  apply arrow_up_clamps_column; [|cbn; lia|cbn; lia].
  split; [reflexivity|]. repeat constructor.
  exists [97]. split; [split; reflexivity|].
  split; [reflexivity|]. by exists [].
Defined.

(** * More on the key decoder *)

Lemma wait_byte_skip (skip rest : input) :
  Forall waits skip → wait_byte (skip ++ rest) = wait_byte rest.
Proof.
  induction 1 as [|r skip [-> | ->] _ IH]; [done|apply IH|apply IH].
Qed.

Lemma wait_byte_Key (inp tail : input) (k : Z) :
  wait_byte inp = Key k tail →
  ∃ skip c, inp = skip ++ Got c :: tail ∧ Forall waits skip
            ∧ k = char_value c.
Proof.
  induction inp as [|r inp IH]; [done|]. cbn [wait_byte].
  destruct r as [c'| | |]; intros H.
  - injection H as <- ->. by exists [], c'.
  - destruct (IH H) as (skip & c & -> & Hskip & Hk).
    exists (Timeout :: skip), c. split; [done|].
    split; [|done]. constructor; [by left|done].
  - destruct (IH H) as (skip & c & -> & Hskip & Hk).
    exists (Eagain :: skip), c. split; [done|].
    split; [|done]. constructor; [by right|done].
  - done.
Qed.

(** The conversion keeps the bytes below 128 and the byte a key stands
    for, and sends no other byte to the escape key. *)
Lemma char_value_ascii (c : Z) : 0 <= c < 128 → char_value c = c.
Proof.
  intros Hc. unfold char_value. by destruct (Z.leb_spec 128 c); [lia|].
Qed.

Lemma char_value_byte (c : Z) : 0 <= c < 256 → to_char (char_value c) = c.
Proof.
  intros Hc. unfold char_value, to_char.
  destruct (Z.leb_spec 128 c); destruct (Z.ltb_spec c 256);
    cbn [andb]; zmod.
Qed.

Lemma char_value_ESC (c : Z) : char_value c = ESC ↔ c = ESC.
Proof.
  unfold char_value, ESC.
  destruct (Z.leb_spec 128 c); destruct (Z.ltb_spec c 256);
    cbn [andb]; lia.
Qed.

(** X4: [editorReadKey] waits through timeouts and [EAGAIN] for a first
    byte: such reads in front change nothing; a byte other than [0x1b]
    is returned with nothing else consumed, as the byte itself when it is
    below 128 and, [return c] converting a [char], as a key equal to the
    byte modulo 256 otherwise; any other read error ends the process
    through [die], and input that never brings a byte blocks. *)
Theorem read_key_waits_for_first_byte (skip rest : input) :
  Forall waits skip →
  editorReadKey (skip ++ rest) = editorReadKey rest
  ∧ (∀ c, 0 <= c < 256 → c ≠ 27 →
       ∃ k, editorReadKey (skip ++ Got c :: rest) = Key k rest
            ∧ to_char k = c ∧ (c < 128 → k = c))
  ∧ editorReadKey (skip ++ Failed :: rest) = Died
  ∧ editorReadKey skip = Blocked.
Proof.
  intros Hskip. split; [|split; [|split]].
  - unfold editorReadKey. by rewrite wait_byte_skip.
  - intros c Hc Hesc. exists (char_value c).
    unfold editorReadKey. rewrite wait_byte_skip by done.
    cbn [wait_byte].
    destruct (Z.eqb_spec (char_value c) ESC) as [He|_];
      [apply (proj1 (char_value_ESC c)) in He; destruct Hesc; exact He|].
    split; [done|]. split; [by apply char_value_byte|].
    intros Hlt. apply char_value_ascii. lia.
  - unfold editorReadKey. by rewrite wait_byte_skip.
  - unfold editorReadKey. rewrite <- (app_nil_r skip).
    by rewrite wait_byte_skip.
Qed.

Lemma read_key_waits_for_first_byte_witness :
  editorReadKey ([Timeout; Eagain; Timeout] ++ [Got 120; Got 121])
  = editorReadKey [Got 120; Got 121]
  ∧ ∃ k, editorReadKey ([Timeout; Eagain; Timeout] ++ Got 120 :: [Got 121])
         = Key k [Got 121]
         ∧ to_char k = 120 ∧ (120 < 128 → k = 120).
Proof.
  destruct (read_key_waits_for_first_byte [Timeout; Eagain; Timeout]
              [Got 121]) as (_ & Hbyte & _).
  { repeat constructor; (by left) || (by right). }
  split; [|apply Hbyte; lia].
  destruct (read_key_waits_for_first_byte [Timeout; Eagain; Timeout]
              [Got 120; Got 121]) as (Hsame & _); [|exact Hsame].
  repeat constructor; (by left) || (by right).
Defined.

(** X5: a key [editorReadKey] returns comes from the first byte read
    (the byte itself below 128, a key equal to it modulo 256 from 128
    on), or is the escape key or one of the nine named keys; after the
    first byte it uses up at most three more [read] results, and none
    when the first byte is not [0x1b]. *)
Theorem read_key_alphabet_and_lookahead (inp rest : input) (k : Z) :
  editorReadKey inp = Key k rest →
  ∃ skip c tail n,
    inp = skip ++ Got c :: tail ∧ Forall waits skip
    ∧ rest = drop n tail ∧ (n <= 3)%nat
    ∧ (c ≠ 27 →
         n = 0%nat ∧ (0 <= c < 256 → to_char k = c)
         ∧ (0 <= c < 128 → k = c))
    ∧ (c = 27 → k = 27 ∨ ARROW_LEFT <= k <= PAGE_DOWN).
Proof.
  unfold editorReadKey.
  destruct (wait_byte inp) as [c0 tail| |] eqn:Hwait; try done.
  destruct (wait_byte_Key inp tail c0 Hwait) as (skip & c & -> & Hskip & ->).
  intros Hkey. exists skip, c, tail.
  destruct (Z.eqb_spec (char_value c) ESC) as [He|Hc].
  2:{ injection Hkey as <- <-. exists 0%nat.
      split; [done|]. split; [done|]. split; [done|]. split; [lia|].
      split.
      - intros _. split; [done|].
        split; [apply char_value_byte|apply char_value_ascii].
      - intros ->. by destruct Hc. }
  apply (proj1 (char_value_ESC c)) in He. subst c.
  change (char_value ESC) with ESC in Hkey.
  cut (∃ n, rest = drop n tail ∧ (n <= 3)%nat
            ∧ (k = 27 ∨ ARROW_LEFT <= k <= PAGE_DOWN)).
  { intros (n & H1 & H2 & H3). exists n. by repeat split. }
  clear Hwait Hskip.
  destruct tail as [|[seq0| | |] tail]; cbn [read] in Hkey;
    try (injection Hkey as <- <-; first [by exists 0%nat; repeat split; auto
                                        |by exists 1%nat; repeat split; auto]).
  destruct tail as [|[seq1| | |] tail]; cbn [read] in Hkey;
    try (injection Hkey as <- <-; first [by exists 1%nat; repeat split; auto
                                        |by exists 2%nat; repeat split; auto]).
  destruct (seq0 =? ch "[").
  - destruct ((seq1 >=? ch "0") && (seq1 <=? ch "9")).
    + destruct tail as [|[seq2| | |] tail]; cbn [read] in Hkey;
        try (injection Hkey as <- <-;
             first [by exists 2%nat; repeat split; auto
                   |by exists 3%nat; repeat split; auto]).
      revert Hkey. repeat split_if; intros [= <- <-]; exists 3%nat;
        (split; [done|split; [lia|]]); first [by left|right; done].
    + revert Hkey. repeat split_if; intros [= <- <-]; exists 2%nat;
        (split; [done|split; [lia|]]); first [by left|right; done].
  - revert Hkey. repeat split_if; intros [= <- <-]; exists 2%nat;
      (split; [done|split; [lia|]]); first [by left|right; done].
Qed.

Lemma read_key_alphabet_and_lookahead_witness :
  ∃ skip c tail n,
    [Timeout; Got 27; Got 91; Got 53; Got 126; Got 120]
    = skip ++ Got c :: tail ∧ Forall waits skip
    ∧ [Got 120] = drop n tail ∧ (n <= 3)%nat
    ∧ (c ≠ 27 →
         n = 0%nat ∧ (0 <= c < 256 → to_char PAGE_UP = c)
         ∧ (0 <= c < 128 → PAGE_UP = c))
    ∧ (c = 27 → PAGE_UP = 27 ∨ ARROW_LEFT <= PAGE_UP <= PAGE_DOWN).
Proof.
  apply (read_key_alphabet_and_lookahead
           [Timeout; Got 27; Got 91; Got 53; Got 126; Got 120]).
  reflexivity.
Defined.

(** * Paging and typing *)

Lemma row_size_at_nonneg (E : editorConfig) (i : Z) :
  rows_ok E → 0 <= row_size_at E i.
Proof.
  intros Hrows. unfold row_size_at.
  destruct (row_at E i) as [r|] eqn:Hr; [|done].
  destruct (row_at_Some E i r Hrows Hr) as [_ [bs Hb]].
  by eapply rendered_size_nonneg.
Qed.

Lemma move_times_up (n : nat) (E : editorConfig) :
  rows_ok E → 0 <= cx E → 0 <= cy E →
  ∃ E', move_times n ARROW_UP E = Some E'
        ∧ cy E' = Z.max 0 (cy E - Z.of_nat n)
        ∧ 0 <= cx E' <= cx E
        ∧ same_rows E E' ∧ same_view E E'.
Proof.
  revert E. induction n as [|n IH]; intros E Hrows Hcx Hcy.
  - exists E. split; [done|]. split; [lia|]. split; [lia|].
    split; [done|apply same_view_refl].
  - destruct (editorMoveCursor_up E Hrows Hcx Hcy)
      as (E1 & Hup & Hcy1 & Hcx1 & Hs1 & Hv1).
    pose proof (rows_ok_same_rows _ _ Hs1 Hrows) as Hrows1.
    pose proof (row_size_at_nonneg E (cy E1) Hrows).
    destruct (IH E1) as (E' & Hmove & Hcy' & Hcx' & Hs2 & Hv2);
      [done|lia|lia|].
    exists E'. cbn [move_times]. rewrite Hup. cbn [mbind option_bind].
    split; [done|]. split; [lia|]. split; [lia|].
    split; [by eapply same_rows_trans|by eapply same_view_trans].
Qed.

(** X6: PAGE_UP puts the cursor [screenrows] lines above the top of the
    viewport, not above the first line, whatever line of the viewport it
    was on; the cursor ends at an offset of its row, not right of where
    it was. *)
Theorem page_up_from_viewport_top (E : editorConfig) :
  state_ok E →
  ∃ E', editorProcessKey PAGE_UP E = Running E'
        ∧ cy E' = Z.max 0 (rowoff E - screenrows E)
        ∧ cx E' <= cx E
        ∧ cursor_ok E'
        ∧ same_rows E E' ∧ same_view E E'.
Proof.
  intros (Hrows & (Hcx & Hcy & _) & Hro & Hco & Hsr).
  change (editorProcessKey PAGE_UP E)
    with (let E0 := set_cy E (rowoff E) in
          if screenrows E0 <? 0 then Undefined
          else of_option (move_times (Z.to_nat (screenrows E0)) ARROW_UP E0)).
  cbv zeta. fields.
  destruct (Z.ltb_spec (screenrows E) 0); [lia|].
  assert (Hrows0 : rows_ok (set_cy E (rowoff E)))
    by (apply (rows_ok_same_rows E); [by split|done]).
  destruct (move_times_up (Z.to_nat (screenrows E)) (set_cy E (rowoff E)))
    as (E' & Hmove & Hcy' & Hcx' & Hs & Hv); [done|done|done|].
  fields. rewrite Hmove. exists E'. split; [done|].
  split; [lia|]. split; [lia|]. split; [|done].
  replace (Z.to_nat (screenrows E)) with (S (Z.to_nat (screenrows E - 1)))
    in Hmove by lia.
  by apply move_times_ok in Hmove as [Hcur _].
Qed.

Lemma page_up_from_viewport_top_witness :
  ∃ E', editorProcessKey PAGE_UP scroll_sample = Running E'
        ∧ cy E' = Z.max 0 (rowoff scroll_sample - screenrows scroll_sample)
        ∧ cx E' <= cx scroll_sample
        ∧ cursor_ok E'
        ∧ same_rows scroll_sample E' ∧ same_view scroll_sample E'.
Proof.
  apply page_up_from_viewport_top.
  split; [apply scroll_sample_rows_ok|].
  split; [apply scroll_sample_cursor_ok|].
  unfold view_ok. cbn. lia.
Defined.

(** ** Inserting at the cursor *)

Lemma cursor_line_range (E : editorConfig) (bs : list Z) :
  rows_ok E → cursor_ok E → cursor_line E bs →
  0 <= cx E <= len bs ∧ cy E <= numrows E.
Proof.
  intros Hrows (Hcx & Hcy & Hin & Hbelow) [[Heq ->]|(r & Hr & Hh)].
  - rewrite Hbelow by lia. unfold len. cbn [length]. lia.
  - destruct (row_at_Some E _ r Hrows Hr) as [Hrange _].
    specialize (Hin r Hr). destruct Hh as [Hsz _]. lia.
Qed.

(** [editorInsertChar] puts the byte into the text of the cursor's line
    at the cursor, moves the cursor past it, and leaves every other row
    as it was. *)
Lemma editorInsertChar_at_cursor (c : Z) (E : editorConfig) (bs : list Z) :
  rows_ok E → cursor_ok E → cursor_line E bs →
  ∃ E', editorInsertChar c E = Some E'
        ∧ text_at E' (cy E)
            (take (Z.to_nat (cx E)) bs ++ to_char c
             :: drop (Z.to_nat (cx E)) bs)
        ∧ cx E' = cx E + 1 ∧ cy E' = cy E
        ∧ numrows E' = Z.max (numrows E) (cy E + 1)
        ∧ (∀ i, i ≠ cy E → 0 <= i < numrows E → row_at E' i = row_at E i).
Proof.
  intros Hrows Hcur Hline.
  destruct (cursor_line_range E bs Hrows Hcur Hline) as [Hcxr Hle].
  pose proof Hcur as (Hcx & Hcy & Hin & Hbelow).
  pose proof Hrows as [Hnum _].
  destruct Hline as [[Heq ->]|(r & Hr & Hh)].
  - destruct (editorInsertChar_below c E Hrows Heq) as (r' & Hdef & Hr' & _).
    eexists. split; [exact Hdef|]. fields.
    rewrite take_nil, drop_nil. cbn [app].
    split; [|split; [done|split; [done|split; [lia|]]]].
    + exists r'. split; [|by destruct Hr'].
      unfold row_at. fields. rewrite Heq, Hnum.
      pose proof (len_nonneg (row E)).
      destruct (Z.ltb_spec (len (row E)) 0); [lia|].
      by rewrite to_nat_len, list_lookup_middle.
    + intros i Hi Hrange. unfold row_at. fields.
      destruct (Z.ltb_spec i 0); [done|].
      apply lookup_app_l. unfold len in *. lia.
  - destruct (row_at_Some E _ r Hrows Hr) as [Hrange _].
    destruct (editorInsertChar_on_row c E r Hrows) as (r' & bs' & Hins & Hdef & _);
      [lia|done|].
    destruct (editorRowInsertChar_holds r bs (cx E) c Hh)
      as (r2 & Hins2 & _ & Hr2 & _).
    assert (r2 = r') as -> by congruence.
    rewrite insert_offset_in_range in Hr2
      by (destruct Hh as [-> _]; lia).
    eexists. split; [exact Hdef|]. fields.
    split; [|split; [done|split; [done|split; [lia|]]]].
    + exists r'. split; [|done]. unfold row_at. fields.
      destruct (Z.ltb_spec (cy E) 0); [lia|].
      apply list_lookup_insert_eq. unfold len in *. lia.
    + intros i Hi _. unfold row_at. fields.
      destruct (Z.ltb_spec i 0); [done|].
      apply list_lookup_insert_ne. lia.
Qed.

Lemma take_drop_middle_cons {A : Type} (l1 l2 : list A) (c : A) :
  take (S (length l1)) (l1 ++ c :: l2) = l1 ++ [c]
  ∧ drop (S (length l1)) (l1 ++ c :: l2) = l2.
Proof.
  rewrite (cons_middle c l1 l2), app_assoc.
  split; [apply take_app_length'|apply drop_app_length'];
    rewrite length_app; cbn [length]; lia.
Qed.

Lemma cursor_line_same (E E' : editorConfig) (bs : list Z) :
  same_rows E E' → cy E' = cy E → cursor_line E bs → cursor_line E' bs.
Proof.
  intros [Hrow Hnum] Hcy. unfold cursor_line, text_at.
  by rewrite Hcy, Hnum, (row_at_same_rows E E').
Qed.

(** Typing bytes that have no [case] of their own inserts their low
    bytes at the cursor; the session stays on its line and in its
    window, and at most one row is added, for a first byte typed below
    the last row. *)
Lemma session_typing (keys : list Z) (E : editorConfig) (bs : list Z) :
  state_ok E → cursor_line E bs →
  Forall (λ c, handled_key c = false) keys →
  ∃ E', session keys E = Running E'
        ∧ cursor_line E'
            (take (Z.to_nat (cx E)) bs ++ (to_char <$> keys)
             ++ drop (Z.to_nat (cx E)) bs)
        ∧ cx E' = cx E + len keys ∧ cy E' = cy E
        ∧ (∀ i, i ≠ cy E → 0 <= i < numrows E → row_at E' i = row_at E i)
        ∧ state_ok E'
        ∧ same_screen E E'
        ∧ numrows E <= numrows E' <= Z.max (numrows E) (cy E + 1).
Proof.
  intros Hok Hline Hkeys. revert E bs Hok Hline.
  induction Hkeys as [|c keys Hc _ IH]; intros E bs Hok Hline.
  - exists E. split; [done|]. cbn [fmap list_fmap app].
    rewrite take_drop. unfold len. cbn [length].
    split; [done|]. split; [lia|]. split; [done|]. split; [done|].
    split; [done|]. split; [done|]. lia.
  - cbn [session]. unfold session_step.
    destruct (editorRefreshScreen_ok E Hok) as (E1 & Hscroll & Hok1 & _).
    rewrite Hscroll.
    pose proof (editorScroll_frame E E1 Hscroll)
      as (Hcx1 & Hcy1 & Hs1 & Hscr1).
    pose proof Hok1 as (Hrows1 & Hcur1 & _).
    pose proof (cursor_line_same E E1 bs Hs1 Hcy1 Hline) as Hline1.
    destruct (cursor_line_range E1 bs Hrows1 Hcur1 Hline1) as [Hcxr _].
    destruct (editorInsertChar_at_cursor c E1 bs Hrows1 Hcur1 Hline1)
      as (E2 & Hins & Htext & Hcx2 & Hcy2 & Hnum2 & Hother2).
    rewrite editorProcessKey_default, Hins by done. cbn [of_option].
    assert (Hkey : editorProcessKey c E1 = Running E2)
      by (by rewrite editorProcessKey_default, Hins).
    assert (Hok2 : state_ok E2) by (by apply (editorProcessKey_ok c E1)).
    pose proof (editorProcessKey_frame c E1 E2 Hkey) as (_ & _ & Hscr2).
    set (p := take (Z.to_nat (cx E1)) bs) in *.
    set (q := drop (Z.to_nat (cx E1)) bs) in *.
    assert (Hp : length p = Z.to_nat (cx E1)).
    { subst p. rewrite length_take. unfold len in *. lia. }
    destruct (IH E2 (p ++ to_char c :: q)) as
      (E' & Hrun & Hline' & Hcx' & Hcy' & Hother' & Hok' & Hscr' & Hnum');
      [done| |].
    { right. by rewrite Hcy2. }
    exists E'. split; [done|].
    replace (Z.to_nat (cx E2)) with (S (length p)) in Hline' by lia.
    destruct (take_drop_middle_cons p q (to_char c)) as [-> ->] in Hline'.
    rewrite <- app_assoc in Hline'. cbn [app] in Hline'.
    rewrite <- Hcx1. fold p q. cbn [fmap list_fmap].
    destruct Hs1 as [Hr1 Hn1].
    split; [done|]. split; [rewrite len_cons; lia|]. split; [congruence|].
    split; [|split; [done|split]].
    + intros i Hi Hrange.
      rewrite Hother' by lia. rewrite Hother2 by lia.
      by apply row_at_same_rows.
    + destruct Hscr1 as [H1 H2]. destruct Hscr2 as [H3 H4].
      destruct Hscr' as [H5 H6]. split; congruence.
    + lia.
Qed.

(** X8: the decoder knows the Delete key, but [editorProcessKeypress] has
    no [case] for it, nor for the escape key: Delete ([0x1b [ 3 ~])
    inserts the byte 236 (the [char] of 1004) at the cursor, and a lone
    [0x1b] inserts the byte 27. The line with one more byte is to fit
    the [int] sizes of the source, and so is one more row. *)
Theorem delete_and_escape_insert_bytes (E : editorConfig) (bs : list Z)
    (rest : input) :
  rows_ok E → cursor_ok E → cursor_line E bs →
  len bs + 7 * count_tabs_from bs 0 + 2 <= INT_MAX →
  numrows E + 1 <= INT_MAX →
  (∃ E', editorProcessKeypress
           (Got 27 :: Got (ch "[") :: Got (ch "3") :: Got (ch "~") :: rest) E
         = Some (Running E', rest)
         ∧ text_at E' (cy E)
             (take (Z.to_nat (cx E)) bs ++ 236 :: drop (Z.to_nat (cx E)) bs)
         ∧ cx E' = cx E + 1)
  ∧ (∃ E', editorProcessKeypress (Got 27 :: Timeout :: rest) E
           = Some (Running E', rest)
           ∧ text_at E' (cy E)
               (take (Z.to_nat (cx E)) bs ++ 27 :: drop (Z.to_nat (cx E)) bs)
           ∧ cx E' = cx E + 1).
Proof.
  intros Hrows Hcur Hline _ _. split.
  - destruct (editorInsertChar_at_cursor DEL_KEY E bs Hrows Hcur Hline)
      as (E' & Hins & Htext & Hcx & _).
    exists E'. split; [|done].
    change (editorProcessKeypress _ E)
      with (Some (editorProcessKey DEL_KEY E, rest)).
    by rewrite editorProcessKey_default, Hins.
  - destruct (editorInsertChar_at_cursor ESC E bs Hrows Hcur Hline)
      as (E' & Hins & Htext & Hcx & _).
    exists E'. split; [|done].
    change (editorProcessKeypress _ E)
      with (Some (editorProcessKey ESC E, rest)).
    by rewrite editorProcessKey_default, Hins.
Qed.

Lemma delete_and_escape_insert_bytes_witness :
  ∃ E', editorProcessKeypress
          [Got 27; Got (ch "["); Got (ch "3"); Got (ch "~"); Got 120]
          scroll_sample
        = Some (Running E', [Got 120])
        ∧ text_at E' (cy scroll_sample)
            (take (Z.to_nat (cx scroll_sample)) sample_text
             ++ 236 :: drop (Z.to_nat (cx scroll_sample)) sample_text)
        ∧ cx E' = cx scroll_sample + 1.
Proof.
  assert (Hline : cursor_line scroll_sample sample_text).
  { right. exists sample_row. split; [reflexivity|].
    apply sample_row_rendered. }
  destruct (delete_and_escape_insert_bytes scroll_sample sample_text
              [Got 120] scroll_sample_rows_ok scroll_sample_cursor_ok Hline)
    as [Hdel _]; [by vm_compute|by vm_compute|].
  exact Hdel.
Defined.

(** * Loading a file *)

Lemma strip_eol_run (pre : list Z) :
  ∀ (fuel : nat) (suf : list Z),
    (length pre < fuel)%nat →
    ∃ text, stripped pre text
            ∧ strip_eol fuel (pre ++ suf) (len pre) = Some (len text).
Proof.
  induction pre as [|c p IH] using rev_ind; intros fuel suf Hfuel.
  - exists []. split; [by exists []|].
    destruct fuel as [|fuel]; [cbn in Hfuel; lia|]. reflexivity.
  - destruct fuel as [|fuel]; [lia|]. cbn [strip_eol].
    rewrite length_app in Hfuel. cbn [length] in Hfuel.
    assert (Hlen : len (p ++ [c]) = len p + 1)
      by (unfold len; rewrite length_app; cbn [length]; lia).
    pose proof (len_nonneg p). rewrite Hlen.
    destruct (Z.gtb_spec (len p + 1) 0); [|lia].
    destruct (Z.ltb_spec (len p + 1 - 1) 0); [lia|].
    replace (Z.to_nat (len p + 1 - 1)) with (length p) by (unfold len; lia).
    rewrite <- app_assoc. cbn [app].
    rewrite list_lookup_middle by done. cbn [mbind option_bind].
    destruct ((c =? NEWLINE) || (c =? CARRIAGE_RETURN)) eqn:Heol.
    + replace (len p + 1 - 1) with (len p) by lia.
      destruct (IH fuel (c :: suf)) as (text & (mid & -> & Hmid & Hlast) & Hrun);
        [lia|].
      exists text. split; [|done].
      exists (mid ++ [c]). split; [by rewrite app_assoc|]. split; [|done].
      apply Forall_app. split; [done|]. apply Forall_singleton.
      apply orb_true_iff in Heol as [Hc|Hc]; apply Z.eqb_eq in Hc;
        [by left|by right].
    + exists (p ++ [c]). rewrite Hlen. split; [|done].
      exists []. rewrite app_nil_r. split; [done|]. split; [constructor|].
      intros c'. rewrite last_snoc. intros [= <-] [->| ->]; done.
Qed.

Lemma strip_eol_line (line : list Z) :
  ∃ text, stripped line text
          ∧ strip_eol (S (length line)) line (len line) = Some (len text).
Proof.
  destruct (strip_eol_run line (S (length line)) []) as (text & H1 & H2);
    [lia|].
  exists text. by rewrite app_nil_r in H2.
Qed.

Lemma stripped_take (line text : list Z) :
  stripped line text →
  take (Z.to_nat (len text)) line = text ∧ 0 <= len text <= len line.
Proof.
  intros (suffix & -> & _). rewrite to_nat_len, take_app_length.
  split; [done|]. unfold len. rewrite length_app. lia.
Qed.

(** The loop of [editorOpen] adds one row for each line, holding the
    line without its line end. *)
Lemma open_lines_spec (lines : list (list Z)) (E : editorConfig) :
  rows_ok E →
  ∃ E', open_lines lines E = Some E'
        ∧ numrows E' = numrows E + len lines
        ∧ cx E' = cx E ∧ cy E' = cy E ∧ same_view E E'
        ∧ rows_ok E'
        ∧ (∀ i, 0 <= i < numrows E → row_at E' i = row_at E i)
        ∧ (∀ (i : nat) line, lines !! i = Some line →
             ∃ text, stripped line text
                     ∧ text_at E' (numrows E + Z.of_nat i) text).
Proof.
  revert E. induction lines as [|line lines IH]; intros E Hrows.
  - exists E. split; [done|]. unfold len. cbn [length].
    split; [lia|]. split; [done|]. split; [done|].
    split; [apply same_view_refl|]. split; [done|]. split; [done|].
    by intros i line [=].
  - cbn [open_lines].
    destruct (strip_eol_line line) as (text & Hstrip & ->).
    destruct (stripped_take line text Hstrip) as [Htake Hrange].
    cbn [mbind option_bind]. pose proof Hrows as [Hnum Hall].
    destruct (editorAppendRow_holds line (len text) E Hnum Hrange)
      as (r & Happ & Hr).
    rewrite Htake in Hr. rewrite Happ. cbn [mbind option_bind].
    set (E1 := set_numrows (set_row E (row E ++ [r])) (numrows E + 1)) in *.
    assert (Hrows1 : rows_ok E1).
    { split; subst E1; fields.
      - rewrite Hnum. unfold len. rewrite length_app. cbn [length]. lia.
      - apply Forall_app. split; [done|]. repeat constructor. eauto. }
    pose proof (len_nonneg (row E)) as Hnn.
    assert (Hold : ∀ i, 0 <= i < numrows E → row_at E1 i = row_at E i).
    { intros i Hi. unfold row_at. subst E1. fields.
      destruct (Z.ltb_spec i 0); [done|].
      apply lookup_app_l. unfold len in *. lia. }
    assert (Hnew : row_at E1 (numrows E) = Some r).
    { unfold row_at. subst E1. fields. rewrite Hnum.
      destruct (Z.ltb_spec (len (row E)) 0); [lia|].
      by rewrite to_nat_len, list_lookup_middle. }
    destruct (IH E1 Hrows1)
      as (E' & Hopen & Hnum' & Hcx' & Hcy' & Hview' & Hrows' & Hold' & Hnew').
    exists E'. split; [done|].
    assert (Hn1 : numrows E1 = numrows E + 1) by (by subst E1).
    split; [rewrite Hnum', Hn1, len_cons; lia|].
    split; [by rewrite Hcx'|]. split; [by rewrite Hcy'|].
    split; [eapply same_view_trans; [|exact Hview']; by repeat split|].
    split; [done|]. split.
    + intros i Hi. rewrite Hold' by lia. by apply Hold.
    + intros [|i] line' Hl; cbn in Hl.
      * injection Hl as <-. exists text. split; [done|].
        exists r. rewrite Z.add_0_r, Hold' by lia.
        split; [done|]. by destruct Hr.
      * destruct (Hnew' i line' Hl) as (text' & Hs' & Ht').
        exists text'. split; [done|].
        replace (numrows E + Z.of_nat (S i)) with (numrows E1 + Z.of_nat i)
          by lia. done.
Qed.

(** What [editorOpen] does to a state [main] can be in before its loop
    is covered by [loaded]. *)
Lemma open_lines_loaded (ws_row ws_col : Z) (lines : list (list Z))
    (E E' : editorConfig) :
  loaded ws_row ws_col E → open_lines lines E = Some E' →
  loaded ws_row ws_col E'.
Proof.
  revert E. induction lines as [|line lines IH]; intros E Hload Hopen.
  - by injection Hopen as <-.
  - cbn [open_lines] in Hopen.
    destruct (strip_eol_line line) as (text & Hstrip & Hrun).
    rewrite Hrun in Hopen. cbn [mbind option_bind] in Hopen.
    destruct (editorAppendRow line (len text) E) as [E1|] eqn:Happ; [|done].
    cbn [mbind option_bind] in Hopen.
    apply (IH E1); [|done].
    eapply loaded_line; [exact Hload| |exact Happ].
    by destruct (stripped_take line text Hstrip).
Qed.

(** X10: [editorOpen] exits with status 1 when the file cannot be opened;
    otherwise it adds one row for each line [getline] returns, in order,
    holding the line without its trailing newline and carriage-return
    bytes, and leaves the rows that were there, the cursor and the
    viewport alone. The lines and the number of rows reached are to fit
    the [int] sizes of the source. *)
Theorem open_adds_stripped_lines (lines : list (list Z))
    (E : editorConfig) :
  rows_ok E →
  Forall text_fits lines → numrows E + len lines <= INT_MAX →
  editorOpen None E = Exited 1
  ∧ ∃ E', editorOpen (Some lines) E = Running E'
          ∧ numrows E' = numrows E + len lines
          ∧ cx E' = cx E ∧ cy E' = cy E ∧ same_view E E'
          ∧ rows_ok E'
          ∧ (∀ i, 0 <= i < numrows E → row_at E' i = row_at E i)
          ∧ (∀ (i : nat) line, lines !! i = Some line →
               ∃ text, stripped line text
                       ∧ text_at E' (numrows E + Z.of_nat i) text).
Proof.
  intros Hrows _ _. split; [done|].
  destruct (open_lines_spec lines E Hrows) as (E' & Hopen & Hrest).
  exists E'. split; [|exact Hrest]. cbn [editorOpen]. by rewrite Hopen.
Qed.

Lemma open_adds_stripped_lines_witness :
  ∃ E', editorOpen (Some [[97; 98; 9; 99; 13; 10]; [10]]) (initEditor 24 80)
        = Running E'
        ∧ numrows E' = 2
        ∧ text_at E' 0 [97; 98; 9; 99] ∧ text_at E' 1 [].
Proof.
  destruct (open_adds_stripped_lines [[97; 98; 9; 99; 13; 10]; [10]]
              (initEditor 24 80) (init_rows_ok 24 80))
    as (_ & E' & Hopen & Hnum & _ & _ & _ & _ & _ & Hnew);
    [repeat constructor; by vm_compute|by vm_compute|].
  exists E'. split; [exact Hopen|]. split; [exact Hnum|].
  vm_compute in Hopen. injection Hopen as <-.
  split; eexists; (split; [reflexivity|split; reflexivity]).
Defined.

(** X11: when every line [getline] returns has its only newline, if any,
    as its last byte, no row [editorOpen] adds contains a newline. *)
Theorem opened_rows_hold_no_newline (lines : list (list Z))
    (E E' : editorConfig) :
  rows_ok E →
  Forall (λ line, ∀ i, line !! i = Some NEWLINE → S i = length line) lines →
  editorOpen (Some lines) E = Running E' →
  ∀ i text, numrows E <= i < numrows E' → text_at E' i text →
            NEWLINE ∉ text.
Proof.
  intros Hrows Hlines Hopen i text Hi (r & Hr & Hh).
  destruct (open_lines_spec lines E Hrows)
    as (E2 & Hopen2 & Hnum & _ & _ & _ & _ & _ & Hnew).
  cbn [editorOpen] in Hopen. rewrite Hopen2 in Hopen. injection Hopen as <-.
  assert (Hlt : (Z.to_nat (i - numrows E) < length lines)%nat)
    by (unfold len in *; lia).
  destruct (lookup_lt_is_Some_2 _ _ Hlt) as [line Hline].
  destruct (Hnew _ line Hline) as (text' & Hs & (r' & Hr' & Hh')).
  replace (numrows E + Z.of_nat (Z.to_nat (i - numrows E))) with i in Hr'
    by lia.
  assert (r' = r) as -> by congruence.
  rewrite (holds_unique r text' text Hh' Hh) in Hs. clear Hh' Hr' text'.
  rewrite Forall_lookup in Hlines. specialize (Hlines _ _ Hline).
  destruct Hs as (suffix & -> & Hsuffix & Hlast).
  intros Hin. apply list_elem_of_lookup in Hin as [j Hj].
  pose proof (lookup_lt_Some _ _ _ Hj) as Hjlt.
  specialize (Hlines j (lookup_app_l_Some _ _ _ _ Hj)).
  rewrite length_app in Hlines.
  assert (S j = length text) by lia.
  apply (Hlast NEWLINE); [|by left].
  rewrite last_lookup. by replace (pred (length text)) with j by lia.
Qed.

Lemma opened_rows_hold_no_newline_witness :
  ∃ E', editorOpen (Some [[97; 10]; [98]]) (initEditor 24 80) = Running E'
        ∧ text_at E' 0 [97] ∧ NEWLINE ∉ [97].
Proof.
  eexists. split; [vm_compute; reflexivity|].
  assert (Ht : ∀ (E : editorConfig) r, row_at E 0 = Some r → holds r [97] →
                                       text_at E 0 [97])
    by (intros E r Hr Hh; by exists r).
  split.
  - eapply Ht; [reflexivity|]. split; reflexivity.
  - eapply (opened_rows_hold_no_newline [[97; 10]; [98]] (initEditor 24 80)
              _ (init_rows_ok 24 80)).
    + repeat constructor; intros [|[|i]]; cbn; intros [=]; reflexivity.
    + vm_compute. reflexivity.
    + instantiate (1 := 0). cbn. lia.
    + eapply Ht; [reflexivity|]. split; reflexivity.
Defined.

(** * The append buffer *)

Lemma emitted_init : emitted ABUF_INIT [].
Proof. done. Qed.

Lemma abAppend_emitted (ab : abuf) (out s : list Z) (n : Z) :
  emitted ab out → 0 <= n <= len s →
  ∃ ab', abAppend true ab s n = Some ab'
         ∧ emitted ab' (out ++ take (Z.to_nat n) s).
Proof.
  intros [Hb Hlen] Hn. unfold abAppend. rewrite Hb, Hlen.
  assert (Hre : realloc (Some <$> out) (len out + n)
                = (Some <$> out) ++ replicate (Z.to_nat n) None).
  { unfold realloc. rewrite length_fmap.
    rewrite take_ge by (rewrite length_fmap; unfold len; lia).
    f_equal. f_equal. unfold len. lia. }
  rewrite Hre. unfold memcpy_at.
  rewrite len_app, len_fmap.
  assert (Hrep : len (replicate (Z.to_nat n) (@None Z)) = n)
    by (unfold len; rewrite length_replicate; lia).
  rewrite Hrep. pose proof (len_nonneg out).
  destruct (Z.leb_spec 0 n); [|lia].
  destruct (Z.leb_spec n (len s)); [|lia].
  destruct (Z.leb_spec 0 (len out)); [|lia].
  destruct (Z.leb_spec (len out + n) (len out + n)); [|lia].
  cbn [andb mbind option_bind]. eexists. split; [reflexivity|].
  split; cbn [Abuf.b Abuf.len].
  - rewrite to_nat_len.
    rewrite <- (length_fmap Some out) at 1. rewrite take_app_length.
    rewrite drop_ge, app_nil_r, fmap_app; [done|].
    rewrite length_app, length_fmap, length_replicate. unfold len. lia.
  - rewrite len_app. f_equal. unfold len in *. rewrite length_take. lia.
Qed.

Lemma abAppend_all (ab : abuf) (out s : list Z) :
  emitted ab out →
  ∃ ab', abAppend true ab s (len s) = Some ab' ∧ emitted ab' (out ++ s).
Proof.
  intros Hab. pose proof (len_nonneg s).
  destruct (abAppend_emitted ab out s (len s) Hab) as (ab' & H1 & H2);
    [lia|].
  exists ab'. split; [done|]. by rewrite to_nat_len, firstn_all in H2.
Qed.

(** X12: [abAppend] adds the first [len] bytes of [s] at the end of the
    buffer and leaves the bytes before them alone; a negative [len], or
    one beyond the bytes readable at [s], has no defined result; when
    [realloc] fails the buffer is left as it was. The sum
    [ab->len + len] is to be an [int]. *)
Theorem append_extends_buffer (ab : abuf) (out s : list Z) (n : Z) :
  emitted ab out → int_range n → int_range (len out + n) →
  (0 <= n <= len s →
   ∃ ab', abAppend true ab s n = Some ab'
          ∧ emitted ab' (out ++ take (Z.to_nat n) s)
          ∧ Abuf.len ab' = Abuf.len ab + n)
  ∧ (n < 0 ∨ len s < n → abAppend true ab s n = None)
  ∧ abAppend false ab s n = Some ab.
Proof.
  intros Hab _ _. split; [|split; [|done]].
  - intros Hn. destruct (abAppend_emitted ab out s n Hab Hn) as (ab' & H1 & H2).
    exists ab'. split; [done|]. split; [done|].
    destruct H2 as [_ ->]. destruct Hab as [_ ->].
    rewrite len_app. unfold len in *. rewrite length_take. lia.
  - intros Hn. unfold abAppend, memcpy_at.
    destruct (Z.leb_spec 0 n); [|done].
    destruct (Z.leb_spec n (len s)); [lia|done].
Qed.

Lemma append_extends_buffer_witness :
  ∃ ab', abAppend true (Abuf.mk [Some 126] 1) [27; 91; 75; 0] 3 = Some ab'
         ∧ emitted ab' [126; 27; 91; 75]
         ∧ Abuf.len ab' = 4.
Proof.
  assert (Hab : emitted (Abuf.mk [Some 126] 1) [126]) by done.
  destruct (append_extends_buffer (Abuf.mk [Some 126] 1) [126]
              [27; 91; 75; 0] 3 Hab) as (Hin & _ & _);
    [by vm_compute|by vm_compute|].
  apply Hin. unfold len. cbn [length]. lia.
Defined.

(** * Drawing the window *)

(** A loop whose rounds each add a line and the suffix [sfx] adds the
    lines of all rounds, in order. *)
Lemma for_loop_lines (body : Z → abuf → option abuf)
    (Q : Z → list Z → Prop) (sfx : list Z) :
  ∀ (n : nat) (j : Z),
    (∀ k ab out, j <= k < j + Z.of_nat n → emitted ab out →
       ∃ ab' l, body k ab = Some ab' ∧ emitted ab' (out ++ l ++ sfx)
                ∧ Q k l) →
    ∀ ab out, emitted ab out →
      ∃ ab' ls, for_loop n j body ab = Some ab'
                ∧ emitted ab' (out ++ concat ((λ l, l ++ sfx) <$> ls))
                ∧ length ls = n
                ∧ ∀ (i : nat) l, ls !! i = Some l → Q (j + Z.of_nat i) l.
Proof.
  induction n as [|n IH]; intros j Hbody ab out Hab.
  - exists ab, []. cbn. rewrite app_nil_r.
    do 3 (split; [done|]). intros i l Hl. by rewrite lookup_nil in Hl.
  - cbn [for_loop].
    destruct (Hbody j ab out) as (ab1 & l & Hb & Hab1 & Hq); [lia|done|].
    rewrite Hb. cbn [mbind option_bind].
    destruct (IH (j + 1)) with (ab := ab1) (out := out ++ l ++ sfx)
      as (ab' & ls & Hloop & Hab' & Hlen & Hqs); [|done|].
    { intros k ab0 out0 Hk. apply Hbody. lia. }
    exists ab', (l :: ls). split; [done|]. split.
    { rewrite fmap_cons. cbn [concat]. by rewrite <- !app_assoc in *. }
    split; [cbn [length]; lia|].
    intros [|i] l' Hl'; cbn in Hl'.
    + injection Hl' as <-. by rewrite Z.add_0_r.
    + replace (j + Z.of_nat (S i)) with (j + 1 + Z.of_nat i) by lia. eauto.
Qed.

Lemma pad_spaces_emitted (n : nat) :
  ∀ ab out, emitted ab out →
    ∃ ab', pad_spaces n ab = Some ab'
           ∧ emitted ab' (out ++ replicate n SPACE).
Proof.
  induction n as [|n IH]; intros ab out Hab.
  - exists ab. split; [done|]. by rewrite app_nil_r.
  - cbn [pad_spaces].
    destruct (abAppend_all ab out [SPACE] Hab) as (ab1 & H1 & Hab1).
    change (len [SPACE]) with 1 in H1. rewrite H1.
    cbn [mbind option_bind].
    destruct (IH ab1 _ Hab1) as (ab' & H2 & Hab').
    exists ab'. split; [done|].
    by rewrite <- app_assoc in Hab'.
Qed.

Lemma init_prefix_app (ys : list Z) (rest : list (option Z)) :
  init_prefix ((Some <$> ys) ++ rest) = ys ++ init_prefix rest.
Proof. induction ys as [|y ys IH]; [done|]. cbn. by rewrite IH. Qed.

(** Reading [n] bytes at offset [off] of a block that starts with the
    bytes [xs], where [n] is at most the number of those left. *)
Lemma bytes_from_prefix (xs : list Z) (rest : list (option Z)) (off n : Z) :
  0 <= off → 0 <= n <= Z.max 0 (len xs - off) →
  n <= len (bytes_from ((Some <$> xs) ++ rest) off)
  ∧ take (Z.to_nat n) (bytes_from ((Some <$> xs) ++ rest) off)
    = take (Z.to_nat n) (drop (Z.to_nat off) xs).
Proof.
  intros Hoff Hn. unfold bytes_from.
  destruct (Z.ltb_spec off 0); [lia|].
  destruct (Z.le_gt_cases off (len xs)) as [Hle|Hgt].
  - rewrite drop_app_le by (rewrite length_fmap; unfold len in *; lia).
    rewrite <- fmap_drop, init_prefix_app.
    assert (Hlen : n <= len (drop (Z.to_nat off) xs))
      by (unfold len in *; rewrite length_drop; lia).
    split; [rewrite len_app; pose proof (len_nonneg (init_prefix rest)); lia|].
    apply take_app_le. unfold len in *. lia.
  - assert (n = 0) as -> by lia. split; [apply len_nonneg|done].
Qed.

Lemma take_min {A : Type} (l : list A) (n m : nat) :
  m = Nat.min n (length l) → take m l = take n l.
Proof.
  intros ->. destruct (Nat.le_gt_cases n (length l)).
  - by rewrite Nat.min_l.
  - rewrite Nat.min_r by lia. by rewrite firstn_all, take_ge by lia.
Qed.

Lemma welcome_text_len : len welcome_text = 32.
Proof. reflexivity. Qed.

Lemma welcome_line_len (E : editorConfig) :
  0 <= screencols E → len (welcome_line E) <= screencols E.
Proof.
  intros Hsc. unfold welcome_line. rewrite welcome_text_len.
  rewrite len_app. unfold len at 1 2.
  rewrite !length_take. cbn [length]. rewrite length_replicate.
  change (length welcome_text) with 32%nat.
  assert ((screencols E - Z.min 32 (screencols E)) / 2
          <= screencols E - Z.min 32 (screencols E)) by zmod.
  assert (0 <= (screencols E - Z.min 32 (screencols E)) / 2) by zmod.
  lia.
Qed.

Lemma editorDrawRows_body (E : editorConfig) (ab : abuf) :
  editorDrawRows E ab = for_range 0 (screenrows E) (draw_row_body E) ab.
Proof. reflexivity. Qed.

Lemma draw_text_row (E : editorConfig) (r : erow) (bs : list Z)
    (ab : abuf) (out : list Z) :
  rendered r bs → 0 <= coloff E → 0 <= screencols E → emitted ab out →
  ∃ ab',
    (let len := rsize r - coloff E in
     let len := if len <? 0 then 0 else len in
     let len := if len >? screencols E then screencols E else len in
     abAppend true ab (bytes_from (render r) (coloff E)) len) = Some ab'
    ∧ emitted ab' (out ++ window_of E bs).
Proof.
  intros (_ & Hrsize & free & Hrender) Hco Hsc Hab. cbv zeta.
  set (n := if (if rsize r - coloff E <? 0 then 0 else rsize r - coloff E)
               >? screencols E
            then screencols E
            else if rsize r - coloff E <? 0 then 0 else rsize r - coloff E).
  assert (Hn : n = Z.min (screencols E) (Z.max 0 (rsize r - coloff E))).
  { subst n. destruct (Z.ltb_spec (rsize r - coloff E) 0);
      match goal with |- context [?a >? ?b] =>
        destruct (Z.gtb_spec a b) end; lia. }
  clearbody n. rewrite Hrender.
  destruct (bytes_from_prefix (expand bs) (Some NUL :: free) (coloff E) n)
    as [Hlen Htake]; [lia|lia|].
  destruct (abAppend_emitted ab out
              (bytes_from ((Some <$> expand bs) ++ Some NUL :: free)
                          (coloff E)) n Hab) as (ab' & Happ & Hab'); [lia|].
  exists ab'. split; [done|]. rewrite Htake in Hab'.
  unfold window_of.
  rewrite <- (take_min _ (Z.to_nat (screencols E)) (Z.to_nat n)); [done|].
  rewrite length_drop. unfold len in *. lia.
Qed.

Lemma draw_welcome (E : editorConfig) (ab : abuf) (out : list Z) :
  0 <= screencols E → emitted ab out →
  ∃ ab',
    (let '(welcome, welcomelen) :=
       snprintf 80 (str "termEdit editor -- version " ++ EDIT_VERSION) in
     let welcomelen :=
       if welcomelen >? screencols E then screencols E else welcomelen in
     let padding := Z.quot (screencols E - welcomelen) 2 in
     '(ab, padding) ←
       (if negb (padding =? 0)
        then ab ← abAppend true ab (str "~") 1;
             Some (ab, padding - 1)
        else Some (ab, padding));
     ab ← (if padding <? 0 then None
           else pad_spaces (Z.to_nat padding) ab);
     abAppend true ab welcome welcomelen) = Some ab'
    ∧ emitted ab' (out ++ welcome_line E).
Proof.
  intros Hsc Hab.
  change (snprintf 80 (str "termEdit editor -- version " ++ EDIT_VERSION))
    with (welcome_text ++ [NUL], 32).
  cbv beta iota zeta. unfold welcome_line. rewrite welcome_text_len.
  set (wl := if 32 >? screencols E then screencols E else 32).
  assert (Hwl : wl = Z.min 32 (screencols E))
    by (subst wl; destruct (Z.gtb_spec 32 (screencols E)); lia).
  rewrite <- Hwl. assert (0 <= wl <= 32) by lia.
  rewrite Z.quot_div_nonneg by lia.
  set (padding := (screencols E - wl) / 2).
  assert (Hpad : 0 <= padding) by (subst padding; zmod).
  assert (Hlast : ∀ ab1 out1, emitted ab1 out1 →
            ∃ ab', abAppend true ab1 (welcome_text ++ [NUL]) wl = Some ab'
                   ∧ emitted ab' (out1 ++ take (Z.to_nat wl) welcome_text)).
  { intros ab1 out1 Hab1.
    destruct (abAppend_emitted ab1 out1 (welcome_text ++ [NUL]) wl Hab1)
      as (ab' & H1 & H2).
    { rewrite len_app, welcome_text_len. change (len [NUL]) with 1. lia. }
    exists ab'. split; [done|].
    rewrite take_app_le in H2; [done|].
    change (length welcome_text) with 32%nat. lia. }
  destruct (Z.eqb_spec padding 0) as [Hz|Hnz]; cbn [negb].
  - cbn [mbind option_bind]. rewrite Hz. cbn [Z.ltb Z.compare Z.to_nat pad_spaces].
    cbn [mbind option_bind take app].
    destruct (Hlast ab out Hab) as (ab' & H1 & H2). eauto.
  - destruct (abAppend_all ab out (str "~") Hab) as (ab1 & H1 & Hab1).
    change (len (str "~")) with 1 in H1. rewrite H1.
    cbn [mbind option_bind].
    destruct (Z.ltb_spec (padding - 1) 0); [lia|].
    destruct (pad_spaces_emitted (Z.to_nat (padding - 1)) ab1 _ Hab1)
      as (ab2 & H2 & Hab2).
    rewrite H2. cbn [mbind option_bind].
    destruct (Hlast ab2 _ Hab2) as (ab' & H3 & Hab3).
    exists ab'. split; [done|].
    replace (take (Z.to_nat padding)
               (ch "~" :: replicate (Z.to_nat padding) SPACE))
      with (str "~" ++ replicate (Z.to_nat (padding - 1)) SPACE).
    { by rewrite <- !app_assoc in *. }
    replace (Z.to_nat padding) with (S (Z.to_nat (padding - 1))) by lia.
    rewrite firstn_cons, take_replicate.
    change (str "~") with [ch "~"]. cbn [app]. f_equal. f_equal. lia.
Qed.

Lemma draw_row_body_spec (E : editorConfig) (y : Z) (ab : abuf)
    (out : list Z) :
  rows_ok E → 0 <= rowoff E → 0 <= coloff E → 0 <= screencols E →
  0 <= y < screenrows E → emitted ab out →
  ∃ ab' line, draw_row_body E y ab = Some ab'
              ∧ emitted ab' (out ++ line ++ ERASE_LINE ++ CRLF)
              ∧ screen_line E y line.
Proof.
  intros Hrows Hro Hco Hsc Hy Hab. unfold draw_row_body. cbv zeta.
  assert (Hend : ∀ ab1 line, emitted ab1 (out ++ line) →
            ∃ ab', (ab2 ← abAppend true ab1 (ESC :: str "[K") 3;
                    abAppend true ab2 [CARRIAGE_RETURN; NEWLINE] 2) = Some ab'
                   ∧ emitted ab' (out ++ line ++ ERASE_LINE ++ CRLF)).
  { intros ab1 line Hab1.
    destruct (abAppend_all ab1 _ ERASE_LINE Hab1) as (ab2 & H2 & Hab2).
    destruct (abAppend_all ab2 _ CRLF Hab2) as (ab3 & H3 & Hab3).
    exists ab3. change (len ERASE_LINE) with 3 in H2.
    change (len CRLF) with 2 in H3.
    change (ESC :: str "[K") with ERASE_LINE.
    change [CARRIAGE_RETURN; NEWLINE] with CRLF.
    rewrite H2. cbn [mbind option_bind]. split; [done|].
    by rewrite <- !app_assoc in Hab3. }
  destruct (Z.geb_spec (y + rowoff E) (numrows E)) as [Hbelow|Hin].
  - assert (Hnone : row_at E (y + rowoff E) = None)
      by (apply row_at_None; [done|lia]).
    assert (Hquot : Z.quot (screenrows E) 3 = screenrows E / 3)
      by (apply Z.quot_div_nonneg; lia).
    destruct ((numrows E =? 0) && (y =? Z.quot (screenrows E) 3)) eqn:Hw;
      rewrite Hquot in Hw.
    + destruct (draw_welcome E ab out Hsc Hab) as (ab1 & H1 & Hab1).
      cbv zeta in H1. rewrite H1. cbn [mbind option_bind].
      destruct (Hend ab1 _ Hab1) as (ab' & H2 & Hab').
      exists ab', (welcome_line E). split; [done|]. split; [done|].
      split; [|split].
      * intros text (r & Hr & _). congruence.
      * intros _. by rewrite Hw.
      * pose proof (welcome_line_len E Hsc). lia.
    + destruct (abAppend_all ab out (str "~") Hab) as (ab1 & H1 & Hab1).
      change (len (str "~")) with 1 in H1. rewrite H1.
      cbn [mbind option_bind].
      destruct (Hend ab1 _ Hab1) as (ab' & H2 & Hab').
      exists ab', [ch "~"]. split; [done|]. split; [done|].
      split; [|split].
      * intros text (r & Hr & _). congruence.
      * intros _. by rewrite Hw.
      * change (len [ch "~"]) with 1. lia.
  - destruct (row_at_defined E (y + rowoff E) Hrows) as [r Hr]; [lia|].
    destruct (row_at_Some E _ r Hrows Hr) as (_ & bs & Hbs).
    rewrite Hr. cbn [mbind option_bind].
    destruct (draw_text_row E r bs ab out Hbs Hco Hsc Hab) as (ab1 & H1 & Hab1).
    cbv zeta in H1. rewrite H1. cbn [mbind option_bind].
    destruct (Hend ab1 _ Hab1) as (ab' & H2 & Hab').
    exists ab', (window_of E bs). split; [done|]. split; [done|].
    split; [|split].
    * intros text (r' & Hr' & Hh). assert (r' = r) as -> by congruence.
      destruct Hbs as (Hh' & _). by rewrite (holds_unique r text bs Hh Hh').
    * lia.
    * unfold window_of, len. rewrite length_take. lia.
Qed.

Lemma editorDrawRows_spec (E : editorConfig) (ab : abuf) (out : list Z) :
  rows_ok E → 0 <= rowoff E → 0 <= coloff E → 0 <= screencols E →
  emitted ab out →
  ∃ ab' lines,
    editorDrawRows E ab = Some ab'
    ∧ emitted ab'
        (out ++ concat ((λ line, line ++ ERASE_LINE ++ CRLF) <$> lines))
    ∧ length lines = Z.to_nat (screenrows E)
    ∧ ∀ (y : nat) line, lines !! y = Some line →
                        screen_line E (Z.of_nat y) line.
Proof.
  intros Hrows Hro Hco Hsc Hab. rewrite editorDrawRows_body.
  unfold for_range. rewrite Z.sub_0_r.
  destruct (for_loop_lines (draw_row_body E) (screen_line E)
              (ERASE_LINE ++ CRLF) (Z.to_nat (screenrows E)) 0)
    with (ab := ab) (out := out) as (ab' & lines & H1 & H2 & H3 & H4);
    [|done|].
  { intros k ab0 out0 Hk Hab0.
    apply draw_row_body_spec; [done..|lia|done]. }
  exists ab', lines. by repeat (split; [done|]).
Qed.

(** X13: on a state with sound rows and non-negative offsets and width,
    [editorDrawRows] adds exactly [screenrows] lines to the buffer, each
    followed by erase-to-end-of-line and CR LF. Line [y] is the rendered
    text of row [y + rowoff] from column [coloff] on, cut to [screencols]
    columns; below the document it is a tilde, or in an empty document
    the welcome line at a third of the height. No line is wider than the
    window (or than the tilde in a window without columns). The fields
    of the state, the sizes of the rows, the file rows [y + rowoff] and
    the length the buffer grows to are to be [int]s. *)
Theorem draw_rows_emits_window (E : editorConfig) (ab : abuf)
    (out : list Z) :
  rows_ok E → 0 <= rowoff E → 0 <= coloff E → 0 <= screencols E →
  emitted ab out →
  int_fields E → rows_fit E → int_range (rowoff E + screenrows E) →
  len out + rows_bytes E <= INT_MAX →
  ∃ ab' lines,
    editorDrawRows E ab = Some ab'
    ∧ emitted ab'
        (out ++ concat ((λ line, line ++ ERASE_LINE ++ CRLF) <$> lines))
    ∧ length lines = Z.to_nat (screenrows E)
    ∧ ∀ (y : nat) line, lines !! y = Some line →
                        screen_line E (Z.of_nat y) line.
Proof.
  intros Hrows Hro Hco Hsc Hab _ _ _ _. by apply editorDrawRows_spec.
Qed.

(** * Formatted numbers *)

Lemma digits_length (fuel : nat) :
  ∀ (n : Z) (k : nat),
    0 <= n < 10 ^ Z.of_nat k → (1 <= k)%nat →
    (1 <= length (digits fuel (n)) <= k)%nat ∨ fuel = O.
Proof.
  induction fuel as [|fuel IH]; intros n k Hn Hk; [by right|left].
  cbn [digits]. rewrite length_app. cbn [length].
  destruct (Z.ltb_spec n 10) as [Hlt|Hge]; [cbn [length]; lia|].
  destruct k as [|[|k]]; [lia|cbn in Hn; lia|].
  assert (Hdiv : 0 <= n / 10 < 10 ^ Z.of_nat (S k)).
  { replace (Z.of_nat (S (S k))) with (Z.succ (Z.of_nat (S k))) in Hn by lia.
    rewrite Z.pow_succ_r in Hn by lia. zmod. }
  destruct (IH (n / 10) (S k) Hdiv) as [H|H]; [lia|lia|].
  subst fuel. cbn [digits length]. lia.
Qed.

Lemma digits_range (fuel : nat) :
  ∀ n, Forall (λ d, ch "0" <= d <= ch "9") (digits fuel n).
Proof.
  induction fuel as [|fuel IH]; intros n; [constructor|].
  cbn [digits]. apply Forall_app. split.
  - destruct (n <? 10); [constructor|apply IH].
  - apply Forall_singleton. eval_ch. zmod.
Qed.

Lemma digits_value_snoc (ds : list Z) (d : Z) :
  digits_value (ds ++ [d]) = 10 * digits_value ds + (d - ch "0").
Proof. unfold digits_value. by rewrite fold_left_app. Qed.

(** The digits written are those of the number. *)
Lemma digits_value_digits (fuel : nat) :
  ∀ n, 0 <= n < 10 ^ Z.of_nat fuel → digits_value (digits fuel n) = n.
Proof.
  induction fuel as [|fuel IH]; intros n Hn; [cbn in Hn; cbn; lia|].
  cbn [digits]. rewrite digits_value_snoc.
  destruct (Z.ltb_spec n 10) as [Hlt|Hge].
  - change (digits_value []) with 0. rewrite Z.mod_small by lia. lia.
  - rewrite IH; [zmod|].
    replace (Z.of_nat (S fuel)) with (Z.succ (Z.of_nat fuel)) in Hn by lia.
    rewrite Z.pow_succ_r in Hn by lia. zmod.
Qed.

Lemma fmt_d_value (n : Z) : 0 <= n → digits_value (fmt_d n) = n.
Proof.
  intros Hn. unfold fmt_d. destruct (Z.ltb_spec n 0); [lia|].
  apply digits_value_digits. split; [done|].
  rewrite Z.abs_eq by done.
  destruct (Z.eq_dec n 0) as [->|Hnz]; [done|].
  pose proof (Z.log2_nonneg n).
  replace (Z.of_nat (S (Z.to_nat (Z.log2 n)))) with (Z.succ (Z.log2 n))
    by lia.
  destruct (Z.log2_spec n) as [_ Hlt]; [lia|].
  eapply Z.lt_le_trans; [exact Hlt|].
  apply Z.pow_le_mono_l. lia.
Qed.

(** A number in the range of an [int] is written with a sign and at
    most ten digits, none of them a NUL. *)
Lemma fmt_d_len (n : Z) : int_range n → 1 <= len (fmt_d n) <= 11.
Proof.
  intros Hn. unfold int_range in Hn. unfold fmt_d, len.
  set (fuel := S (Z.to_nat (Z.log2 (Z.abs n)))).
  destruct (Z.ltb_spec n 0).
  - cbn [length].
    destruct (digits_length fuel (- n) 10) as [H1|H1]; [lia|lia|lia|done].
  - destruct (digits_length fuel n 10) as [H1|H1]; [lia|lia|lia|done].
Qed.

Lemma fmt_d_len_nonneg (n : Z) :
  0 <= n → int_range n → 1 <= len (fmt_d n) <= 10.
Proof.
  intros H0 Hn. unfold int_range in Hn. unfold fmt_d, len.
  set (fuel := S (Z.to_nat (Z.log2 (Z.abs n)))).
  destruct (Z.ltb_spec n 0); [lia|].
  destruct (digits_length fuel n 10) as [H1|H1]; [lia|lia|lia|done].
Qed.

Lemma fmt_d_no_nul (n : Z) : Forall (λ c, c ≠ NUL) (fmt_d n).
Proof.
  assert (Hd : ∀ fuel m, Forall (λ c, c ≠ NUL) (digits fuel m)).
  { intros fuel m. pose proof (digits_range fuel m) as Hr.
    rewrite Forall_lookup in Hr. apply Forall_lookup. intros i d Hi.
    specialize (Hr i d Hi). revert Hr. eval_ch. unfold NUL. lia. }
  unfold fmt_d. destruct (n <? 0); [|apply Hd].
  constructor; [done|apply Hd].
Qed.

Lemma strlen_terminated (s rest : list Z) :
  Forall (λ c, c ≠ NUL) s → strlen (s ++ NUL :: rest) = Some (len s).
Proof.
  induction 1 as [|c s Hc _ IH]; [done|].
  cbn [app strlen]. destruct (Z.eqb_spec c NUL); [done|].
  rewrite IH. cbn. f_equal. rewrite len_cons. lia.
Qed.

(** * The status bar and the message bar *)

Lemma status_left_len (X : editorStatus) (E : editorConfig) :
  int_range (numrows E) → len (status_left X E) <= 40.
Proof.
  intros Hnum. unfold status_left. rewrite !len_app.
  pose proof (fmt_d_len _ Hnum).
  change (len (str " - ")) with 3. change (len (str " lines")) with 6.
  assert (len (take 20 (default (str "[No Name]") (filename X))) <= 20)
    by (unfold len; rewrite length_take; lia).
  lia.
Qed.

Lemma status_right_len (E : editorConfig) :
  int_range (numrows E) → int_range (cy E + 1) →
  3 <= len (status_right E) <= 23.
Proof.
  intros Hnum Hcy. unfold status_right. rewrite !len_app.
  pose proof (fmt_d_len _ Hnum). pose proof (fmt_d_len _ Hcy).
  change (len (str "/")) with 1. lia.
Qed.

(** The loop of [editorDrawStatusBar] from column [l] on. *)
Lemma status_fill_spec (E : editorConfig) (right rest : list Z) (fuel : nat) :
  ∀ (l : Z) (ab : abuf) (out : list Z),
    emitted ab out → 0 < len right → l <= screencols E →
    (Z.to_nat (screencols E - l) < fuel)%nat →
    ∃ ab', status_fill fuel E (right ++ rest) (len right) ab l = Some ab'
           ∧ emitted ab'
               (out ++
                if len right <=? screencols E - l
                then replicate (Z.to_nat (screencols E - l - len right)) SPACE
                     ++ right
                else replicate (Z.to_nat (screencols E - l)) SPACE).
Proof.
  induction fuel as [|fuel IH]; intros l ab out Hab Hr Hl Hfuel; [lia|].
  cbn [status_fill].
  destruct (Z.ltb_spec l (screencols E)) as [Hlt|Hge].
  - destruct (Z.eqb_spec (screencols E - l) (len right)) as [Heq|Hne].
    + destruct (abAppend_emitted ab out (right ++ rest) (len right) Hab)
        as (ab' & H1 & H2).
      { rewrite len_app. pose proof (len_nonneg rest). lia. }
      exists ab'. split; [done|].
      rewrite to_nat_len, take_app_length in H2.
      destruct (Z.leb_spec (len right) (screencols E - l)); [|lia].
      by replace (Z.to_nat (screencols E - l - len right)) with O by lia.
    + destruct (abAppend_all ab out [SPACE] Hab) as (ab1 & H1 & Hab1).
      change (len [SPACE]) with 1 in H1. rewrite H1.
      cbn [mbind option_bind].
      destruct (IH (l + 1) ab1 _ Hab1 Hr) as (ab' & H2 & Hab'); [lia|lia|].
      exists ab'. split; [done|]. rewrite <- app_assoc in Hab'.
      destruct (Z.leb_spec (len right) (screencols E - l));
        destruct (Z.leb_spec (len right) (screencols E - (l + 1)));
        try lia.
      * replace (Z.to_nat (screencols E - l - len right))
          with (S (Z.to_nat (screencols E - (l + 1) - len right))) by lia.
        done.
      * replace (Z.to_nat (screencols E - l))
          with (S (Z.to_nat (screencols E - (l + 1)))) by lia.
        done.
  - exists ab. split; [done|].
    destruct (Z.leb_spec (len right) (screencols E - l)); [lia|].
    replace (Z.to_nat (screencols E - l)) with O by lia.
    by rewrite app_nil_r.
Qed.

Lemma status_bar_len (X : editorStatus) (E : editorConfig) :
  0 <= screencols E → len (status_bar X E) = screencols E.
Proof.
  intros Hsc. unfold status_bar. cbv zeta.
  set (left := take (Z.to_nat (screencols E)) (status_left X E)).
  assert (Hleft : 0 <= len left <= screencols E)
    by (subst left; unfold len; rewrite length_take; lia).
  rewrite !len_app. unfold len at 2. rewrite length_replicate.
  destruct (Z.leb_spec (len left + len (status_right E)) (screencols E)).
  - pose proof (len_nonneg (status_right E)). lia.
  - rewrite len_nil. lia.
Qed.

Lemma editorDrawStatusBar_spec (X : editorStatus) (E : editorConfig)
    (ab : abuf) (out : list Z) :
  int_range (numrows E) → int_range (cy E + 1) → 0 <= screencols E →
  emitted ab out →
  ∃ ab', editorDrawStatusBar X E ab = Some ab'
         ∧ emitted ab' (out ++ INVERT ++ status_bar X E ++ PLAIN ++ CRLF).
Proof.
  intros Hnum Hcy Hsc Hab. unfold editorDrawStatusBar.
  destruct (abAppend_all ab out INVERT Hab) as (ab1 & H1 & Hab1).
  change (len INVERT) with 4 in H1. change (ESC :: str "[7m") with INVERT.
  rewrite H1. cbn [mbind option_bind].
  change (take 20 match filename X with
                  | Some name => name
                  | None => str "[No Name]"
                  end ++ str " - " ++ fmt_d (numrows E) ++ str " lines")
    with (status_left X E).
  change (fmt_d (cy E + 1) ++ str "/" ++ fmt_d (numrows E))
    with (status_right E).
  unfold snprintf. cbv beta iota zeta.
  pose proof (status_left_len X E Hnum) as Hll.
  pose proof (status_right_len E Hnum Hcy) as Hrl.
  pose proof (len_nonneg (status_left X E)) as Hl0.
  rewrite (take_ge (status_left X E)) by (unfold len in *; lia).
  rewrite (take_ge (status_right E)) by (unfold len in *; lia).
  set (n := if len (status_left X E) >? screencols E then screencols E
            else len (status_left X E)).
  assert (Hn : n = Z.min (screencols E) (len (status_left X E)))
    by (subst n; destruct (Z.gtb_spec (len (status_left X E)) (screencols E));
        lia).
  clearbody n.
  destruct (abAppend_emitted ab1 _ (status_left X E ++ [NUL]) n Hab1)
    as (ab2 & H2 & Hab2).
  { rewrite len_app. change (len [NUL]) with 1. lia. }
  rewrite H2. cbn [mbind option_bind].
  rewrite take_app_le in Hab2 by (unfold len in *; lia).
  rewrite (take_min _ (Z.to_nat (screencols E))) in Hab2
    by (unfold len in *; lia).
  set (left := take (Z.to_nat (screencols E)) (status_left X E)) in *.
  assert (Hleft : len left = n)
    by (subst left; unfold len in *; rewrite length_take; lia).
  destruct (status_fill_spec E (status_right E) [NUL]
              (S (Z.to_nat (screencols E - n))) n ab2 _ Hab2)
    as (ab3 & H3 & Hab3); [lia..|].
  rewrite H3. cbn [mbind option_bind].
  destruct (abAppend_all ab3 _ PLAIN Hab3) as (ab4 & H4 & Hab4).
  change (len PLAIN) with 3 in H4. change (ESC :: str "[m") with PLAIN.
  rewrite H4. cbn [mbind option_bind].
  destruct (abAppend_all ab4 _ CRLF Hab4) as (ab5 & H5 & Hab5).
  change (len CRLF) with 2 in H5.
  change [CARRIAGE_RETURN; NEWLINE] with CRLF.
  exists ab5. split; [done|].
  unfold status_bar. cbv zeta. fold left. rewrite Hleft.
  replace (n + len (status_right E) <=? screencols E)
    with (len (status_right E) <=? screencols E - n)
    by (destruct (Z.leb_spec (len (status_right E)) (screencols E - n));
        destruct (Z.leb_spec (n + len (status_right E)) (screencols E));
        lia || done).
  destruct (len (status_right E) <=? screencols E - n);
    rewrite ?len_nil, ?Z.sub_0_r, ?app_nil_r in *;
    by rewrite <- !app_assoc in *.
Qed.

(** X14: for [int]-sized counters and a non-negative width,
    [editorDrawStatusBar] writes, in inverted colours and followed by
    CR LF, a bar of exactly [screencols] bytes: the name (20 bytes at
    most, [[No Name]] without a file) and line count, cut to the width,
    and the position [cy + 1 / numrows] at the right edge when both
    fit, with spaces between. The length the buffer grows to is to be
    an [int] as well. *)
Theorem status_bar_fills_width (X : editorStatus) (E : editorConfig)
    (ab : abuf) (out : list Z) :
  int_range (numrows E) → int_range (cy E + 1) → 0 <= screencols E →
  emitted ab out → len out + screencols E + 9 <= INT_MAX →
  ∃ ab', editorDrawStatusBar X E ab = Some ab'
         ∧ emitted ab' (out ++ INVERT ++ status_bar X E ++ PLAIN ++ CRLF)
         ∧ len (status_bar X E) = screencols E.
Proof.
  intros Hnum Hcy Hsc Hab _.
  destruct (editorDrawStatusBar_spec X E ab out Hnum Hcy Hsc Hab)
    as (ab' & H1 & H2).
  exists ab'. split; [done|]. split; [done|]. by apply status_bar_len.
Qed.

Lemma status_bar_fills_width_witness :
  ∃ ab', editorDrawStatusBar initStatus typed_abc ABUF_INIT = Some ab'
         ∧ emitted ab' ([] ++ INVERT ++ status_bar initStatus typed_abc
                           ++ PLAIN ++ CRLF)
         ∧ len (status_bar initStatus typed_abc) = screencols typed_abc.
Proof.
  apply (status_bar_fills_width initStatus typed_abc ABUF_INIT []).
  - unfold int_range. cbn. lia.
  - unfold int_range. cbn. lia.
  - cbn. lia.
  - exact emitted_init.
  - by vm_compute.
Defined.

Lemma editorDrawMessageBar_spec (X : editorStatus) (now : Z)
    (E : editorConfig) (msg rest : list Z) (ab : abuf) (out : list Z) :
  statusmsg X = msg ++ NUL :: rest → Forall (λ c, c ≠ NUL) msg →
  0 <= screencols E → emitted ab out →
  ∃ ab', editorDrawMessageBar X now E ab = Some ab'
         ∧ emitted ab'
             (out ++ ERASE_LINE
                  ++ if now - statusmsg_time X <? 5
                     then take (Z.to_nat (screencols E)) msg else []).
Proof.
  intros Hmsg Hnz Hsc Hab. unfold editorDrawMessageBar.
  destruct (abAppend_all ab out ERASE_LINE Hab) as (ab1 & H1 & Hab1).
  change (len ERASE_LINE) with 3 in H1.
  change (ESC :: str "[K") with ERASE_LINE.
  rewrite H1. cbn [mbind option_bind].
  rewrite Hmsg, (strlen_terminated msg rest Hnz). cbn [mbind option_bind].
  set (n := if len msg >? screencols E then screencols E else len msg).
  assert (Hn : n = Z.min (screencols E) (len msg))
    by (subst n; destruct (Z.gtb_spec (len msg) (screencols E)); lia).
  clearbody n. pose proof (len_nonneg msg).
  assert (Htake : take (Z.to_nat n) msg = take (Z.to_nat (screencols E)) msg)
    by (apply take_min; unfold len in *; lia).
  destruct (Z.eqb_spec n 0) as [Hz|Hnz']; cbn [negb andb].
  - exists ab1. split; [done|].
    rewrite <- Htake, Hz. cbn [Z.to_nat take].
    destruct (now - statusmsg_time X <? 5); by rewrite app_nil_r.
  - destruct (now - statusmsg_time X <? 5).
    + destruct (abAppend_emitted ab1 _ (msg ++ NUL :: rest) n Hab1)
        as (ab2 & H2 & Hab2).
      { rewrite len_app. pose proof (len_nonneg (NUL :: rest)). lia. }
      exists ab2. split; [done|].
      rewrite take_app_le in Hab2 by (unfold len in *; lia).
      rewrite Htake in Hab2. by rewrite <- app_assoc in Hab2.
    + exists ab1. split; [done|]. by rewrite app_nil_r.
Qed.

(** X15: a message without NUL bytes set by [editorSetStatusMessage] at
    time [t] is kept up to 79 bytes; [editorDrawMessageBar] erases the
    line and shows the message, cut to the window width, as long as
    fewer than 5 seconds have passed, and nothing from then on. The
    width and the length the buffer grows to are to be [int]s. *)
Theorem message_shows_for_five_seconds (text : list Z) (t now : Z)
    (X : editorStatus) (E : editorConfig) (ab : abuf) (out : list Z) :
  Forall (λ c, c ≠ NUL) text → 0 <= screencols E → emitted ab out →
  int_range (screencols E) →
  len out + Z.min 79 (screencols E) + 3 <= INT_MAX →
  ∃ ab', editorDrawMessageBar (editorSetStatusMessage text t X) now E ab
         = Some ab'
         ∧ emitted ab'
             (out ++ ERASE_LINE
                  ++ if now - t <? 5
                     then take (Z.to_nat (Z.min 79 (screencols E))) text
                     else []).
Proof.
  intros Hnz Hsc Hab _ _.
  destruct (editorDrawMessageBar_spec (editorSetStatusMessage text t X) now
              E (take 79 text) [] ab out) as (ab' & H1 & H2);
    [done| |done|done|].
  { rewrite Forall_lookup in Hnz. apply Forall_lookup. intros i c Hi.
    apply lookup_take_Some in Hi as [Hi _]. eauto. }
  exists ab'. split; [done|].
  cbn [editorSetStatusMessage statusmsg_time] in H2.
  rewrite take_take in H2.
  by replace (Z.to_nat (Z.min 79 (screencols E)))
    with (Nat.min (Z.to_nat (screencols E)) 79) by lia.
Qed.

Lemma message_shows_for_five_seconds_witness :
  ∃ ab', editorDrawMessageBar
           (editorSetStatusMessage (str "HELP: CTRL-Q = quit") 100 initStatus)
           104 scroll_sample ABUF_INIT = Some ab'
         ∧ emitted ab'
             ([] ++ ERASE_LINE
                 ++ if 104 - 100 <? 5
                    then take (Z.to_nat (Z.min 79 (screencols scroll_sample)))
                              (str "HELP: CTRL-Q = quit")
                    else []).
Proof.
  apply (message_shows_for_five_seconds (str "HELP: CTRL-Q = quit") 100 104
           initStatus scroll_sample ABUF_INIT []).
  - apply Forall_forall. vm_compute. intros c Hc.
    repeat (destruct Hc as [<-|Hc]; [done|]). destruct Hc.
  - cbn. lia.
  - exact emitted_init.
  - by vm_compute.
  - by vm_compute.
Defined.

(** * A whole refresh *)

Lemma init_prefix_fmap (out : list Z) : init_prefix (Some <$> out) = out.
Proof.
  rewrite <- (app_nil_r (Some <$> out)), init_prefix_app. apply app_nil_r.
Qed.

Lemma cursor_to_len (r c : Z) :
  0 <= r → int_range r → 0 <= c → int_range c → len (cursor_to r c) <= 24.
Proof.
  intros Hr0 Hr Hc0 Hc. unfold cursor_to.
  rewrite len_cons, !len_app.
  pose proof (fmt_d_len_nonneg r Hr0 Hr). pose proof (fmt_d_len_nonneg c Hc0 Hc).
  change (len (str "[")) with 1. change (len (str ";")) with 1.
  change (len (str "H")) with 1. lia.
Qed.

Lemma cursor_to_no_nul (r c : Z) : Forall (λ b, b ≠ NUL) (cursor_to r c).
Proof.
  unfold cursor_to. constructor; [done|].
  repeat (apply Forall_app; split);
    try apply fmt_d_no_nul; by apply Forall_singleton.
Qed.

(** A refresh, drawing included, in the model's arithmetic. *)
Lemma editorRefreshScreen_frame_spec (X : editorStatus) (now : Z)
    (E : editorConfig) (msg rest : list Z) :
  state_ok E → 1 <= screencols E →
  int_range (numrows E) → int_range (cy E + 1) →
  int_range (screenrows E) → int_range (screencols E) →
  statusmsg X = msg ++ NUL :: rest → Forall (λ c, c ≠ NUL) msg →
  ∃ E' lines,
    editorRefreshScreen E = Some E'
    ∧ editorRefreshScreen_frame X now E
      = Some (E',
              HIDE_CURSOR ++ CURSOR_HOME
              ++ concat ((λ line, line ++ ERASE_LINE ++ CRLF) <$> lines)
              ++ (INVERT ++ status_bar X E' ++ PLAIN ++ CRLF)
              ++ (ERASE_LINE
                  ++ if now - statusmsg_time X <? 5
                     then take (Z.to_nat (screencols E)) msg else [])
              ++ cursor_to (cy E' - rowoff E' + 1) (rx E' - coloff E' + 1)
              ++ SHOW_CURSOR)
    ∧ length lines = Z.to_nat (screenrows E)
    ∧ (∀ (y : nat) line, lines !! y = Some line →
                         screen_line E' (Z.of_nat y) line)
    ∧ 1 <= cy E' - rowoff E' + 1 <= screenrows E
    ∧ 1 <= rx E' - coloff E' + 1 <= screencols E.
Proof.
  intros Hok Hsc Hnum Hcy Hsr_int Hsc_int Hmsg Hnz.
  destruct (editorRefreshScreen_ok E Hok) as (E' & Hscroll & Hok' & _).
  pose proof Hok as (_ & _ & _ & _ & Hsr).
  unfold editorRefreshScreen in Hscroll.
  destruct (editorScroll_any_state E E' Hscroll) as (Hcy' & _ & Hview & _).
  destruct (Hview Hsr Hsc) as [Hrow Hcol]. clear Hview.
  destruct (editorScroll_frame E E' Hscroll)
    as (_ & _ & [_ Hnum'] & [Hsr' Hsc']).
  destruct Hok' as (Hrows' & _ & Hro' & Hco' & _).
  exists E'.
  unfold editorRefreshScreen_frame, editorRefreshScreen.
  rewrite Hscroll. cbn [mbind option_bind].
  destruct (abAppend_all ABUF_INIT [] HIDE_CURSOR emitted_init)
    as (ab1 & H1 & Hab1).
  change (len HIDE_CURSOR) with 6 in H1.
  change (ESC :: str "[?25l") with HIDE_CURSOR.
  rewrite H1. cbn [mbind option_bind]. clear H1.
  destruct (abAppend_all ab1 _ CURSOR_HOME Hab1) as (ab2 & H2 & Hab2).
  change (len CURSOR_HOME) with 3 in H2.
  change (ESC :: str "[H") with CURSOR_HOME.
  rewrite H2. cbn [mbind option_bind]. clear H2.
  assert (Hsc0 : 0 <= screencols E') by lia.
  assert (Hnum_int : int_range (numrows E')) by (by rewrite Hnum').
  assert (Hcy_int : int_range (cy E' + 1)) by (by rewrite Hcy').
  destruct (editorDrawRows_spec E' ab2 _ Hrows' Hro' Hco' Hsc0 Hab2)
    as (ab3 & lines & H3 & Hab3 & Hlen & Hlines).
  rewrite H3. cbn [mbind option_bind]. clear H3.
  destruct (editorDrawStatusBar_spec X E' ab3 _ Hnum_int Hcy_int Hsc0 Hab3)
    as (ab4 & H4 & Hab4).
  rewrite H4. cbn [mbind option_bind]. clear H4.
  destruct (editorDrawMessageBar_spec X now E' msg rest ab4 _ Hmsg Hnz
              Hsc0 Hab4) as (ab5 & H5 & Hab5).
  rewrite H5. cbn [mbind option_bind]. clear H5.
  change (ESC :: str "[" ++ fmt_d (cy E' - rowoff E' + 1) ++ str ";"
              ++ fmt_d (rx E' - coloff E' + 1) ++ str "H")
    with (cursor_to (cy E' - rowoff E' + 1) (rx E' - coloff E' + 1)).
  set (cur := cursor_to (cy E' - rowoff E' + 1) (rx E' - coloff E' + 1)).
  assert (Hcur : len cur <= 24).
  { apply cursor_to_len; unfold int_range in *; lia. }
  unfold snprintf. cbv beta iota zeta.
  pose proof (len_nonneg cur).
  rewrite (take_ge cur) by (unfold len in *; lia).
  rewrite (strlen_terminated cur [] (cursor_to_no_nul _ _)).
  cbn [mbind option_bind].
  destruct (abAppend_emitted ab5 _ (cur ++ [NUL]) (len cur) Hab5)
    as (ab6 & H6 & Hab6).
  { rewrite len_app. change (len [NUL]) with 1. lia. }
  rewrite H6. cbn [mbind option_bind]. clear H6.
  rewrite to_nat_len, take_app_length in Hab6.
  destruct (abAppend_all ab6 _ SHOW_CURSOR Hab6) as (ab7 & H7 & Hab7).
  change (len SHOW_CURSOR) with 6 in H7.
  change (ESC :: str "[?25h") with SHOW_CURSOR.
  rewrite H7. cbn [mbind option_bind]. clear H7.
  destruct Hab7 as [Hb7 Hl7]. rewrite Hb7, Hl7.
  unfold bytes_from. cbn [Z.ltb Z.compare].
  change (Z.to_nat 0) with O. rewrite !drop_0, init_prefix_fmap.
  match goal with |- context [len ?o] => set (frame := o) end.
  pose proof (len_nonneg frame).
  destruct (Z.leb_spec 0 (len frame)); [|lia].
  destruct (Z.leb_spec (len frame) (len frame)); [|lia].
  cbn [andb]. rewrite to_nat_len, firstn_all.
  exists lines. split; [done|]. split.
  { subst frame. rewrite Hsc'. cbn [app]. by rewrite <- !app_assoc. }
  rewrite Hsr' in *. rewrite Hsc' in *.
  split; [done|]. split; [done|]. lia.
Qed.

(** X16: on a sound state with a window of at least one column, where
    what the refresh computes is in the range of an [int]
    ([refresh_fits]), [editorRefreshScreen] writes one frame: hide
    cursor, cursor home, the [screenrows] window lines, the status bar,
    the message bar, the cursor position and show cursor, in this order
    and nothing else. The position written is that of the cursor inside
    the window: line [cy - rowoff + 1] in [1, screenrows], column
    [rx - coloff + 1] in [1, screencols]. *)
Theorem refresh_writes_one_frame (X : editorStatus) (now : Z)
    (E : editorConfig) (msg : list Z) :
  state_ok E → 1 <= screencols E → refresh_fits E → message_of X msg →
  ∃ E' lines,
    editorRefreshScreen E = Some E'
    ∧ editorRefreshScreen_frame X now E
      = Some (E',
              HIDE_CURSOR ++ CURSOR_HOME
              ++ concat ((λ line, line ++ ERASE_LINE ++ CRLF) <$> lines)
              ++ (INVERT ++ status_bar X E' ++ PLAIN ++ CRLF)
              ++ (ERASE_LINE
                  ++ if now - statusmsg_time X <? 5
                     then take (Z.to_nat (screencols E)) msg else [])
              ++ cursor_to (cy E' - rowoff E' + 1) (rx E' - coloff E' + 1)
              ++ SHOW_CURSOR)
    ∧ length lines = Z.to_nat (screenrows E)
    ∧ (∀ (y : nat) line, lines !! y = Some line →
                         screen_line E' (Z.of_nat y) line)
    ∧ 1 <= cy E' - rowoff E' + 1 <= screenrows E
    ∧ 1 <= rx E' - coloff E' + 1 <= screencols E.
Proof.
  intros Hok Hsc Hfits [Hnz [rest Hmsg]].
  destruct Hfits as ((Hint & _) & _ & Hcy & _).
  destruct Hint as (_ & _ & _ & _ & _ & Hsr & Hscr & Hnum).
  by apply (editorRefreshScreen_frame_spec X now E msg rest).
Qed.


Lemma draw_rows_emits_window_witness :
  ∃ ab' lines,
    editorDrawRows (set_coloff scroll_sample 1) ABUF_INIT = Some ab'
    ∧ emitted ab'
        ([] ++ concat ((λ line, line ++ ERASE_LINE ++ CRLF) <$> lines))
    ∧ length lines = 22%nat
    ∧ ∀ (y : nat) line, lines !! y = Some line →
        screen_line (set_coloff scroll_sample 1) (Z.of_nat y) line.
Proof.
  pose proof scroll_sample_fits as ((Hint & _) & Hfit & _).
  apply (draw_rows_emits_window (set_coloff scroll_sample 1) ABUF_INIT []).
  - exact scroll_sample_rows_ok.
  - cbn. lia.
  - cbn. lia.
  - cbn. lia.
  - exact emitted_init.
  - unfold int_fields, int_range in *. cbn in *. lia.
  - exact Hfit.
  - by vm_compute.
  - by vm_compute.
Defined.

Lemma scroll_sample_state_ok : state_ok scroll_sample.
Proof.
  split; [apply scroll_sample_rows_ok|].
  split; [apply scroll_sample_cursor_ok|].
  unfold view_ok, scroll_sample. fields. lia.
Qed.

Lemma refresh_writes_one_frame_witness :
  ∃ E', editorRefreshScreen scroll_sample = Some E'
        ∧ (∃ frame, editorRefreshScreen_frame initStatus 0 scroll_sample
                    = Some (E', frame))
        ∧ 1 <= cy E' - rowoff E' + 1 <= 22
        ∧ 1 <= rx E' - coloff E' + 1 <= 5.
Proof.
  destruct (refresh_writes_one_frame initStatus 0 scroll_sample [])
    as (E' & lines & H1 & H2 & _ & _ & H3 & H4).
  - exact scroll_sample_state_ok.
  - cbn. lia.
  - exact scroll_sample_fits.
  - split; [constructor|by exists []].
  - exists E'. split; [exact H1|]. split; [eexists; exact H2|].
    split; [exact H3|exact H4].
Defined.

Lemma elem_of_take_inv {A : Type} (x : A) (n : nat) (l : list A) :
  x ∈ take n l → x ∈ l.
Proof.
  rewrite elem_of_take. intros (i & Hi & _).
  apply list_elem_of_lookup. eauto.
Qed.

Lemma elem_of_drop_inv {A : Type} (x : A) (n : nat) (l : list A) :
  x ∈ drop n l → x ∈ l.
Proof.
  rewrite !list_elem_of_lookup. intros (i & Hi).
  rewrite lookup_drop in Hi. eauto.
Qed.

(** X17: no line [editorDrawRows] writes contains a tab byte, whatever
    the document holds: tabs reach the terminal as spaces only. (The
    fields of the state, the sizes of the rows, the file rows
    [y + rowoff] and the length the buffer grows to are [int]s.) *)
Theorem drawn_lines_have_no_tab (E : editorConfig) (ab : abuf)
    (out : list Z) :
  rows_ok E → 0 <= rowoff E → 0 <= coloff E → 0 <= screencols E →
  emitted ab out →
  int_fields E → rows_fit E → int_range (rowoff E + screenrows E) →
  len out + rows_bytes E <= INT_MAX →
  ∃ ab' lines,
    editorDrawRows E ab = Some ab'
    ∧ emitted ab'
        (out ++ concat ((λ line, line ++ ERASE_LINE ++ CRLF) <$> lines))
    ∧ Forall (λ line, TAB ∉ line) lines.
Proof.
  intros Hrows Hro Hco Hsc Hab _ _ _ _.
  destruct (editorDrawRows_spec E ab out Hrows Hro Hco Hsc Hab)
    as (ab' & lines & H1 & H2 & _ & Hlines).
  exists ab', lines. split; [done|]. split; [done|].
  apply Forall_lookup. intros y line Hy.
  destruct (Hlines y line Hy) as (Htext & Hbelow & _).
  destruct (Z.lt_ge_cases (Z.of_nat y + rowoff E) (numrows E)) as [Hin|Hout].
  - destruct (row_at_defined E (Z.of_nat y + rowoff E) Hrows) as [r Hr];
      [lia|].
    destruct (row_at_Some E _ r Hrows Hr) as (_ & bs & Hh & _).
    rewrite (Htext bs) by (by exists r).
    unfold window_of. intros Hin'.
    apply elem_of_take_inv, elem_of_drop_inv in Hin'.
    by apply (expand_no_tab_out bs).
  - rewrite (Hbelow Hout).
    destruct ((numrows E =? 0) && (Z.of_nat y =? screenrows E / 3)).
    + unfold welcome_line. cbv zeta. rewrite elem_of_app.
      intros [Hin'|Hin']; apply elem_of_take_inv in Hin'.
      * apply elem_of_cons in Hin' as [Hin'|Hin']; [discriminate Hin'|].
        apply elem_of_replicate in Hin' as [Hin' _]. discriminate Hin'.
      * revert Hin'. vm_compute. intros Hin'.
        repeat (apply elem_of_cons in Hin' as [Hin'|Hin'];
                [discriminate Hin'|]).
        by apply elem_of_nil in Hin'.
    + rewrite list_elem_of_singleton. discriminate.
Qed.

Lemma drawn_lines_have_no_tab_witness :
  ∃ ab' lines,
    editorDrawRows scroll_sample ABUF_INIT = Some ab'
    ∧ emitted ab'
        ([] ++ concat ((λ line, line ++ ERASE_LINE ++ CRLF) <$> lines))
    ∧ Forall (λ line, TAB ∉ line) lines.
Proof.
  pose proof scroll_sample_fits as ((Hint & _ & Hsum & _) & Hfit & _).
  apply (drawn_lines_have_no_tab scroll_sample ABUF_INIT []).
  - exact scroll_sample_rows_ok.
  - cbn. lia.
  - cbn. lia.
  - cbn. lia.
  - exact emitted_init.
  - exact Hint.
  - exact Hfit.
  - exact Hsum.
  - by vm_compute.
Defined.

(** X18: main's start. Opening a file whose lines, and their number,
    fit the [int] sizes of the source gives, from the initial state, a
    sound state: one row for each line, the cursor at the start of the
    document and inside it. *)
Theorem opened_document_is_sound (ws_row ws_col : Z)
    (lines : list (list Z)) :
  3 <= ws_row → int_range ws_row → int_range ws_col →
  Forall text_fits lines → len lines <= INT_MAX →
  ∃ E, editorOpen (Some lines) (initEditor ws_row ws_col) = Running E
       ∧ loaded ws_row ws_col E
       ∧ state_ok E ∧ cursor_in_document E
       ∧ cx E = 0 ∧ cy E = 0 ∧ numrows E = len lines.
Proof.
  intros Hws _ _ _ _.
  destruct (open_lines_spec lines (initEditor ws_row ws_col)
              (init_rows_ok ws_row ws_col))
    as (E & Hopen & Hnum & _).
  exists E. cbn [editorOpen]. rewrite Hopen. split; [done|].
  assert (Hload : loaded ws_row ws_col E)
    by (eapply open_lines_loaded; [apply loaded_init|exact Hopen]).
  destruct (loaded_state_ok ws_row ws_col E Hws Hload) as (Hok & Hcx & Hcy).
  split; [done|]. split; [done|].
  cbn in Hnum. pose proof (len_nonneg lines).
  split; [|by rewrite Hcx, Hcy, Hnum].
  destruct Hok as (Hrows & _).
  pose proof (row_size_at_nonneg E (cy E) Hrows).
  unfold cursor_in_document. lia.
Qed.

Lemma opened_document_is_sound_witness :
  ∃ E, editorOpen (Some [[97; 9; 98; 10]; [99]]) (initEditor 24 80)
       = Running E
       ∧ loaded 24 80 E
       ∧ state_ok E ∧ cursor_in_document E
       ∧ cx E = 0 ∧ cy E = 0 ∧ numrows E = len [[97; 9; 98; 10]; [99]].
Proof.
  apply (opened_document_is_sound 24 80).
  - lia.
  - by vm_compute.
  - by vm_compute.
  - repeat constructor; by vm_compute.
  - by vm_compute.
Defined.

(** * The cursor on the screen *)

Lemma expand_byte_longer (out : list Z) (c : Z) :
  (length out < length (expand_byte out c))%nat.
Proof.
  pose proof (len_expand_byte out c) as H. unfold EDIT_TAB_STOP in H.
  assert (0 <= len out mod 8 < 8) by zmod.
  unfold len in *. destruct (c =? TAB); lia.
Qed.

Lemma expand_byte_keeps (out : list Z) (c : Z) (i : nat) :
  (i < length out)%nat → expand_byte out c !! i = out !! i.
Proof.
  intros Hi. unfold expand_byte.
  destruct (c =? TAB); by rewrite lookup_app_l.
Qed.

Lemma expand_from_keeps (bs : list Z) :
  ∀ (out : list Z) (i : nat),
    (i < length out)%nat → expand_from out bs !! i = out !! i.
Proof.
  induction bs as [|c bs IH]; intros out i Hi; [done|].
  cbn [expand_from fold_left]. fold (expand_from (expand_byte out c) bs).
  pose proof (expand_byte_longer out c).
  rewrite IH by lia. by apply expand_byte_keeps.
Qed.

Lemma expand_byte_first (out : list Z) (c : Z) :
  expand_byte out c !! length out = Some (shown c).
Proof.
  unfold expand_byte, shown, EDIT_TAB_STOP.
  assert (0 <= len out mod 8 < 8) by zmod.
  destruct (c =? TAB).
  - rewrite lookup_app_r, Nat.sub_diag by lia.
    apply lookup_replicate_2. lia.
  - by rewrite list_lookup_middle.
Qed.

(** The rendered form of a text that follows [out] has, right after
    [out], the first column of its first byte. *)
Lemma expand_from_first (bs out : list Z) :
  expand_from out bs !! length out = shown <$> head bs.
Proof.
  destruct bs as [|c bs]; [by apply lookup_ge_None_2|].
  cbn [expand_from fold_left head fmap option_fmap option_map].
  fold (expand_from (expand_byte out c) bs).
  rewrite expand_from_keeps by apply expand_byte_longer.
  apply expand_byte_first.
Qed.

Lemma expand_app (l k : list Z) :
  expand (l ++ k) = expand_from (expand l) k.
Proof. unfold expand, expand_from. apply fold_left_app. Qed.

Lemma cursor_cell (E E' : editorConfig) (text : list Z) :
  rows_ok E → cursor_ok E → 1 <= screenrows E → 1 <= screencols E →
  0 <= coloff E →
  editorScroll E = Some E' → text_at E (cy E) text →
  window_of E' text !! Z.to_nat (rx E' - coloff E')
  = shown <$> text !! Z.to_nat (cx E).
Proof.
  intros Hrows (Hcx & _ & Hsize & _) Hsr Hsc Hco Hscroll (r & Hr & Hh).
  destruct (editorScroll_any_state E E' Hscroll)
    as (_ & Hrx & Hview & _ & Hco').
  destruct (Hview Hsr Hsc) as [_ Hcol]. specialize (Hco' Hco).
  destruct (row_at_Some E _ r Hrows Hr) as [Hcy _].
  specialize (Hsize r Hr).
  unfold cursor_rx in Hrx.
  destruct (Z.ltb_spec (cy E) (numrows E)); [|lia].
  rewrite Hr in Hrx. cbn [mbind option_bind] in Hrx.
  rewrite (editorRowCxToRx_holds r text (cx E) Hh) in Hrx by lia.
  injection Hrx as Hrx. rewrite <- len_expand in Hrx.
  set (pre := take (Z.to_nat (cx E)) text) in *.
  unfold window_of.
  rewrite lookup_take_lt by lia. rewrite lookup_drop.
  replace (Z.to_nat (coloff E') + Z.to_nat (rx E' - coloff E'))%nat
    with (length (expand pre)) by (unfold len in *; lia).
  rewrite <- (take_drop (Z.to_nat (cx E)) text) at 1. fold pre.
  rewrite expand_app, expand_from_first.
  f_equal. rewrite head_lookup, lookup_drop. f_equal. lia.
Qed.

(** X19: after [editorScroll], with a window of at least one row and one
    column and with sums and a rendered column in the range of an [int]
    ([scroll_fits]), the cell at the cursor position of the window line
    the cursor is on holds the byte of the text at offset [cx], a space
    when that byte is a tab, and no byte when the cursor is at the end
    of its text. *)
Theorem cursor_lands_on_its_byte (E E' : editorConfig) (text line : list Z) :
  rows_ok E → cursor_ok E → 1 <= screenrows E → 1 <= screencols E →
  0 <= coloff E → scroll_fits E →
  editorScroll E = Some E' → text_at E (cy E) text →
  screen_line E' (cy E' - rowoff E') line →
  line !! Z.to_nat (rx E' - coloff E') = shown <$> text !! Z.to_nat (cx E).
Proof.
  intros Hrows Hcur Hsr Hsc Hco _ Hscroll Htext (Hline & _).
  destruct (editorScroll_frame E E' Hscroll) as (_ & Hcy & [Hrow _] & _).
  rewrite (Hline text).
  - by apply cursor_cell.
  - replace (cy E' - rowoff E' + rowoff E') with (cy E) by lia.
    destruct Htext as (r & Hr & Hh). exists r. split; [|done].
    by rewrite (row_at_same_rows E E' _ Hrow).
Qed.

Lemma cursor_lands_on_its_byte_witness :
  ∃ E', editorScroll (set_cx scroll_sample 2) = Some E'
        ∧ [97; 98; 32; 32; 32] !! Z.to_nat (rx E' - coloff E')
          = shown <$> sample_text !! Z.to_nat (cx (set_cx scroll_sample 2)).
Proof.
  eexists. split; [vm_compute; reflexivity|].
  apply (cursor_lands_on_its_byte (set_cx scroll_sample 2) _ sample_text
           [97; 98; 32; 32; 32]).
  - exact scroll_sample_rows_ok.
  - unfold cursor_ok, scroll_sample, set_cx. fields.
    repeat split; try lia. intros r [= <-]. cbn. lia.
  - cbn. lia.
  - cbn. lia.
  - cbn. lia.
  - split; [|split].
    + unfold int_fields, int_range, scroll_sample, set_cx. fields.
      repeat split; lia.
    + intros rxv Hrx. vm_compute in Hrx. injection Hrx as <-.
      unfold int_range. lia.
    + unfold int_range, scroll_sample, set_cx. fields. lia.
  - vm_compute. reflexivity.
  - exists sample_row. split; [reflexivity|]. split; reflexivity.
  - split; [|split].
    + intros text (r & Hr & Hh). injection Hr as <-.
      assert (Hs : holds sample_row sample_text) by (split; reflexivity).
      by rewrite (holds_unique sample_row text sample_text Hh Hs).
    + cbn. lia.
    + unfold len. cbn. lia.
Defined.

(** * The window size *)

Lemma read_report_got (bs : list Z) (rest : input) :
  ∀ room : nat,
    ch "R" ∉ bs → (length bs < room)%nat →
    read_report room ((Got <$> bs) ++ Got (ch "R") :: rest) = (bs, rest).
Proof.
  induction bs as [|b bs IH]; intros room Hno Hroom.
  - destruct room as [|room]; [lia|]. reflexivity.
  - destruct room as [|room]; [cbn in Hroom; lia|].
    apply not_elem_of_cons in Hno as [Hb Hno].
    cbn [fmap list_fmap app read_report read].
    destruct (Z.eqb_spec b (ch "R")); [done|].
    rewrite IH; [done|done|cbn in Hroom; lia].
Qed.

Lemma c_str_terminated (s rest : list Z) :
  Forall (λ c, c ≠ NUL) s → c_str (s ++ NUL :: rest) = s.
Proof.
  induction 1 as [|c s Hc _ IH]; [done|].
  cbn [app c_str]. destruct (Z.eqb_spec c NUL); [done|by rewrite IH].
Qed.

Lemma span_digits_app (ds rest : list Z) :
  Forall (λ d, isdigit d = true) ds →
  (∀ c, head rest = Some c → isdigit c = false) →
  span_digits (ds ++ rest) = (ds, rest).
Proof.
  intros Hds Hrest. induction Hds as [|d ds Hd _ IH].
  - destruct rest as [|c rest]; [done|].
    cbn [app span_digits]. by rewrite (Hrest c).
  - cbn [app span_digits]. by rewrite Hd, IH.
Qed.

Lemma fmt_d_digits (n : Z) :
  0 <= n → Forall (λ d, isdigit d = true) (fmt_d n).
Proof.
  intros Hn. unfold fmt_d. destruct (Z.ltb_spec n 0); [lia|].
  pose proof (digits_range (S (Z.to_nat (Z.log2 (Z.abs n)))) n) as Hr.
  rewrite Forall_lookup in Hr. apply Forall_lookup. intros i d Hi.
  specialize (Hr i d Hi). unfold isdigit.
  destruct (Z.leb_spec (ch "0") d); [|lia].
  destruct (Z.leb_spec d (ch "9")); [done|lia].
Qed.

(** [%d] reads back what [%d] wrote, up to the first byte that is not a
    digit. *)
Lemma scan_d_fmt_d (n : Z) (rest : list Z) :
  0 <= n < 2 ^ 31 →
  (∀ c, head rest = Some c → isdigit c = false) →
  scan_d (fmt_d n ++ rest) = Some (Some (n, rest)).
Proof.
  intros Hn Hrest.
  assert (Hint : int_range n) by (unfold int_range; lia).
  pose proof (fmt_d_len_nonneg n (proj1 Hn) Hint) as Hlen.
  pose proof (fmt_d_digits n (proj1 Hn)) as Hds.
  pose proof (fmt_d_value n (proj1 Hn)) as Hval.
  destruct (fmt_d n) as [|d ds] eqn:Hfmt;
    [unfold len in Hlen; cbn [length] in Hlen; lia|].
  pose proof (Forall_inv Hds) as Hd. unfold isdigit in Hd.
  apply andb_true_iff in Hd as [Hd1 Hd2].
  apply Z.leb_le in Hd1, Hd2. revert Hd1 Hd2. eval_ch. intros Hd1 Hd2.
  unfold scan_d. cbn [app skip_space].
  assert (Hsp : isspace d = false).
  { unfold isspace, SPACE.
    destruct (Z.eqb_spec d 32); [lia|].
    destruct (Z.leb_spec 9 d); destruct (Z.leb_spec d 13); try done; lia. }
  rewrite Hsp. cbv zeta.
  destruct (Z.eqb_spec d (ch "-")) as [He|_]; [revert He; eval_ch; lia|].
  destruct (Z.eqb_spec d (ch "+")) as [He|_]; [revert He; eval_ch; lia|].
  change (d :: ds ++ rest) with ((d :: ds) ++ rest).
  rewrite (span_digits_app (d :: ds) rest Hds Hrest).
  rewrite Hval.
  destruct (Z.leb_spec (- 2 ^ 31) n); [|lia].
  destruct (Z.ltb_spec n (2 ^ 31)); [done|lia].
Qed.

Lemma getCursorPosition_report (rows cols : Z) (rest : input) :
  0 <= rows < 2 ^ 31 → 0 <= cols < 2 ^ 31 →
  getCursorPosition true (cursor_report rows cols ++ rest)
  = (Some (Some (rows, cols)), rest).
Proof.
  intros Hr Hc. unfold getCursorPosition, cursor_report.
  set (bs := ESC :: str "[" ++ fmt_d rows ++ str ";" ++ fmt_d cols).
  assert (Hbs : ESC :: str "[" ++ fmt_d rows ++ str ";" ++ fmt_d cols
                    ++ str "R" = bs ++ [ch "R"])
    by (subst bs; cbn [app]; by rewrite <- !app_assoc).
  rewrite Hbs, fmap_app, <- app_assoc. cbn [fmap list_fmap app].
  assert (Hrd : Forall (λ d, isdigit d = true) (fmt_d rows))
    by (apply fmt_d_digits; lia).
  assert (Hcd : Forall (λ d, isdigit d = true) (fmt_d cols))
    by (apply fmt_d_digits; lia).
  assert (HnoR : ∀ n, 0 <= n → ch "R" ∉ fmt_d n).
  { intros n Hn Hin. pose proof (fmt_d_digits n Hn) as Hd.
    rewrite Forall_forall in Hd. apply list_elem_of_In in Hin.
    specialize (Hd _ Hin). discriminate Hd. }
  rewrite read_report_got.
  - subst bs. change (str "[") with [ch "["].
    change (str ";") with [ch ";"]. cbn [app].
    change (negb (ESC =? ESC) || negb (ch "[" =? ch "[")) with false.
    cbn [orb].
    rewrite c_str_terminated.
    2:{ apply Forall_app. split; [apply fmt_d_no_nul|].
        constructor; [done|apply fmt_d_no_nul]. }
    unfold sscanf_d_d.
    rewrite scan_d_fmt_d; [|lia|by intros c [= <-]].
    cbn [mbind option_bind app].
    change (ch ";" =? ch ";") with true. cbv iota.
    rewrite <- (app_nil_r (fmt_d cols)).
    rewrite scan_d_fmt_d; [done|lia|by intros c [=]].
  - subst bs. rewrite !not_elem_of_cons, !not_elem_of_app.
    change (str "[") with [ch "["]. change (str ";") with [ch ";"].
    rewrite !list_elem_of_singleton.
    split; [done|]. split; [done|].
    split; [apply HnoR; lia|].
    split; [done|apply HnoR; lia].
  - subst bs. cbn [length]. rewrite !length_app.
    assert (Hir : int_range rows) by (unfold int_range; lia).
    assert (Hic : int_range cols) by (unfold int_range; lia).
    pose proof (fmt_d_len_nonneg rows (proj1 Hr) Hir).
    pose proof (fmt_d_len_nonneg cols (proj1 Hc) Hic).
    unfold len in *. cbn [length str]. cbn. lia.
Qed.

Lemma read_report_garbled (room : nat) (inp inp' : input) (buf : list Z) :
  (∀ rest, inp ≠ Got ESC :: Got (ch "[") :: rest) →
  read_report room inp = (buf, inp') →
  match buf ++ [NUL] with
  | b0 :: b1 :: _ => negb (b0 =? ESC) || negb (b1 =? ch "[") = true
  | _ => True
  end.
Proof.
  intros Hno Hread.
  destruct room as [|room]; [by injection Hread as <- _|].
  destruct inp as [|[c| | |] inp]; cbn [read_report read] in Hread;
    try by injection Hread as <- _.
  destruct (Z.eqb_spec c (ch "R")); [by injection Hread as <- _|].
  destruct (read_report room inp) as [buf1 inp1] eqn:Hread1.
  injection Hread as <- _. cbn [app].
  destruct (Z.eqb_spec c ESC) as [->|Hc]; [|by destruct (buf1 ++ [NUL])].
  cbn [negb orb].
  destruct room as [|room]; [by injection Hread1 as <- _|].
  destruct inp as [|[c2| | |] inp]; cbn [read_report read] in Hread1;
    try by injection Hread1 as <- _.
  destruct (Z.eqb_spec c2 (ch "R")); [by injection Hread1 as <- _|].
  destruct (read_report room inp) as [buf2 inp2].
  injection Hread1 as <- _. cbn [app].
  destruct (Z.eqb_spec c2 (ch "[")) as [->|Hc2]; [by destruct (Hno inp)|done].
Qed.

Lemma getCursorPosition_garbled (inp : input) :
  (∀ rest, inp ≠ Got ESC :: Got (ch "[") :: rest) →
  ∃ inp', getCursorPosition true inp = (Some None, inp').
Proof.
  intros Hno. unfold getCursorPosition.
  destruct (read_report 31 inp) as [buf inp'] eqn:Hread.
  exists inp'. pose proof (read_report_garbled 31 inp inp' buf Hno Hread) as H.
  destruct (buf ++ [NUL]) as [|b0 [|b1 text]]; [done|done|].
  by rewrite H.
Qed.

(** X20: the cursor position query reads back what a terminal reports.
    When the window size is not known from [ioctl] (the call fails or
    reports no columns), both writes succeed and the terminal answers
    with [ESC [ rows ; cols R], [getWindowSize] returns [rows] and
    [cols] and leaves the input that follows the report. *)
Theorem window_size_from_cursor_report (ioctl : option (Z * Z))
    (rows cols : Z) (rest : input) :
  0 <= rows < 2 ^ 31 → 0 <= cols < 2 ^ 31 →
  (∀ r c, ioctl = Some (r, c) → c = 0) →
  getCursorPosition true (cursor_report rows cols ++ rest)
  = (Some (Some (rows, cols)), rest)
  ∧ getWindowSize ioctl true true (cursor_report rows cols ++ rest)
    = (Some (Some (rows, cols)), rest).
Proof.
  intros Hr Hc Hio.
  pose proof (getCursorPosition_report rows cols rest Hr Hc) as Hget.
  split; [done|]. unfold getWindowSize. cbv zeta.
  destruct ioctl as [[r c]|]; [|done].
  rewrite (Hio r c eq_refl). done.
Qed.

Lemma window_size_from_cursor_report_witness :
  getCursorPosition true (cursor_report 24 80 ++ [Got 120])
  = (Some (Some (24, 80)), [Got 120])
  ∧ getWindowSize (Some (0, 0)) true true (cursor_report 24 80 ++ [Got 120])
    = (Some (Some (24, 80)), [Got 120]).
Proof.
  apply (window_size_from_cursor_report (Some (0, 0)) 24 80 [Got 120]).
  - lia.
  - lia.
  - intros r c [= _ <-]. reflexivity.
Defined.

(** X21: [getWindowSize] trusts [ioctl] when it reports a size with
    columns, and then reads no input. Otherwise it has no size, and
    [initEditor] ends the process with status 1, when one of the two
    writes fails or the input does not start with [ESC []. *)
Theorem window_size_unknown_without_report (ioctl : option (Z * Z))
    (write_ok query_ok : bool) (inp : input) :
  (∀ r c, ioctl = Some (r, c) → c ≠ 0 →
     getWindowSize ioctl write_ok query_ok inp = (Some (Some (r, c)), inp))
  ∧ ((∀ r c, ioctl = Some (r, c) → c = 0) →
     write_ok = false ∨ query_ok = false
     ∨ (∀ rest, inp ≠ Got ESC :: Got (ch "[") :: rest) →
     ∃ inp', getWindowSize ioctl write_ok query_ok inp = (Some None, inp')
             ∧ initEditor_sized None = Exited 1).
Proof.
  split.
  - intros r c -> Hc. unfold getWindowSize.
    by destruct (Z.eqb_spec c 0).
  - intros Hio Hfail.
    assert (Hfb : ∃ inp',
              (if write_ok then getCursorPosition query_ok inp
               else (Some None, inp)) = (Some None, inp')).
    { destruct write_ok; [|by eexists].
      destruct query_ok; [|by eexists].
      destruct Hfail as [Hf|[Hf|Hf]]; [done|done|].
      by apply getCursorPosition_garbled. }
    destruct Hfb as [inp' Hfb]. exists inp'. split; [|done].
    unfold getWindowSize. cbv zeta.
    destruct ioctl as [[r c]|]; [|done].
    by rewrite (Hio r c eq_refl).
Qed.

Lemma window_size_unknown_without_report_witness :
  getWindowSize (Some (24, 80)) true true [Got 120]
  = (Some (Some (24, 80)), [Got 120])
  ∧ ∃ inp', getWindowSize None true true [Got 120] = (Some None, inp')
            ∧ initEditor_sized None = Exited 1.
Proof.
  destruct (window_size_unknown_without_report (Some (24, 80)) true true
              [Got 120]) as [Hknown _].
  destruct (window_size_unknown_without_report None true true [Got 120])
    as [_ Hunknown].
  split.
  - apply Hknown; [reflexivity|lia].
  - apply Hunknown; [intros r c [=]|].
    right. right. intros rest [=].
Defined.

(** * Rounds of the loop of [main] with their frames *)

Lemma initEditor_fits : refresh_fits (initEditor 24 80).
Proof.
  split; [|split].
  - split; [|split].
    + unfold int_fields, int_range, initEditor. fields. repeat split; lia.
    + intros rxv Hrx. vm_compute in Hrx. injection Hrx as <-.
      unfold int_range. lia.
    + unfold int_range, initEditor. fields. lia.
  - apply rows_fit_intro. constructor.
  - unfold int_range, initEditor. fields.
    repeat split; try lia. by vm_compute.
Qed.

(** A refresh is defined, drawing included, on a sound state with at
    least one column whose counters are [int]s. *)
Lemma editorRefreshScreen_frame_defined (X : editorStatus) (now : Z)
    (E : editorConfig) (msg : list Z) :
  state_ok E → 1 <= screencols E →
  int_range (numrows E) → int_range (cy E + 1) →
  int_range (screenrows E) → int_range (screencols E) →
  message_of X msg →
  ∃ E1 frame, editorRefreshScreen_frame X now E = Some (E1, frame)
              ∧ editorRefreshScreen E = Some E1.
Proof.
  intros Hok Hsc Hnum Hcy Hsr Hscr [Hnz [rest Hmsg]].
  destruct (editorRefreshScreen_frame_spec X now E msg rest)
    as (E1 & lines & H1 & H2 & _); try done.
  eauto.
Qed.

(** X7: typing bytes that have no [case] of their own inserts their
    low bytes, in order, at the cursor of the line the cursor is on;
    the other rows, the line of the cursor and the soundness of the
    state are kept, and the refresh before every key, drawing included,
    is defined. The window has at least one column, and what the rounds
    compute is in the range of an [int]: what the first refresh computes
    ([refresh_fits]), one more row, and the size of the render block of
    the line as it ends up, also when [screencols] is added to it (which
    bounds [coloff + screencols] in every round). *)
Theorem typing_inserts_at_cursor (keys : list Z) (E : editorConfig)
    (bs : list Z) (X : editorStatus) (msg : list Z) :
  state_ok E → cursor_line E bs →
  Forall (λ c, handled_key c = false) keys →
  1 <= screencols E → refresh_fits E → message_of X msg →
  numrows E + 1 <= INT_MAX →
  (let text := take (Z.to_nat (cx E)) bs ++ (to_char <$> keys)
               ++ drop (Z.to_nat (cx E)) bs in
   len text + 7 * count_tabs_from text 0 + 1 + screencols E <= INT_MAX) →
  ∃ E', session keys E = Running E'
        ∧ cursor_line E'
            (take (Z.to_nat (cx E)) bs ++ (to_char <$> keys)
             ++ drop (Z.to_nat (cx E)) bs)
        ∧ cx E' = cx E + len keys ∧ cy E' = cy E
        ∧ (∀ i, i ≠ cy E → 0 <= i < numrows E → row_at E' i = row_at E i)
        ∧ state_ok E'
        ∧ (∀ (i : nat) (Ei : editorConfig) (now : Z),
             session (take i keys) E = Running Ei →
             ∃ E1 frame,
               editorRefreshScreen_frame X now Ei = Some (E1, frame)
               ∧ editorRefreshScreen Ei = Some E1).
Proof.
  intros Hok Hline Hkeys Hsc Hfits Hmsg Hrow _.
  destruct (session_typing keys E bs Hok Hline Hkeys)
    as (E' & Hrun & Hline' & Hcx' & Hcy' & Hother & Hok' & _).
  exists E'. do 5 (split; [done|]). split; [done|].
  intros i Ei now Hrun_i.
  destruct (session_typing (take i keys) E bs Hok Hline)
    as (Ei' & Hrun_i' & _ & _ & Hcy_i & _ & Hok_i & [Hsr_i Hsc_i] & Hnum_i);
    [by apply Forall_take|].
  assert (Ei' = Ei) as -> by congruence.
  destruct Hfits as ((Hint & _) & _ & Hcy & _).
  destruct Hint as (_ & _ & _ & _ & _ & Hsr & Hscr & Hnum).
  unfold int_range, INT_MAX in *.
  apply (editorRefreshScreen_frame_defined X now Ei msg); try done;
    unfold int_range; lia.
Qed.

Lemma typing_inserts_at_cursor_witness :
  ∃ E', session [104; 105] scroll_sample = Running E'
        ∧ cursor_line E'
            (take (Z.to_nat (cx scroll_sample)) sample_text
             ++ (to_char <$> [104; 105])
             ++ drop (Z.to_nat (cx scroll_sample)) sample_text)
        ∧ cx E' = cx scroll_sample + len [104; 105]
        ∧ cy E' = cy scroll_sample
        ∧ (∀ i, i ≠ cy scroll_sample → 0 <= i < numrows scroll_sample →
                row_at E' i = row_at scroll_sample i)
        ∧ state_ok E'
        ∧ (∀ (i : nat) (Ei : editorConfig) (now : Z),
             session (take i [104; 105]) scroll_sample = Running Ei →
             ∃ E1 frame,
               editorRefreshScreen_frame initStatus now Ei = Some (E1, frame)
               ∧ editorRefreshScreen Ei = Some E1).
Proof.
  apply (typing_inserts_at_cursor [104; 105] scroll_sample sample_text
           initStatus []).
  - exact scroll_sample_state_ok.
  - right. exists sample_row. split; [reflexivity|].
    apply sample_row_rendered.
  - repeat constructor.
  - cbn. lia.
  - exact scroll_sample_fits.
  - split; [constructor|by exists []].
  - by vm_compute.
  - by vm_compute.
Defined.

(** X9: from every state the loop of [main] reaches in a window of at
    least three rows and one column, where what the refresh computes is
    in the range of an [int], the refresh, drawing included, is defined
    and Ctrl-Q as the next byte, after any timeouts, ends the process
    with status 0; a failed [read] instead ends it with status 1. *)
Theorem quit_key_exits_from_reachable_state (ws_row ws_col : Z)
    (E : editorConfig) (X : editorStatus) (msg : list Z) (now : Z)
    (skip rest : input) :
  3 <= ws_row → 1 <= ws_col → reachable ws_row ws_col E →
  refresh_fits E → message_of X msg → Forall waits skip →
  (∃ E1 frame, editorRefreshScreen_frame X now E = Some (E1, frame)
               ∧ editorRefreshScreen E = Some E1)
  ∧ main_loop 1 (skip ++ Got (CTRL_KEY (ch "q")) :: rest) E
    = Some (Exited 0, rest)
  ∧ main_loop 1 (skip ++ Failed :: rest) E = Some (Exited 1, []).
Proof.
  intros Hws Hcol Hreach Hfits Hmsg Hskip.
  pose proof (reachable_state_ok _ _ _ Hws Hreach) as Hok.
  destruct (reachable_screen _ _ _ Hreach) as [_ Hsc].
  destruct Hfits as ((Hint & _) & _ & Hcy & _).
  destruct Hint as (_ & _ & _ & _ & _ & Hsr & Hscr & Hnum).
  destruct (editorRefreshScreen_frame_defined X now E msg)
    as (E1 & frame & Hframe & Hscroll); try done; [lia|].
  split; [by exists E1, frame|].
  cbn [main_loop]. rewrite Hscroll. unfold editorProcessKeypress.
  unfold editorReadKey. by rewrite !wait_byte_skip.
Qed.

Lemma quit_key_exits_from_reachable_state_witness :
  (∃ E1 frame,
     editorRefreshScreen_frame initStatus 0 (initEditor 24 80)
     = Some (E1, frame)
     ∧ editorRefreshScreen (initEditor 24 80) = Some E1)
  ∧ main_loop 1 ([Timeout] ++ Got (CTRL_KEY (ch "q")) :: [Got 120])
              (initEditor 24 80)
    = Some (Exited 0, [Got 120])
  ∧ main_loop 1 ([Timeout] ++ Failed :: [Got 120]) (initEditor 24 80)
    = Some (Exited 1, []).
Proof.
  apply (quit_key_exits_from_reachable_state 24 80 (initEditor 24 80)
           initStatus []).
  - lia.
  - lia.
  - apply reach_loaded, loaded_init.
  - exact initEditor_fits.
  - split; [constructor|by exists []].
  - constructor; [by left|constructor].
Defined.
